(** * A QNX-on-Linux compatibility layer (musl [qnxsupport]) in Rocq

    Shallow embedding of the process-creation state machine ([spawn.c]),
    the open-mode flag translation ([qfcntl.c]) and the structure
    transcoders ([qstat.c], [qtime.c], [signal.c], [qdir.c]).

    Conventions.  C integers are [Z]; every conversion to a fixed-width
    type is written out ([to_u32], [to_i16], ...).  Host system calls are
    not executed: a function that performs them returns the list of calls
    it issued, in program order, and takes what the host answers as an
    argument.  Memory shared between two layouts is a list of bytes. *)

From Stdlib Require Import ZArith Zbitwise List Bool Lia String.
From stdpp Require Import base list gmap sorting.
Import ListNotations.

Local Open Scope Z_scope.

(** ** Integer conversions of C *)

Definition to_u32 (x : Z) : Z := x mod 2 ^ 32.
Definition to_u64 (x : Z) : Z := x mod 2 ^ 64.
Definition to_i16 (x : Z) : Z := (x + 2 ^ 15) mod 2 ^ 16 - 2 ^ 15.
Definition to_i32 (x : Z) : Z := (x + 2 ^ 31) mod 2 ^ 32 - 2 ^ 31.
Definition to_i64 (x : Z) : Z := (x + 2 ^ 63) mod 2 ^ 64 - 2 ^ 63.

(** A C condition: any non-zero value is true. *)
Definition c_true (x : Z) : bool := negb (x =? 0).

(** ** qfcntl.c: open-mode flags *)

Definition QNX_O_RDONLY : Z := 0.        (* 000000 *)
Definition QNX_O_WRONLY : Z := 1.        (* 000001 *)
Definition QNX_O_RDWR : Z := 2.          (* 000002 *)
Definition QNX_O_NONBLOCK : Z := 128.    (* 000200 *)
Definition QNX_O_APPEND : Z := 8.        (* 000010 *)
Definition QNX_O_DSYNC : Z := 16.        (* 000020 *)
Definition QNX_O_RSYNC : Z := 64.        (* 000100 *)
Definition QNX_O_SYNC : Z := 32.         (* 000040 *)
Definition QNX_O_CREAT : Z := 256.       (* 000400 *)
Definition QNX_O_TRUNC : Z := 512.       (* 001000 *)
Definition QNX_O_EXCL : Z := 1024.       (* 002000 *)
Definition QNX_O_NOCTTY : Z := 2048.     (* 004000 *)

(** The host's [O_*] values come from its own <fcntl.h>; the translation
    is defined for any such header. *)
Record host_fcntl : Type := {
  O_RDONLY : Z; O_WRONLY : Z; O_RDWR : Z; O_NONBLOCK : Z; O_APPEND : Z;
  O_DSYNC : Z; O_RSYNC : Z; O_SYNC : Z; O_CREAT : Z; O_TRUNC : Z;
  O_EXCL : Z; O_NOCTTY : Z
}.

(** The generic Linux header shipped with musl (octal in the header). *)
Definition linux_fcntl : host_fcntl := {|
  O_RDONLY := 0; O_WRONLY := 1; O_RDWR := 2;
  O_NONBLOCK := 2048;    (* 04000 *)
  O_APPEND := 1024;      (* 02000 *)
  O_DSYNC := 4096;       (* 010000 *)
  O_RSYNC := 1052672;    (* 04010000 *)
  O_SYNC := 1052672;     (* 04010000 *)
  O_CREAT := 64;         (* 0100 *)
  O_TRUNC := 512;        (* 01000 *)
  O_EXCL := 128;         (* 0200 *)
  O_NOCTTY := 256        (* 0400 *)
|}.

(** [CONV_MODE(n)]: [if (f & QNX_O_n) ret |= O_n]. *)
Definition CONV_MODE (qnx_bit host_bit : Z) (f ret : Z) : Z :=
  if c_true (Z.land f qnx_bit) then Z.lor ret host_bit else ret.

(** [static int qnx_flag_to_linux(mode_t f)], statement by statement
    (the source converts RDONLY and WRONLY twice). *)
Definition qnx_flag_to_linux (H : host_fcntl) (f : Z) : Z :=
  let ret := 0 in
  let ret := CONV_MODE QNX_O_RDONLY (O_RDONLY H) f ret in
  let ret := CONV_MODE QNX_O_WRONLY (O_WRONLY H) f ret in
  let ret := CONV_MODE QNX_O_RDONLY (O_RDONLY H) f ret in
  let ret := CONV_MODE QNX_O_WRONLY (O_WRONLY H) f ret in
  let ret := CONV_MODE QNX_O_RDWR (O_RDWR H) f ret in
  let ret := CONV_MODE QNX_O_NONBLOCK (O_NONBLOCK H) f ret in
  let ret := CONV_MODE QNX_O_APPEND (O_APPEND H) f ret in
  let ret := CONV_MODE QNX_O_DSYNC (O_DSYNC H) f ret in
  let ret := CONV_MODE QNX_O_RSYNC (O_RSYNC H) f ret in
  let ret := CONV_MODE QNX_O_SYNC (O_SYNC H) f ret in
  let ret := CONV_MODE QNX_O_CREAT (O_CREAT H) f ret in
  let ret := CONV_MODE QNX_O_TRUNC (O_TRUNC H) f ret in
  let ret := CONV_MODE QNX_O_EXCL (O_EXCL H) f ret in
  let ret := CONV_MODE QNX_O_NOCTTY (O_NOCTTY H) f ret in
  ret.

(** The mapping table as the interface description lists it: one entry
    per open-mode flag, foreign value first.  This is the specification
    side; [qnx_flag_to_linux] above is the code. *)
Definition flag_table (H : host_fcntl) : list (Z * Z) :=
  [ (QNX_O_RDONLY, O_RDONLY H); (QNX_O_WRONLY, O_WRONLY H);
    (QNX_O_RDWR, O_RDWR H); (QNX_O_NONBLOCK, O_NONBLOCK H);
    (QNX_O_APPEND, O_APPEND H); (QNX_O_DSYNC, O_DSYNC H);
    (QNX_O_RSYNC, O_RSYNC H); (QNX_O_SYNC, O_SYNC H);
    (QNX_O_CREAT, O_CREAT H); (QNX_O_TRUNC, O_TRUNC H);
    (QNX_O_EXCL, O_EXCL H); (QNX_O_NOCTTY, O_NOCTTY H) ].

(** An entry is selected by [f] when its foreign bit is set in [f]. *)
Definition selected (f : Z) (e : Z * Z) : bool := c_true (Z.land f (fst e)).

(** Bitwise OR of a list of masks. *)
Definition lor_all (l : list Z) : Z := foldr Z.lor 0 l.

(** The specified translation: OR of the host values of the selected
    entries. *)
Definition translate_by_table (H : host_fcntl) (f : Z) : Z :=
  lor_all (map snd (filter (fun e => selected f e = true) (flag_table H))).

(** Every foreign bit that has a table entry. *)
Definition known_qnx_bits : Z := 4091.   (* 07773 *)

(** ** Host signal sets and dispositions *)

(** The host [sigset_t]: an array of 64-bit words ([__bits]); signal
    [sig] is bit [sig - 1].  [sigismember] answers 0 outside [1, 64]. *)
Definition sigset_t : Type := list Z.

Definition sigismember (set : sigset_t) (sig : Z) : Z :=
  let s := sig - 1 in
  if (s <? 0) || (64 <=? s) then 0
  else Z.b2z (Z.testbit (default 0 (set !! 0%nat)) s).

Inductive sighandler : Type :=
| SIG_DFL
| SIG_IGN
| SIG_FN (addr : Z).

Inductive rlim : Type :=
| RLIM_INFINITY
| RLIM (n : Z).

(** ** Host calls issued by spawn.c *)

Inductive host_call : Type :=
| Fork
| Setpgid (pid pgid : Z)
| Sigprocmask_SETMASK (set : sigset_t)
| Setsid
| Setrlimit_STACK (cur max : rlim)
| Signal (sig : Z) (h : sighandler)
| Dup2 (oldfd newfd : Z)
| Close (fd : Z)
| Execve (path : string) (argv : list string) (envp : option (list string))
| Waitpid (pid : Z) (options : Z).

(** What the host answers in the process that runs the code: the value
    [fork] returns there, whether [execve] replaces the image, and for
    [waitpid(pid, &status, 0)] the status word it stores once [pid] has
    terminated ([None]: the call returns -1). *)
Record host : Type := {
  fork_ret : Z;
  execve_ok : bool;
  wait_status : Z -> option Z
}.

(** The host's wait status word.  For a process that called
    [exit(code)] the kernel stores [(code & 0xff) << 8]; for one killed
    by signal [sig] it stores [sig].  <sys/wait.h> reads the exit status
    back with [WEXITSTATUS(s) = ((s) & 0xff00) >> 8]. *)
Definition exit_status_word (code : Z) : Z := Z.shiftl (Z.land code 0xff) 8.

Definition WEXITSTATUS (s : Z) : Z := Z.shiftr (Z.land s 0xff00) 8.

(** How a call into spawn.c ends. *)
Inductive ending : Type :=
| Return (v : Z)      (* a [return v;] statement is executed *)
| ImageReplaced       (* [execve] succeeded: this code no longer exists *)
| FallsOffEnd.        (* control reaches the closing brace of the non-void
                         function and goes back to the caller without a
                         return value *)

(** ** spawn.c: inheritance flags *)

Definition _SIGMAX : Z := 64.
Definition NSIG : Z := _SIGMAX + 1.

Definition SPAWN_SETGROUP : Z := 0x00000001.
Definition SPAWN_SETSIGMASK : Z := 0x00000002.
Definition SPAWN_SETSIGDEF : Z := 0x00000004.
Definition SPAWN_SETSIGIGN : Z := 0x00000008.
Definition SPAWN_SETSID : Z := 0x00000200.
Definition SPAWN_SETSTACKMAX : Z := 0x00001000.
Definition SPAWN_NOZOMBIE : Z := 0x00002000.
Definition SPAWN_EXEC : Z := 0x00010000.

Record inheritance : Type := {
  flags : Z;              (* uint32_t *)
  pgroup : Z;             (* pid_t *)
  sigmask : sigset_t;
  sigdefault : sigset_t;
  sigignore : sigset_t;
  stack_max : Z;          (* uint32_t *)
  policy : Z;
  nd : Z;
  runmask : Z;
  param : list Z          (* char[48] *)
}.

(** [if (c) call;] *)
Definition c_if (c : Z) (calls : list host_call) : list host_call :=
  if c_true c then calls else [].

(** [for (int i = 1; i < NSIG; i++) if (sigismember(set, i)) signal(i, h);] *)
Definition signal_pass (set : sigset_t) (h : sighandler) : list host_call :=
  flat_map (fun i => c_if (sigismember set i) [Signal i h])
           (map Z.of_nat (seq 1 (Z.to_nat (NSIG - 1)))).

(** [for (int i = 0; i < fd_count; i++) if (fd_map[i] != i) { dup2; close }];
    [fd_map] is the array of [fd_count] entries, element [i] at index [i]. *)
Definition keep_fd (fd_map : list Z) : list host_call :=
  flat_map (fun '(i, fd) =>
              if fd =? Z.of_nat i then [] else [Dup2 fd (Z.of_nat i); Close fd])
           (imap pair fd_map).

(** The statements between [if (pid != 0) return pid;] and [execve]. *)
Definition child_setup (fd_map : list Z) (inherit : inheritance)
  : list host_call :=
  c_if (Z.land (flags inherit) SPAWN_SETGROUP) [Setpgid 0 (pgroup inherit)]
  ++ c_if (Z.land (flags inherit) SPAWN_SETSIGMASK)
          [Sigprocmask_SETMASK (sigmask inherit)]
  ++ c_if (Z.land (flags inherit) SPAWN_SETSID) [Setsid]
  ++ c_if (Z.land (flags inherit) SPAWN_SETSTACKMAX)
          [Setrlimit_STACK (RLIM (stack_max inherit)) RLIM_INFINITY]
  ++ c_if (Z.land (flags inherit) SPAWN_SETSIGDEF)
          (signal_pass (sigdefault inherit) SIG_DFL)
  ++ c_if (Z.land (flags inherit) SPAWN_SETSIGIGN)
          (signal_pass (sigignore inherit) SIG_IGN)
  ++ keep_fd fd_map.

(** [pid_t spawn(path, fd_count, fd_map, inherit, argv, envp)]: the calls
    issued in this process and how the function ends. *)
Definition spawn (h : host) (path : string) (fd_map : list Z)
    (inherit : inheritance) (argv : list string)
    (envp : option (list string)) : list host_call * ending :=
  let '(pid, forked) :=
    if c_true (Z.land (flags inherit) SPAWN_EXEC) then (0, [])
    else (fork_ret h, [Fork]) in
  if c_true pid then (forked, Return pid)
  else
    let calls := forked ++ child_setup fd_map inherit
                        ++ [Execve path argv envp] in
    if execve_ok h then (calls, ImageReplaced)
    else (* execve returned -1; nothing follows it in the function *)
      (calls, FallsOffEnd).

(** The calls of a trace that are inheritance steps 2-8 (everything
    spawn does after the duplication step). *)
Definition is_inheritance_step (c : host_call) : bool :=
  match c with
  | Fork | Waitpid _ _ => false
  | _ => true
  end.

(** ** The host's signal dispositions *)

Definition SIGKILL : Z := 9.
Definition SIGSTOP : Z := 19.

(** The signals whose disposition the host does not let a process change:
    [signal(sig, h)] returns SIG_ERR and changes nothing for SIGKILL and
    SIGSTOP (refused by the kernel), for 32, 33 and 34 (reserved by the
    C library for its threads) and for numbers outside [1, 64]. *)
Definition host_refuses (sig : Z) : bool :=
  (sig <? 1) || (64 <? sig) || (sig =? SIGKILL) || (sig =? SIGSTOP)
  || ((32 <=? sig) && (sig <=? 34)).

(** What a successful [execve] does to a disposition: a caught signal
    goes back to the default action, an ignored one stays ignored. *)
Definition exec_reset (h : sighandler) : sighandler :=
  match h with
  | SIG_FN _ => SIG_DFL
  | _ => h
  end.

(** Signal dispositions of the process after one call.  [signal(sig, h)]
    installs [h] for [sig] unless the host refuses it (spawn.c does not
    look at the result of [signal]); [execve], when it succeeds
    ([exec_ok]), resets the caught signals; the other calls leave the
    dispositions alone. *)
Definition apply_call (exec_ok : bool) (c : host_call)
    (d : gmap Z sighandler) : gmap Z sighandler :=
  match c with
  | Signal sig h => if host_refuses sig then d else <[sig := h]> d
  | Execve _ _ _ => if exec_ok then exec_reset <$> d else d
  | _ => d
  end.

Definition dispositions_after (exec_ok : bool) (calls : list host_call)
    (d : gmap Z sighandler) : gmap Z sighandler :=
  foldl (fun d c => apply_call exec_ok c d) d calls.

(** The disposition [o] of one signal once [execve] has been called. *)
Definition after_exec (exec_ok : bool) (o : option sighandler)
  : option sighandler :=
  if exec_ok then exec_reset <$> o else o.

(** ** spawn.c: the spawnve adapter *)

Definition P_WAIT : Z := 0.
Definition P_NOWAIT : Z := 1.
Definition P_OVERLAY : Z := 2.
Definition P_NOWAITO : Z := 3.

Definition set_flags (v : Z) (a : inheritance) : inheritance :=
  {| flags := v; pgroup := pgroup a; sigmask := sigmask a;
     sigdefault := sigdefault a; sigignore := sigignore a;
     stack_max := stack_max a; policy := policy a; nd := nd a;
     runmask := runmask a; param := param a |}.

(** The [switch (mode)]: the flags stored in [attr], or [None] for the
    [default:] branch ([errno = EINVAL; return -1]). *)
Definition mode_flags (mode : Z) : option Z :=
  if (mode =? P_WAIT) || (mode =? P_NOWAIT) then Some 0
  else if mode =? P_OVERLAY then Some SPAWN_EXEC
  else if mode =? P_NOWAITO then Some SPAWN_NOZOMBIE
  else None.

(** [int spawnve(mode, path, argv, envp)].  [attr] is the automatic
    variable as found on the stack: only its [flags] are assigned. *)
Definition spawnve (h : host) (attr : inheritance) (mode : Z)
    (path : string) (argv : list string) (envp : option (list string))
  : list host_call * ending :=
  match mode_flags mode with
  | None => ([], Return (-1))
  | Some fl =>
      let attr := set_flags fl attr in
      match spawn h path [] attr argv envp with
      | (calls, Return pid) =>
          if negb (pid =? -1) && (mode =? P_WAIT) then
            match wait_status h pid with
            | None => (calls ++ [Waitpid pid 0], Return (-1))
            | Some status => (calls ++ [Waitpid pid 0], Return status)
            end
          else (calls, Return pid)
      | (calls, e) => (calls, e)
      end
  end.

(** A call that changes a signal disposition. *)
Definition is_signal (c : host_call) : bool :=
  match c with Signal _ _ => true | _ => false end.

Definition is_execve (c : host_call) : bool :=
  match c with Execve _ _ _ => true | _ => false end.

(** A call that leaves the signal dispositions alone. *)
Definition keeps_dispositions (c : host_call) : bool :=
  negb (is_signal c) && negb (is_execve c).

(** ** Host structures (the host's own headers) *)

Module Host.

Record timespec : Type := { tv_sec : Z; tv_nsec : Z }.

(** [struct stat]; the integer types are the host's. *)
Record stat : Type := {
  st_dev : Z;       (* dev_t, unsigned 64 bit *)
  st_ino : Z;       (* ino_t, unsigned 64 bit *)
  st_nlink : Z;     (* nlink_t, unsigned *)
  st_mode : Z;      (* mode_t, unsigned 32 bit *)
  st_uid : Z;       (* uid_t, unsigned 32 bit *)
  st_gid : Z;       (* gid_t, unsigned 32 bit *)
  st_rdev : Z;      (* dev_t *)
  st_size : Z;      (* off_t, signed 64 bit *)
  st_blksize : Z;   (* blksize_t, signed *)
  st_blocks : Z;    (* blkcnt_t, signed 64 bit *)
  st_atim : timespec;
  st_mtim : timespec;
  st_ctim : timespec
}.

(** [struct sigaction]. *)
Record sigaction : Type := {
  sa_handler : Z;           (* the [__sa_handler] union, a function pointer *)
  sa_mask : sigset_t;
  sa_flags : Z;             (* int *)
  sa_restorer : Z
}.

(** [struct dirent] as a value. *)
Record dirent : Type := {
  d_ino : Z;                (* ino_t, unsigned 64 bit *)
  d_off : Z;                (* off_t, signed 64 bit *)
  d_reclen : Z;             (* unsigned short *)
  d_type : Z;               (* unsigned char *)
  d_name : list Z           (* the string held in [char d_name[256]] *)
}.

End Host.

Module HostTime.

(** [struct timeval]: [time_t tv_sec; suseconds_t tv_usec]. *)
Record timeval : Type := { tv_sec : Z; tv_usec : Z }.

End HostTime.

(** ** qtime.c *)

Record qnx_timeval : Type := {
  tv_sec : Z;     (* long *)
  tv_usec : Z     (* int *)
}.

Definition qnx_timeval_to_linux (t : qnx_timeval) : HostTime.timeval :=
  {| HostTime.tv_sec := tv_sec t; HostTime.tv_usec := to_i32 (tv_usec t) |}.

(** The host's [gettimeofday(&t, tz)]: stores the clock into [t] and
    returns 0. *)
Definition gettimeofday (clock t : HostTime.timeval) : Z * HostTime.timeval :=
  (0, clock).

(** [int _qnx_gettimeofday(struct qnx_timeval *when, void *not_used)]:
    the result and the contents of [*when] afterwards.  [t] is a local;
    no statement of the function assigns to [*when]. *)
Definition _qnx_gettimeofday (clock : HostTime.timeval) (when : qnx_timeval)
  : Z * qnx_timeval :=
  let t := qnx_timeval_to_linux when in
  let '(ret, t) := gettimeofday clock t in
  (ret, when).

(** Not a function of qtime.c: the host value written in the foreign
    layout ([long], [int]), which is what a time-get entry point is
    expected to leave in the caller's record. *)
Definition timeval_in_foreign_layout (t : HostTime.timeval) : qnx_timeval :=
  {| tv_sec := to_i64 (HostTime.tv_sec t);
     tv_usec := to_i32 (HostTime.tv_usec t) |}.

(** ** qstat.c *)

Record qnx_stat : Type := {
  st_ino : Z;             (* uint64_t *)
  st_size : Z;            (* uint64_t *)
  st_dev : Z;             (* uint32_t *)
  st_rdev : Z;            (* uint32_t *)
  st_uid : Z;             (* uint32_t *)
  st_gid : Z;             (* uint32_t *)
  __old_st_mtime : Z;     (* uint32_t *)
  __old_st_atime : Z;     (* uint32_t *)
  __old_st_ctime : Z;     (* uint32_t *)
  st_mode : Z;            (* uint32_t *)
  st_nlink : Z;           (* uint32_t *)
  st_blocksize : Z;       (* uint32_t *)
  st_nblocks : Z;         (* uint32_t *)
  st_blksize : Z;         (* uint32_t *)
  st_blocks : Z;          (* uint64_t *)
  st_mtim : Host.timespec;
  st_atim : Host.timespec;
  st_ctim : Host.timespec
}.

(** Assignment to one member, [qstat->field = v]. *)
Definition set_st_ino (v : Z) (q : qnx_stat) : qnx_stat :=
  {| st_ino := v; st_size := st_size q; st_dev := st_dev q; st_rdev := st_rdev
  q; st_uid := st_uid q; st_gid := st_gid q; __old_st_mtime := __old_st_mtime
  q; __old_st_atime := __old_st_atime q; __old_st_ctime := __old_st_ctime q;
  st_mode := st_mode q; st_nlink := st_nlink q; st_blocksize := st_blocksize
  q; st_nblocks := st_nblocks q; st_blksize := st_blksize q; st_blocks :=
  st_blocks q; st_mtim := st_mtim q; st_atim := st_atim q; st_ctim := st_ctim
  q |}.
Definition set_st_size (v : Z) (q : qnx_stat) : qnx_stat :=
  {| st_ino := st_ino q; st_size := v; st_dev := st_dev q; st_rdev := st_rdev
  q; st_uid := st_uid q; st_gid := st_gid q; __old_st_mtime := __old_st_mtime
  q; __old_st_atime := __old_st_atime q; __old_st_ctime := __old_st_ctime q;
  st_mode := st_mode q; st_nlink := st_nlink q; st_blocksize := st_blocksize
  q; st_nblocks := st_nblocks q; st_blksize := st_blksize q; st_blocks :=
  st_blocks q; st_mtim := st_mtim q; st_atim := st_atim q; st_ctim := st_ctim
  q |}.
Definition set_st_dev (v : Z) (q : qnx_stat) : qnx_stat :=
  {| st_ino := st_ino q; st_size := st_size q; st_dev := v; st_rdev := st_rdev
  q; st_uid := st_uid q; st_gid := st_gid q; __old_st_mtime := __old_st_mtime
  q; __old_st_atime := __old_st_atime q; __old_st_ctime := __old_st_ctime q;
  st_mode := st_mode q; st_nlink := st_nlink q; st_blocksize := st_blocksize
  q; st_nblocks := st_nblocks q; st_blksize := st_blksize q; st_blocks :=
  st_blocks q; st_mtim := st_mtim q; st_atim := st_atim q; st_ctim := st_ctim
  q |}.
Definition set_st_rdev (v : Z) (q : qnx_stat) : qnx_stat :=
  {| st_ino := st_ino q; st_size := st_size q; st_dev := st_dev q; st_rdev :=
  v; st_uid := st_uid q; st_gid := st_gid q; __old_st_mtime := __old_st_mtime
  q; __old_st_atime := __old_st_atime q; __old_st_ctime := __old_st_ctime q;
  st_mode := st_mode q; st_nlink := st_nlink q; st_blocksize := st_blocksize
  q; st_nblocks := st_nblocks q; st_blksize := st_blksize q; st_blocks :=
  st_blocks q; st_mtim := st_mtim q; st_atim := st_atim q; st_ctim := st_ctim
  q |}.
Definition set_st_uid (v : Z) (q : qnx_stat) : qnx_stat :=
  {| st_ino := st_ino q; st_size := st_size q; st_dev := st_dev q; st_rdev :=
  st_rdev q; st_uid := v; st_gid := st_gid q; __old_st_mtime := __old_st_mtime
  q; __old_st_atime := __old_st_atime q; __old_st_ctime := __old_st_ctime q;
  st_mode := st_mode q; st_nlink := st_nlink q; st_blocksize := st_blocksize
  q; st_nblocks := st_nblocks q; st_blksize := st_blksize q; st_blocks :=
  st_blocks q; st_mtim := st_mtim q; st_atim := st_atim q; st_ctim := st_ctim
  q |}.
Definition set_st_gid (v : Z) (q : qnx_stat) : qnx_stat :=
  {| st_ino := st_ino q; st_size := st_size q; st_dev := st_dev q; st_rdev :=
  st_rdev q; st_uid := st_uid q; st_gid := v; __old_st_mtime := __old_st_mtime
  q; __old_st_atime := __old_st_atime q; __old_st_ctime := __old_st_ctime q;
  st_mode := st_mode q; st_nlink := st_nlink q; st_blocksize := st_blocksize
  q; st_nblocks := st_nblocks q; st_blksize := st_blksize q; st_blocks :=
  st_blocks q; st_mtim := st_mtim q; st_atim := st_atim q; st_ctim := st_ctim
  q |}.
Definition set___old_st_mtime (v : Z) (q : qnx_stat) : qnx_stat :=
  {| st_ino := st_ino q; st_size := st_size q; st_dev := st_dev q; st_rdev :=
  st_rdev q; st_uid := st_uid q; st_gid := st_gid q; __old_st_mtime := v;
  __old_st_atime := __old_st_atime q; __old_st_ctime := __old_st_ctime q;
  st_mode := st_mode q; st_nlink := st_nlink q; st_blocksize := st_blocksize
  q; st_nblocks := st_nblocks q; st_blksize := st_blksize q; st_blocks :=
  st_blocks q; st_mtim := st_mtim q; st_atim := st_atim q; st_ctim := st_ctim
  q |}.
Definition set___old_st_atime (v : Z) (q : qnx_stat) : qnx_stat :=
  {| st_ino := st_ino q; st_size := st_size q; st_dev := st_dev q; st_rdev :=
  st_rdev q; st_uid := st_uid q; st_gid := st_gid q; __old_st_mtime :=
  __old_st_mtime q; __old_st_atime := v; __old_st_ctime := __old_st_ctime q;
  st_mode := st_mode q; st_nlink := st_nlink q; st_blocksize := st_blocksize
  q; st_nblocks := st_nblocks q; st_blksize := st_blksize q; st_blocks :=
  st_blocks q; st_mtim := st_mtim q; st_atim := st_atim q; st_ctim := st_ctim
  q |}.
Definition set___old_st_ctime (v : Z) (q : qnx_stat) : qnx_stat :=
  {| st_ino := st_ino q; st_size := st_size q; st_dev := st_dev q; st_rdev :=
  st_rdev q; st_uid := st_uid q; st_gid := st_gid q; __old_st_mtime :=
  __old_st_mtime q; __old_st_atime := __old_st_atime q; __old_st_ctime := v;
  st_mode := st_mode q; st_nlink := st_nlink q; st_blocksize := st_blocksize
  q; st_nblocks := st_nblocks q; st_blksize := st_blksize q; st_blocks :=
  st_blocks q; st_mtim := st_mtim q; st_atim := st_atim q; st_ctim := st_ctim
  q |}.
Definition set_st_mode (v : Z) (q : qnx_stat) : qnx_stat :=
  {| st_ino := st_ino q; st_size := st_size q; st_dev := st_dev q; st_rdev :=
  st_rdev q; st_uid := st_uid q; st_gid := st_gid q; __old_st_mtime :=
  __old_st_mtime q; __old_st_atime := __old_st_atime q; __old_st_ctime :=
  __old_st_ctime q; st_mode := v; st_nlink := st_nlink q; st_blocksize :=
  st_blocksize q; st_nblocks := st_nblocks q; st_blksize := st_blksize q;
  st_blocks := st_blocks q; st_mtim := st_mtim q; st_atim := st_atim q;
  st_ctim := st_ctim q |}.
Definition set_st_nlink (v : Z) (q : qnx_stat) : qnx_stat :=
  {| st_ino := st_ino q; st_size := st_size q; st_dev := st_dev q; st_rdev :=
  st_rdev q; st_uid := st_uid q; st_gid := st_gid q; __old_st_mtime :=
  __old_st_mtime q; __old_st_atime := __old_st_atime q; __old_st_ctime :=
  __old_st_ctime q; st_mode := st_mode q; st_nlink := v; st_blocksize :=
  st_blocksize q; st_nblocks := st_nblocks q; st_blksize := st_blksize q;
  st_blocks := st_blocks q; st_mtim := st_mtim q; st_atim := st_atim q;
  st_ctim := st_ctim q |}.
Definition set_st_blocksize (v : Z) (q : qnx_stat) : qnx_stat :=
  {| st_ino := st_ino q; st_size := st_size q; st_dev := st_dev q; st_rdev :=
  st_rdev q; st_uid := st_uid q; st_gid := st_gid q; __old_st_mtime :=
  __old_st_mtime q; __old_st_atime := __old_st_atime q; __old_st_ctime :=
  __old_st_ctime q; st_mode := st_mode q; st_nlink := st_nlink q; st_blocksize
  := v; st_nblocks := st_nblocks q; st_blksize := st_blksize q; st_blocks :=
  st_blocks q; st_mtim := st_mtim q; st_atim := st_atim q; st_ctim := st_ctim
  q |}.
Definition set_st_nblocks (v : Z) (q : qnx_stat) : qnx_stat :=
  {| st_ino := st_ino q; st_size := st_size q; st_dev := st_dev q; st_rdev :=
  st_rdev q; st_uid := st_uid q; st_gid := st_gid q; __old_st_mtime :=
  __old_st_mtime q; __old_st_atime := __old_st_atime q; __old_st_ctime :=
  __old_st_ctime q; st_mode := st_mode q; st_nlink := st_nlink q; st_blocksize
  := st_blocksize q; st_nblocks := v; st_blksize := st_blksize q; st_blocks :=
  st_blocks q; st_mtim := st_mtim q; st_atim := st_atim q; st_ctim := st_ctim
  q |}.
Definition set_st_blksize (v : Z) (q : qnx_stat) : qnx_stat :=
  {| st_ino := st_ino q; st_size := st_size q; st_dev := st_dev q; st_rdev :=
  st_rdev q; st_uid := st_uid q; st_gid := st_gid q; __old_st_mtime :=
  __old_st_mtime q; __old_st_atime := __old_st_atime q; __old_st_ctime :=
  __old_st_ctime q; st_mode := st_mode q; st_nlink := st_nlink q; st_blocksize
  := st_blocksize q; st_nblocks := st_nblocks q; st_blksize := v; st_blocks :=
  st_blocks q; st_mtim := st_mtim q; st_atim := st_atim q; st_ctim := st_ctim
  q |}.
Definition set_st_blocks (v : Z) (q : qnx_stat) : qnx_stat :=
  {| st_ino := st_ino q; st_size := st_size q; st_dev := st_dev q; st_rdev :=
  st_rdev q; st_uid := st_uid q; st_gid := st_gid q; __old_st_mtime :=
  __old_st_mtime q; __old_st_atime := __old_st_atime q; __old_st_ctime :=
  __old_st_ctime q; st_mode := st_mode q; st_nlink := st_nlink q; st_blocksize
  := st_blocksize q; st_nblocks := st_nblocks q; st_blksize := st_blksize q;
  st_blocks := v; st_mtim := st_mtim q; st_atim := st_atim q; st_ctim :=
  st_ctim q |}.
Definition set_st_mtim (v : Host.timespec) (q : qnx_stat) : qnx_stat :=
  {| st_ino := st_ino q; st_size := st_size q; st_dev := st_dev q; st_rdev :=
  st_rdev q; st_uid := st_uid q; st_gid := st_gid q; __old_st_mtime :=
  __old_st_mtime q; __old_st_atime := __old_st_atime q; __old_st_ctime :=
  __old_st_ctime q; st_mode := st_mode q; st_nlink := st_nlink q; st_blocksize
  := st_blocksize q; st_nblocks := st_nblocks q; st_blksize := st_blksize q;
  st_blocks := st_blocks q; st_mtim := v; st_atim := st_atim q; st_ctim :=
  st_ctim q |}.
Definition set_st_atim (v : Host.timespec) (q : qnx_stat) : qnx_stat :=
  {| st_ino := st_ino q; st_size := st_size q; st_dev := st_dev q; st_rdev :=
  st_rdev q; st_uid := st_uid q; st_gid := st_gid q; __old_st_mtime :=
  __old_st_mtime q; __old_st_atime := __old_st_atime q; __old_st_ctime :=
  __old_st_ctime q; st_mode := st_mode q; st_nlink := st_nlink q; st_blocksize
  := st_blocksize q; st_nblocks := st_nblocks q; st_blksize := st_blksize q;
  st_blocks := st_blocks q; st_mtim := st_mtim q; st_atim := v; st_ctim :=
  st_ctim q |}.
Definition set_st_ctim (v : Host.timespec) (q : qnx_stat) : qnx_stat :=
  {| st_ino := st_ino q; st_size := st_size q; st_dev := st_dev q; st_rdev :=
  st_rdev q; st_uid := st_uid q; st_gid := st_gid q; __old_st_mtime :=
  __old_st_mtime q; __old_st_atime := __old_st_atime q; __old_st_ctime :=
  __old_st_ctime q; st_mode := st_mode q; st_nlink := st_nlink q; st_blocksize
  := st_blocksize q; st_nblocks := st_nblocks q; st_blksize := st_blksize q;
  st_blocks := st_blocks q; st_mtim := st_mtim q; st_atim := st_atim q;
  st_ctim := v |}.

(** [static void linux_stat_to_qnx(struct stat *lstat, struct qnx_stat *qstat)]:
    the contents of [*qstat] afterwards.  Each assignment converts to the
    type of the member on the left. *)
Definition linux_stat_to_qnx (lstat : Host.stat) (qstat : qnx_stat)
  : qnx_stat :=
  let qstat := set_st_ino (to_u64 (Host.st_ino lstat)) qstat in
  let qstat := set_st_size (to_u64 (Host.st_size lstat)) qstat in
  let qstat := set_st_dev (to_u32 (Host.st_dev lstat)) qstat in
  let qstat := set_st_rdev (to_u32 (Host.st_rdev lstat)) qstat in
  let qstat := set_st_uid (to_u32 (Host.st_uid lstat)) qstat in
  let qstat := set_st_gid (to_u32 (Host.st_gid lstat)) qstat in
  let qstat :=
    set___old_st_atime (to_u32 (Host.tv_sec (Host.st_atim lstat))) qstat in
  let qstat :=
    set___old_st_mtime (to_u32 (Host.tv_sec (Host.st_mtim lstat))) qstat in
  let qstat :=
    set___old_st_ctime (to_u32 (Host.tv_sec (Host.st_ctim lstat))) qstat in
  let qstat := set_st_mode (to_u32 (Host.st_mode lstat)) qstat in
  let qstat := set_st_nlink (to_u32 (Host.st_nlink lstat)) qstat in
  let qstat := set_st_blocksize (to_u32 (Host.st_blksize lstat)) qstat in
  let qstat := set_st_nblocks (to_u32 (Host.st_blocks lstat)) qstat in
  let qstat := set_st_blksize (to_u32 (Host.st_blksize lstat)) qstat in
  let qstat := set_st_blocks (to_u64 (Host.st_blocks lstat)) qstat in
  let qstat := set_st_mtim (Host.st_mtim lstat) qstat in
  let qstat := set_st_atim (Host.st_atim lstat) qstat in
  let qstat := set_st_ctim (Host.st_ctim lstat) qstat in
  qstat.

(** The four entry points.  The host call is an argument: it maps the
    call's own arguments to the value it returns and the [struct stat] it
    stores into [local].  [buf] is the caller's pointer: [None] when null,
    else the record it points to.  Result: the return value and the
    caller's record afterwards. *)
Section StatEntryPoints.

Variable host_stat host_lstat : string -> Z * Host.stat.
Variable host_fstat : Z -> Z * Host.stat.
Variable host_fstatat : Z -> string -> Z -> Z * Host.stat.

(** [!ret && buf] *)
Definition ok_and_nonnull {A} (ret : Z) (buf : option A) : bool :=
  negb (c_true ret) && bool_decide (is_Some buf).

Definition _qnx_stat (path : string) (buf : option qnx_stat)
  : Z * option qnx_stat :=
  let '(ret, local) := host_stat path in
  if ok_and_nonnull ret buf then (ret, linux_stat_to_qnx local <$> buf)
  else (ret, buf).

Definition _qnx_lstat (path : string) (buf : option qnx_stat)
  : Z * option qnx_stat :=
  let '(ret, local) := host_lstat path in
  if ok_and_nonnull ret buf then (ret, linux_stat_to_qnx local <$> buf)
  else (ret, buf).

Definition _qnx_fstat (fd : Z) (buf : option qnx_stat)
  : Z * option qnx_stat :=
  let '(ret, local) := host_fstat fd in
  if ok_and_nonnull ret buf then (ret, linux_stat_to_qnx local <$> buf)
  else (ret, buf).

Definition _qnx_fstatat (fd : Z) (path : string) (buf : option qnx_stat)
    (flags : Z) : Z * option qnx_stat :=
  let '(ret, local) := host_fstatat fd path flags in
  if ok_and_nonnull ret buf then (ret, linux_stat_to_qnx local <$> buf)
  else (ret, buf).

End StatEntryPoints.

(** Values that inhabit the host's types (a size is never negative). *)
Definition host_stat_wf (l : Host.stat) : Prop :=
  0 <= Host.st_dev l < 2 ^ 64 /\ 0 <= Host.st_ino l < 2 ^ 64
  /\ 0 <= Host.st_nlink l < 2 ^ 64 /\ 0 <= Host.st_mode l < 2 ^ 32
  /\ 0 <= Host.st_uid l < 2 ^ 32 /\ 0 <= Host.st_gid l < 2 ^ 32
  /\ 0 <= Host.st_rdev l < 2 ^ 64
  /\ 0 <= Host.st_size l < 2 ^ 63
  /\ - 2 ^ 63 <= Host.st_blksize l < 2 ^ 63
  /\ - 2 ^ 63 <= Host.st_blocks l < 2 ^ 63.

(** The property as the interface description words it: identity, size,
    ownership, link count and timestamps equal to the host's, and the
    foreign-only fields (those with no host member of that name that
    carry no timestamp) zero. *)
Definition preserved_and_zeroed (l : Host.stat) (q : qnx_stat) : Prop :=
  st_ino q = Host.st_ino l /\ st_dev q = Host.st_dev l
  /\ st_size q = Host.st_size l
  /\ st_uid q = Host.st_uid l /\ st_gid q = Host.st_gid l
  /\ st_nlink q = Host.st_nlink l
  /\ st_mtim q = Host.st_mtim l /\ st_atim q = Host.st_atim l
  /\ st_ctim q = Host.st_ctim l
  /\ __old_st_mtime q = Host.tv_sec (Host.st_mtim l)
  /\ __old_st_atime q = Host.tv_sec (Host.st_atim l)
  /\ __old_st_ctime q = Host.tv_sec (Host.st_ctim l)
  /\ st_blocksize q = 0 /\ st_nblocks q = 0.

(** What each entry point does with the host's answer [(ret, local)]. *)
Definition guarded (answer : Z * Host.stat) (buf : option qnx_stat)
    (r : Z * option qnx_stat) : Prop :=
  fst r = fst answer
  /\ (fst answer <> 0 \/ buf = None -> snd r = buf)
  /\ (forall q, fst answer = 0 -> buf = Some q ->
        snd r = Some (linux_stat_to_qnx (snd answer) q)).

(** ** signal.c *)

(** [typedef struct { uint32_t __bits[2]; } qnx_sigset_t]: the two words,
    element 0 first. *)
Record qnx_sigset_t : Type := { __bits : Z * Z }.

Record qnx_sigaction : Type := {
  sa_handler : Z;           (* the [__sa_un] union, a function pointer *)
  sa_flags : Z;             (* int *)
  sa_mask : qnx_sigset_t
}.

(** The 64-bit access to the foreign set through a [uint64_t] pointer
    (little-endian host): the two 32-bit words read as one 64-bit word,
    and the store the other way. *)
Definition qnx_mask_load64 (m : qnx_sigset_t) : Z :=
  fst (__bits m) + 2 ^ 32 * snd (__bits m).

Definition qnx_mask_store64 (v : Z) (m : qnx_sigset_t) : qnx_sigset_t :=
  {| __bits := (to_u32 v, to_u32 (v / 2 ^ 32)) |}.

(** The same access to the host set: its first word. *)
Definition host_mask_load64 (m : sigset_t) : Z := default 0 (m !! 0%nat).

Definition host_mask_store64 (v : Z) (m : sigset_t) : sigset_t :=
  <[0%nat := to_u64 v]> m.

(** [void qnx_sigaction_to_linux(qnx_sa, linux_sa)]: [*linux_sa] afterwards. *)
Definition qnx_sigaction_to_linux (qnx_sa : qnx_sigaction)
    (linux_sa : Host.sigaction) : Host.sigaction :=
  {| Host.sa_handler := sa_handler qnx_sa;
     Host.sa_flags := to_i32 (sa_flags qnx_sa);
     Host.sa_mask :=
       host_mask_store64 (qnx_mask_load64 (sa_mask qnx_sa))
                         (Host.sa_mask linux_sa);
     Host.sa_restorer := Host.sa_restorer linux_sa |}.

(** [void linux_sigaction_to_qnx(linux_sa, qnx_sa)]: [*qnx_sa] afterwards. *)
Definition linux_sigaction_to_qnx (linux_sa : Host.sigaction)
    (qnx_sa : qnx_sigaction) : qnx_sigaction :=
  {| sa_handler := Host.sa_handler linux_sa;
     sa_flags := to_i32 (Host.sa_flags linux_sa);
     sa_mask :=
       qnx_mask_store64 (host_mask_load64 (Host.sa_mask linux_sa))
                        (sa_mask qnx_sa) |}.

(** Values that inhabit the C types. *)
Definition qnx_sigaction_wf (a : qnx_sigaction) : Prop :=
  - 2 ^ 31 <= sa_flags a < 2 ^ 31
  /\ 0 <= fst (__bits (sa_mask a)) < 2 ^ 32
  /\ 0 <= snd (__bits (sa_mask a)) < 2 ^ 32.

(** ** qdir.c *)

(** Memory is a list of bytes, each in [0, 255]; a pointer into it is an
    index.  Multi-byte integers are little-endian. *)
Fixpoint le_encode (n : nat) (v : Z) : list Z :=
  match n with
  | O => []
  | S n' => v mod 256 :: le_encode n' (v / 256)
  end.

Definition le_decode (bs : list Z) : Z :=
  foldr (fun b acc => b + 256 * acc) 0 bs.

Definition load_le (n off : nat) (m : list Z) : Z :=
  le_decode (take n (drop off m)).

Definition store_le (n off : nat) (v : Z) (m : list Z) : list Z :=
  list_inserts off (le_encode n v) m.

(** The C string that starts at the head of [bs]. *)
Fixpoint c_string (bs : list Z) : list Z :=
  match bs with
  | [] => []
  | b :: bs' => if b =? 0 then [] else b :: c_string bs'
  end.

Definition strlen (bs : list Z) : Z := Z.of_nat (length (c_string bs)).

(** [strcpy(m + off, src)]: the string and its terminator. *)
Definition strcpy (off : nat) (src : list Z) (m : list Z) : list Z :=
  list_inserts off (c_string src ++ [0]) m.

(** Layout of the host's [struct dirent]:
    [ino_t d_ino; off_t d_off; unsigned short d_reclen;
     unsigned char d_type; char d_name[256]]. *)
Definition sizeof_dirent : nat := 280.
Definition off_d_ino : nat := 0.
Definition off_d_off : nat := 8.
Definition off_d_reclen : nat := 16.
Definition off_d_type : nat := 18.
Definition off_d_name : nat := 19.

(** [struct qnx_dirent]:
    [uint64_t d_ino; uint64_t d_offset; int16_t d_reclen;
     int16_t d_namelen; char d_name[1]]. *)
Record qnx_dirent : Type := {
  d_ino : Z;
  d_offset : Z;
  d_reclen : Z;
  d_namelen : Z;
  d_name : list Z
}.

Definition qnx_off_d_ino : nat := 0.
Definition qnx_off_d_offset : nat := 8.
Definition qnx_off_d_reclen : nat := 16.
Definition qnx_off_d_namelen : nat := 18.
Definition qnx_off_d_name : nat := 20.

(** The host record held in the bytes at a [struct dirent *]. *)
Definition dirent_at (m : list Z) : Host.dirent :=
  {| Host.d_ino := load_le 8 off_d_ino m;
     Host.d_off := to_i64 (load_le 8 off_d_off m);
     Host.d_reclen := load_le 2 off_d_reclen m;
     Host.d_type := load_le 1 off_d_type m;
     Host.d_name := c_string (drop off_d_name m) |}.

(** The foreign record held in the bytes at a [struct qnx_dirent *]. *)
Definition qnx_dirent_at (m : list Z) : qnx_dirent :=
  {| d_ino := load_le 8 qnx_off_d_ino m;
     d_offset := load_le 8 qnx_off_d_offset m;
     d_reclen := to_i16 (load_le 2 qnx_off_d_reclen m);
     d_namelen := to_i16 (load_le 2 qnx_off_d_namelen m);
     d_name := c_string (drop qnx_off_d_name m) |}.

(** [struct qnx_dirent *_qnx_readdir(DIR *dir)].  [raw] is what the
    host's [readdir(dir)] returned: [None] for a null pointer, else the
    bytes it points to.  Result: [None] for [NULL], else the same bytes
    after the function has run ([new] aliases [raw]). *)
Definition _qnx_readdir (raw : option (list Z)) : option (list Z) :=
  match raw with
  | None => None
  | Some raw =>
      (* memcpy(&local, raw, sizeof(struct dirent)) *)
      let local := take sizeof_dirent raw in
      let new := raw in
      let new := store_le 8 qnx_off_d_ino
                   (to_u64 (Host.d_ino (dirent_at local))) new in
      let new := store_le 8 qnx_off_d_offset
                   (to_u64 (Host.d_off (dirent_at local))) new in
      let new := store_le 2 qnx_off_d_reclen
                   (to_i16 (Host.d_reclen (dirent_at local))) new in
      let new := store_le 2 qnx_off_d_namelen
                   (to_i16 (strlen (drop off_d_name local))) new in
      let new := strcpy qnx_off_d_name (drop off_d_name local) new in
      Some new
  end.

(** The two-step form of the transcoding: the foreign layout written
    over [m] from an already decoded host record [h]. *)
Definition write_qnx_dirent (h : Host.dirent) (m : list Z) : list Z :=
  let m := store_le 8 qnx_off_d_ino (to_u64 (Host.d_ino h)) m in
  let m := store_le 8 qnx_off_d_offset (to_u64 (Host.d_off h)) m in
  let m := store_le 2 qnx_off_d_reclen (to_i16 (Host.d_reclen h)) m in
  let m := store_le 2 qnx_off_d_namelen
             (to_i16 (Z.of_nat (length (Host.d_name h)))) m in
  list_inserts qnx_off_d_name (Host.d_name h ++ [0]) m.

(** The same statements without the local copy: every host field is
    read from the shared bytes at the moment it is needed. *)
Definition readdir_without_copy (raw : list Z) : list Z :=
  let new := raw in
  let new := store_le 8 qnx_off_d_ino
               (to_u64 (Host.d_ino (dirent_at new))) new in
  let new := store_le 8 qnx_off_d_offset
               (to_u64 (Host.d_off (dirent_at new))) new in
  let new := store_le 2 qnx_off_d_reclen
               (to_i16 (Host.d_reclen (dirent_at new))) new in
  let new := store_le 2 qnx_off_d_namelen
               (to_i16 (strlen (drop off_d_name new))) new in
  let new := strcpy qnx_off_d_name (drop off_d_name new) new in
  new.

(** A host record as [readdir] hands it out: [sizeof(struct dirent)]
    readable bytes whose name is terminated inside [d_name]. *)
Definition dirent_wf (m : list Z) : Prop :=
  (sizeof_dirent <= length m)%nat /\
  Forall (fun b => 0 <= b < 256) m /\
  (length (c_string (drop off_d_name m)) < 256)%nat.

(** ** Inputs used in examples *)

(** Both signal passes requested; signal 2 is in both sets. *)
Definition inherit_sigdef_sigign : inheritance :=
  {| flags := 12; pgroup := 0; sigmask := [0];
     sigdefault := [2]; sigignore := [2 + 16384];
     stack_max := 0; policy := 0; nd := 0; runmask := 0; param := [] |}.

(** Both signal passes requested; SIGKILL (9, bit 8) is in both sets. *)
Definition inherit_sigkill : inheritance :=
  {| flags := 12; pgroup := 0; sigmask := [0];
     sigdefault := [256]; sigignore := [256];
     stack_max := 0; policy := 0; nd := 0; runmask := 0; param := [] |}.

(** In the child, with an image that can be executed. *)
Definition child_host : host :=
  {| fork_ret := 0; execve_ok := true; wait_status := fun _ => None |}.

Definition inherit_plain : inheritance :=
  {| flags := 0; pgroup := 0; sigmask := [0]; sigdefault := [0];
     sigignore := [0]; stack_max := 0; policy := 0; nd := 0; runmask := 0;
     param := [] |}.

(** In the child, with an image that cannot be executed. *)
Definition child_host_exec_fails : host :=
  {| fork_ret := 0; execve_ok := false; wait_status := fun _ => None |}.

(** In the caller, when the host cannot duplicate the process. *)
Definition host_fork_fails : host :=
  {| fork_ret := -1; execve_ok := true; wait_status := fun _ => None |}.

(** In the caller, with child 4711 exiting with code 3 (status 0x0300). *)
Definition parent_host : host :=
  {| fork_ret := 4711; execve_ok := true;
     wait_status := fun pid => if pid =? 4711 then Some 768 else None |}.

(** The host clock, and a caller's record before the time-get call. *)
Definition clock_example : HostTime.timeval :=
  {| HostTime.tv_sec := 1700000000; HostTime.tv_usec := 123456 |}.

Definition when_example : qnx_timeval := {| tv_sec := 0; tv_usec := 0 |}.

(** A five-byte regular file on device 8:1, mode 0100644. *)
Definition stat_example : Host.stat :=
  {| Host.st_dev := 2049; Host.st_ino := 1234; Host.st_nlink := 1;
     Host.st_mode := 33188; Host.st_uid := 1000; Host.st_gid := 1000;
     Host.st_rdev := 0; Host.st_size := 5; Host.st_blksize := 4096;
     Host.st_blocks := 8;
     Host.st_atim := {| Host.tv_sec := 1700000000; Host.tv_nsec := 1 |};
     Host.st_mtim := {| Host.tv_sec := 1700000000; Host.tv_nsec := 2 |};
     Host.st_ctim := {| Host.tv_sec := 1700000000; Host.tv_nsec := 3 |} |}.

(** A record that uses the width of the host's types: a device number
    and a link count above 32 bits, and a modification time one second
    before 1970. *)
Definition stat_wide : Host.stat :=
  {| Host.st_dev := 2 ^ 32 + 2049; Host.st_ino := 1234;
     Host.st_nlink := 2 ^ 32 + 1;
     Host.st_mode := 33188; Host.st_uid := 1000; Host.st_gid := 1000;
     Host.st_rdev := 0; Host.st_size := 5; Host.st_blksize := 4096;
     Host.st_blocks := 8;
     Host.st_atim := {| Host.tv_sec := 1700000000; Host.tv_nsec := 1 |};
     Host.st_mtim := {| Host.tv_sec := -1; Host.tv_nsec := 2 |};
     Host.st_ctim := {| Host.tv_sec := 1700000000; Host.tv_nsec := 3 |} |}.

(** A caller's buffer with arbitrary previous contents. *)
Definition qstat_junk : qnx_stat :=
  {| st_ino := 7; st_size := 7; st_dev := 7; st_rdev := 7; st_uid := 7;
     st_gid := 7; __old_st_mtime := 7; __old_st_atime := 7;
     __old_st_ctime := 7; st_mode := 7; st_nlink := 7; st_blocksize := 7;
     st_nblocks := 7; st_blksize := 7; st_blocks := 7;
     st_mtim := {| Host.tv_sec := 7; Host.tv_nsec := 7 |};
     st_atim := {| Host.tv_sec := 7; Host.tv_nsec := 7 |};
     st_ctim := {| Host.tv_sec := 7; Host.tv_nsec := 7 |} |}.

(** Host calls that fail (-1, nothing stored) and that succeed. *)
Definition failing_stat : string -> Z * Host.stat :=
  fun _ => (-1, stat_example).
Definition working_stat : string -> Z * Host.stat :=
  fun _ => (0, stat_example).
Definition failing_fstat : Z -> Z * Host.stat :=
  fun _ => (-1, stat_example).
Definition failing_fstatat : Z -> string -> Z -> Z * Host.stat :=
  fun _ _ _ => (-1, stat_example).

(** A foreign signal action and a host record with previous contents. *)
Definition qnx_sa_example : qnx_sigaction :=
  {| sa_handler := 4198400; sa_flags := 4;
     sa_mask := {| __bits := (0x80000002, 0x00010001) |} |}.

Definition host_sa_junk : Host.sigaction :=
  {| Host.sa_handler := 1; Host.sa_mask := [5; 6; 7]; Host.sa_flags := 9;
     Host.sa_restorer := 11 |}.

Definition qnx_sa_junk : qnx_sigaction :=
  {| sa_handler := 3; sa_flags := 3; sa_mask := {| __bits := (3, 3) |} |}.

(** The bytes of a host directory entry: inode 1234, offset 77, record
    length 24, type 8 (regular file), name "ab", then zero padding up to
    [sizeof(struct dirent)]. *)
Definition dirent_example : list Z :=
  le_encode 8 1234 ++ le_encode 8 77 ++ le_encode 2 24 ++ [8]
  ++ [97; 98] ++ replicate 259 0.

(** Two host directory entries as the kernel packs them in the buffer
    that the host's [readdir] walks: "abcd" (inode 1234) with record
    length 24 = 19 + 4 + 1, and right behind it, at offset 24, "efgh"
    (inode 6103062, record length 24); then the rest of the buffer.
    [readdir] returns a pointer to the first record, and on the next call
    a pointer 24 bytes further on. *)
Definition dirents_packed : list Z :=
  le_encode 8 1234 ++ le_encode 8 1 ++ le_encode 2 24 ++ [8]
  ++ [97; 98; 99; 100; 0]
  ++ le_encode 8 6103062 ++ le_encode 8 2 ++ le_encode 2 24 ++ [8]
  ++ [101; 102; 103; 104; 0]
  ++ replicate 280 0.

(** ** spawn.c: further definitions *)

(** [int spawnv(mode, path, argv)]: [spawnve] with a null environment. *)
Definition spawnv (h : host) (attr : inheritance) (mode : Z) (path : string)
    (argv : list string) : list host_call * ending :=
  spawnve h attr mode path argv None.

(** The flag bits that [spawn] tests. *)
Definition spawn_tested_flags : Z :=
  Z.lor SPAWN_SETGROUP (Z.lor SPAWN_SETSIGMASK (Z.lor SPAWN_SETSIGDEF
    (Z.lor SPAWN_SETSIGIGN (Z.lor SPAWN_SETSID
      (Z.lor SPAWN_SETSTACKMAX SPAWN_EXEC))))).

(** Position of a host call in the order of the statements of [spawn]. *)
Definition step_rank (c : host_call) : nat :=
  match c with
  | Fork => 0
  | Setpgid _ _ => 1
  | Sigprocmask_SETMASK _ => 2
  | Setsid => 3
  | Setrlimit_STACK _ _ => 4
  | Signal _ SIG_DFL => 5
  | Signal _ _ => 6
  | Dup2 _ _ | Close _ => 7
  | Execve _ _ _ => 8
  | Waitpid _ _ => 9
  end.

Definition in_step_order (calls : list host_call) : Prop :=
  StronglySorted (fun a b => (step_rank a <= step_rank b)%nat) calls.

(** In step order, with every rank between [lo] and [hi]. *)
Definition banded (lo hi : nat) (l : list host_call) : Prop :=
  in_step_order l /\ Forall (fun c => (lo <= step_rank c <= hi)%nat) l.

(** The host's descriptor table (descriptor number to open file), and
    what [dup2] and [close] do to it: [dup2(old, new)] makes [new] refer
    to the file of [old] when [old] is open and fails otherwise, leaving
    [new] alone; [close(fd)] removes [fd]. *)
Definition fd_apply (c : host_call) (t : gmap Z Z) : gmap Z Z :=
  match c with
  | Dup2 oldfd newfd =>
      match t !! oldfd with
      | Some file => <[newfd := file]> t
      | None => t
      end
  | Close fd => delete fd t
  | _ => t
  end.

Definition fds_after (calls : list host_call) (t : gmap Z Z) : gmap Z Z :=
  foldl (fun t c => fd_apply c t) t calls.

(** The loop of [keep_fd] entered at index [s] with the entries [l] that
    remain. *)
Definition keep_fd_from (s : nat) (l : list Z) : list host_call :=
  flat_map (fun '(i, fd) =>
              if fd =? Z.of_nat i then [] else [Dup2 fd (Z.of_nat i); Close fd])
           (imap (fun j => pair (s + j)%nat) l).

(** A call that changes the descriptor table. *)
Definition is_fd_call (c : host_call) : bool :=
  match c with Dup2 _ _ | Close _ => true | _ => false end.

(** A descriptor map that [keep_fd] can apply entry by entry: an entry
    either keeps its descriptor or takes a descriptor above the table,
    no descriptor is taken twice, and the descriptors taken are open. *)
Definition fd_map_wf (fd_map : list Z) (t : gmap Z Z) : Prop :=
  NoDup fd_map
  /\ (forall (i : nat) fd, fd_map !! i = Some fd ->
        fd = Z.of_nat i \/ Z.of_nat (length fd_map) <= fd)
  /\ (forall (i : nat) fd, fd_map !! i = Some fd -> fd <> Z.of_nat i ->
        is_Some (t !! fd)).

(** More inputs for examples. *)
Definition inherit_all_steps : inheritance :=
  {| flags := 0x1 + 0x2 + 0x4 + 0x8 + 0x200 + 0x1000 + 0x2000 + 0x4000000;
     pgroup := 77; sigmask := [5];
     sigdefault := [2]; sigignore := [16384];
     stack_max := 65536; policy := 1; nd := 2; runmask := 3; param := [9] |}.

Definition inherit_same_steps : inheritance :=
  {| flags := 0x1 + 0x2 + 0x4 + 0x8 + 0x200 + 0x1000;
     pgroup := 77; sigmask := [5];
     sigdefault := [2]; sigignore := [16384];
     stack_max := 65536; policy := 0; nd := 0; runmask := 0; param := [] |}.

(** Descriptors 5 and 6 open on files 50 and 60, 0 and 1 on 10 and 11. *)
Definition fds_example : gmap Z Z :=
  <[0 := 10]> (<[1 := 11]> (<[5 := 50]> (<[6 := 60]> ∅))).

(** ** spawn.c: the list-style adapters *)

(** A [char *] argument is [None] when null.  The variable arguments of
    a call, in order: string pointers and, for [spawnle], the
    environment vector. *)
Inductive va_item : Type :=
| va_str (p : option string)
| va_envp (e : option (list string)).

(** The counting loop [for (++num; va_arg; num++)]: the number of
    iterations, each reading one string pointer.
    Undefined ([None]) when the arguments end, or continue with another
    type, before a null pointer is read. *)
Fixpoint va_count (ap : list va_item) : option nat :=
  match ap with
  | va_str (Some _) :: ap' => S <$> va_count ap'
  | va_str None :: _ => Some O
  | _ => None
  end.

(** The copying loop [while (( *p++ = va_arg ))]: the pointers stored,
    the null one included, and the arguments not yet read. *)
Fixpoint va_copy (ap : list va_item)
  : option (list (option string) * list va_item) :=
  match ap with
  | va_str (Some s) :: ap' =>
      match va_copy ap' with
      | Some (stored, rest) => Some (Some s :: stored, rest)
      | None => None
      end
  | va_str None :: ap' => Some ([None], ap')
  | _ => None
  end.

(** The strings of a null-terminated vector. *)
Fixpoint vector_strings (v : list (option string)) : list string :=
  match v with
  | Some s :: v' => s :: vector_strings v'
  | _ => []
  end.

(** [DOIT_CVT_L2V(arg0, argv, ...)] up to the environment assignment:
    [num], the vector stored through [p], and the arguments left in [ap].
    [__builtin_alloca] does not return null. *)
Definition CVT_L2V (arg0 : option string) (ap : list va_item)
  : option (nat * list (option string) * list va_item) :=
  match arg0 with
  | None => Some (1%nat, [None], ap)
  | Some _ =>
      match va_count ap with
      | None => None
      | Some n =>
          let num := (2 + n)%nat in
          match va_copy ap with
          | Some (stored, rest) => Some (num, arg0 :: stored, rest)
          | None => None
          end
      end
  end.

(** [int spawnl(mode, path, arg0, ...)]. *)
Definition spawnl (h : host) (attr : inheritance) (mode : Z) (path : string)
    (arg0 : option string) (ap : list va_item)
  : option (list host_call * ending) :=
  match CVT_L2V arg0 ap with
  | Some (_, argv, _) =>
      Some (spawnve h attr mode path (vector_strings argv) None)
  | None => None
  end.

(** [int spawnle(mode, path, arg0, ...)]: [envv] is the next argument
    after the vector, read as an environment vector. *)
Definition spawnle (h : host) (attr : inheritance) (mode : Z) (path : string)
    (arg0 : option string) (ap : list va_item)
  : option (list host_call * ending) :=
  match CVT_L2V arg0 ap with
  | Some (_, argv, va_envp envv :: _) =>
      Some (spawnve h attr mode path (vector_strings argv) envv)
  | _ => None
  end.

(** The arguments of a well-formed call: strings, a null pointer, then
    whatever follows. *)
Definition va_list_of (args : list string) (tail : list va_item)
  : list va_item :=
  map (fun s => va_str (Some s)) args ++ va_str None :: tail.

(** ** qfcntl.c: the entry points *)

(** The host calls are arguments; [va_mode] is the value found in the
    first variable-argument slot, which the functions always read. *)
Section OpenEntryPoints.

Variable H : host_fcntl.
Variable host_open : string -> Z -> Z -> Z.
Variable host_openat : Z -> string -> Z -> Z -> Z.
Variable host_creat : string -> Z -> Z.

(** [int _qnx_open(const char *filename, int flags, ...)]: the [int] is
    converted to the [mode_t] parameter of the translation, and the
    result is assigned back to the [int]. *)
Definition _qnx_open (filename : string) (flags : Z) (va_mode : Z) : Z :=
  let mode := va_mode in
  let flags := to_i32 (qnx_flag_to_linux H (to_u32 flags)) in
  host_open filename flags mode.

Definition _qnx_openat (dirfd : Z) (filename : string) (flags : Z)
    (va_mode : Z) : Z :=
  let mode := va_mode in
  let flags := to_i32 (qnx_flag_to_linux H (to_u32 flags)) in
  host_openat dirfd filename flags mode.

Definition _qnx_creat (filename : string) (mode : Z) : Z :=
  host_creat filename mode.

End OpenEntryPoints.

(** ** signal.c: the entry point *)

(** [int _qnx_sigaction(signum, act, oldact)].  The host call is an
    argument that threads the host's state [S]: from the state, the
    signal number, the new action, whether an old-action pointer is
    passed, and the contents of that local before the call, it gives the
    return value, the contents of the local afterwards and the new
    state.  [linux_act] and [linux_oldact] are the two automatic
    variables as found on the stack.  [act] and [oldact] are the caller's
    pointers ([None] when null).  The function reads through [act]
    without a test, so a null [act] has no defined result ([None]).
    Result: the return value, the caller's old-action record afterwards
    and the host state. *)
Definition _qnx_sigaction {S : Type}
    (host_sigaction : S -> Z -> Host.sigaction -> bool -> Host.sigaction ->
                      Z * Host.sigaction * S)
    (st : S) (linux_act linux_oldact : Host.sigaction)
    (signum : Z) (act oldact : option qnx_sigaction)
  : option (Z * option qnx_sigaction * S) :=
  match act with
  | None => None
  | Some a =>
      let linux_act := qnx_sigaction_to_linux a linux_act in
      let '(ret, linux_oldact, st) :=
        host_sigaction st signum linux_act (bool_decide (is_Some oldact))
                       linux_oldact in
      (* if (oldact) linux_sigaction_to_qnx(&linux_oldact, oldact); *)
      Some (ret, linux_sigaction_to_qnx linux_oldact <$> oldact, st)
  end.

(** Host constants (x86-64): the flag that the C library adds to every
    action it installs, the flag bits that the kernel keeps
    (SA_NOCLDSTOP, SA_NOCLDWAIT, SA_SIGINFO, SA_EXPOSE_TAGBITS,
    SA_RESTORER, SA_ONSTACK, SA_RESTART, SA_NODEFER, SA_RESETHAND), and
    the mask bits of the two signals that cannot be blocked. *)
Definition SA_RESTORER : Z := 0x04000000.

Definition UAPI_SA_FLAGS : Z :=
  0x00000001 + 0x00000002 + 0x00000004 + 0x00000800 + 0x04000000
  + 0x08000000 + 0x10000000 + 0x40000000 + 0x80000000.

Definition unblockable : Z := 2 ^ (SIGKILL - 1) + 2 ^ (SIGSTOP - 1).

(** The action the host holds once [sigaction(signum, act, ...)] has
    succeeded: the handler as given; the flags with SA_RESTORER added by
    the C library and the bits the kernel does not know cleared; the
    first 64 bits of the mask without SIGKILL and SIGSTOP.  The C
    library installs a restorer of its own and never reports it: that
    member of a table entry is not used. *)
Definition installed_action (act : Host.sigaction) : Host.sigaction :=
  {| Host.sa_handler := Host.sa_handler act;
     Host.sa_mask :=
       [Z.ldiff (host_mask_load64 (Host.sa_mask act)) unblockable];
     Host.sa_flags :=
       to_i32 (Z.land (Z.lor (Host.sa_flags act) SA_RESTORER) UAPI_SA_FLAGS);
     Host.sa_restorer := 0 |}.

(** What a successful [sigaction] stores through the old-action pointer:
    the handler, the flags and the first 64 bits of the mask of the
    action [cur] that was installed; the other bytes of [*old] keep
    their contents. *)
Definition report_action (cur old : Host.sigaction) : Host.sigaction :=
  {| Host.sa_handler := Host.sa_handler cur;
     Host.sa_mask :=
       host_mask_store64 (host_mask_load64 (Host.sa_mask cur))
                         (Host.sa_mask old);
     Host.sa_flags := Host.sa_flags cur;
     Host.sa_restorer := Host.sa_restorer old |}.

(** A host whose state is the table of installed actions.  A signal
    number without an entry is one whose action cannot be set (on the
    host: SIGKILL, SIGSTOP, 32 to 34 and the numbers outside [1, 64]):
    the call fails with -1 and stores nothing.  Otherwise the installed
    action is reported through the old-action pointer when there is one,
    and the new action is installed. *)
Definition table_sigaction (tbl : gmap Z Host.sigaction) (signum : Z)
    (act : Host.sigaction) (want_old : bool) (oldact : Host.sigaction)
  : Z * Host.sigaction * gmap Z Host.sigaction :=
  match tbl !! signum with
  | Some cur =>
      (0, if want_old then report_action cur oldact else oldact,
       <[signum := installed_action act]> tbl)
  | None => (-1, oldact, tbl)
  end.

(** A table with an action for signal 2 only. *)
Definition sigtable_example : gmap Z Host.sigaction :=
  <[2 := {| Host.sa_handler := 0; Host.sa_mask := [0; 0]; Host.sa_flags := 0;
            Host.sa_restorer := 0 |}]> ∅.

(** ** string.c *)

(** A value stored into a [char], as a byte. *)
Definition to_char (x : Z) : Z := x mod 256.

(** The loop of [utoa],
    [do { s[i++] = n % base + '0'; } while ((n /= base) > 0);]
    in unsigned arithmetic: the characters stored, in the order stored.
    [fuel] bounds the number of iterations ([None] when it runs out). *)
Fixpoint utoa_loop (fuel : nat) (n base : Z) : option (list Z) :=
  match fuel with
  | O => None
  | S fuel =>
      let c := to_char (to_u32 (n mod base + 48)) in
      let n := n / base in
      if 0 <? n then cons c <$> utoa_loop fuel n base else Some [c]
  end.

(** [char *utoa(unsigned n, char *s, int base)]: the bytes stored at
    [s[0]], [s[1]], ... including the terminator.  [base] is converted
    to [unsigned]; a zero divisor has no defined result. *)
Definition utoa (fuel : nat) (n base : Z) : option (list Z) :=
  let base := to_u32 base in
  if base =? 0 then None
  else (fun digits => digits ++ [0]) <$> utoa_loop fuel n base.

(** The loop of [itoa], the same statement in [int] arithmetic
    (quotient and remainder truncate toward zero). *)
Fixpoint itoa_loop (fuel : nat) (n base : Z) : option (list Z) :=
  match fuel with
  | O => None
  | S fuel =>
      let c := to_char (to_i32 (Z.rem n base + 48)) in
      let n := Z.quot n base in
      if 0 <? n then cons c <$> itoa_loop fuel n base else Some [c]
  end.

(** [char *itoa(int n, char *s, int base)].  Negating [INT_MIN]
    overflows and a zero divisor is undefined: no result. *)
Definition itoa (fuel : nat) (n base : Z) : option (list Z) :=
  let sign := n in
  if n =? - 2 ^ 31 then None
  else
    let n := if sign <? 0 then - n else n in
    if base =? 0 then None
    else (fun digits => digits ++ (if sign <? 0 then [45] else []) ++ [0])
           <$> itoa_loop fuel n base.

(** The number written by a sequence of digit characters whose first
    character is the units digit. *)
Definition digits_value (base : Z) (ds : list Z) : Z :=
  foldr (fun c acc => (c - 48) + base * acc) 0 ds.

(** ** assert.c *)

Definition bytes_of (s : string) : list Z :=
  map (fun a => Z.of_nat (Ascii.nat_of_ascii a)) (list_ascii_of_string s).

(** [void __assert(expr, file, line, func)]: the buffers handed to
    [write(fd, buf, len)] on the descriptor of [stderr], in order; the
    function then calls [abort] and does not return.  The strings are
    given by their characters; [func] is [None] when null.  [lbuf] has
    10 bytes: a longer [utoa] result overruns it, and there is no defined
    result.  [utoa] returns its buffer, never null, so the branch that
    stores a question mark is not taken. *)
Definition __assert (fuel : nat) (expr file : list Z) (line : Z)
    (func : option (list Z)) : option (list (list Z)) :=
  match utoa fuel line 10 with
  | None => None
  | Some lbuf =>
      if (10 <? length lbuf)%nat then None
      else
        Some ((match func with
               | Some f => [bytes_of "In function "; f; bytes_of " -- "]
               | None => []
               end)
              ++ [file; bytes_of ":"; c_string lbuf; bytes_of " "; expr;
                  bytes_of " -- assertion failed" ++ [10]])
  end.

(** ** sprintf.c *)

Definition FLAG_ABORT_ON_OVERFLOW : Z := 1.
Definition FLAG_TERMINATE : Z := 2.

(** How a checked formatting call ends, with the buffer it leaves. *)
Inductive chk_result : Type :=
| Returned (ret : Z) (str : list Z)
| Aborted (str : list Z).

(** [str[i] = v] on a buffer of [length str] bytes; [i] is a [size_t].
    A store outside the buffer has no defined result. *)
Definition store_byte (i v : Z) (str : list Z) : option (list Z) :=
  if (0 <=? i) && (i <? Z.of_nat (length str))
  then Some (<[Z.to_nat i := v]> str)
  else None.

(** The formatting call of the C library, [vsnprintf(str, size, ...)],
    for a format and arguments that expand to the characters [out]
    ([None]: the expansion fails and -1 is returned): at most
    [size - 1] characters and a terminator are stored when [size] is not
    zero, and the length of the whole expansion is returned. *)
Definition c_vsnprintf (out : option (list Z)) (str : list Z) (size : Z)
  : option (Z * list Z) :=
  match out with
  | None => Some (-1, str)
  | Some out =>
      if size =? 0 then Some (Z.of_nat (length out), str)
      else
        let stored := take (Z.to_nat (size - 1)) out ++ [0] in
        if (length stored <=? length str)%nat
        then Some (Z.of_nat (length out), list_inserts 0 stored str)
        else None
  end.

Section CheckedFormatting.

(** The host's [vsnprintf] for the format and arguments of the call:
    from the buffer and the size, the return value and the buffer
    afterwards ([None]: it stores outside the buffer). *)
Variable vsnprintf : list Z -> Z -> option (Z * list Z).

(** [int __vsprintf_chk(str, flag, os, format, ap)]; [os] is a [size_t]
    and is compared as an [int]. *)
Definition __vsprintf_chk (str : list Z) (flag os : Z) : option chk_result :=
  let buf_size := os in
  match vsnprintf str buf_size with
  | None => None
  | Some (ret, str) =>
      if to_i32 buf_size <=? ret then
        if c_true (Z.land flag FLAG_ABORT_ON_OVERFLOW) then Some (Aborted str)
        else Returned ret <$> store_byte (to_u64 (buf_size - 1)) 0 str
      else Some (Returned ret str)
  end.

(** [int __sprintf_chk(str, flag, os, format, ...)]. *)
Definition __sprintf_chk (str : list Z) (flag os : Z) : option chk_result :=
  __vsprintf_chk str flag os.

(** [int __snprintf_chk(str, size, flag, os, format, ...)]; the
    comparison is made on [size_t] values. *)
Definition __snprintf_chk (str : list Z) (size flag os : Z)
  : option chk_result :=
  match vsnprintf str size with
  | None => None
  | Some (ret, str) =>
      if ret <? 0 then Aborted <$> store_byte 0 0 str
      else if size <=? to_u64 ret then
        if c_true (Z.land flag FLAG_TERMINATE)
        then Returned ret <$> store_byte (to_u64 (size - 1)) 0 str
        else Some (Aborted str)
      else Some (Returned ret str)
  end.

End CheckedFormatting.

(** A buffer of 8 bytes and the text "hello, world". *)
Definition buffer8 : list Z := replicate 8 255.
Definition hello_world : list Z := bytes_of "hello, world".

(** ** localeconv.c *)

(** The host's [struct lconv]; a pointer is an address, 0 when null. *)
Module HostLocale.

Record lconv : Type := {
  decimal_point : Z;
  thousands_sep : Z;
  grouping : Z;
  int_curr_symbol : Z;
  currency_symbol : Z;
  mon_decimal_point : Z;
  mon_thousands_sep : Z;
  mon_grouping : Z;
  positive_sign : Z;
  negative_sign : Z;
  int_frac_digits : Z;
  frac_digits : Z;
  p_cs_precedes : Z;
  p_sep_by_space : Z;
  n_cs_precedes : Z;
  n_sep_by_space : Z;
  p_sign_posn : Z;
  n_sign_posn : Z;
  int_p_cs_precedes : Z;
  int_p_sep_by_space : Z;
  int_n_cs_precedes : Z;
  int_n_sep_by_space : Z;
  int_p_sign_posn : Z;
  int_n_sign_posn : Z
}.

End HostLocale.

Record qnx_lconv : Type := {
  currency_symbol : Z;
  int_curr_symbol : Z;
  mon_decimal_point : Z;
  mon_grouping : Z;
  mon_thousands_sep : Z;
  negative_sign : Z;
  positive_sign : Z;
  frac_digits : Z;
  int_frac_digits : Z;
  n_cs_precedes : Z;
  n_sep_by_space : Z;
  n_sign_posn : Z;
  p_cs_precedes : Z;
  p_sep_by_space : Z;
  p_sign_posn : Z;
  int_n_cs_precedes : Z;
  int_n_sep_by_space : Z;
  int_n_sign_posn : Z;
  int_p_cs_precedes : Z;
  int_p_sep_by_space : Z;
  int_p_sign_posn : Z;
  decimal_point : Z;
  grouping : Z;
  thousands_sep : Z;
  _Frac_grouping : Z;
  _Frac_sep : Z;
  _False : Z;
  _True : Z;
  _No : Z;
  _Yes : Z;
  _Nostr : Z;
  _Yesstr : Z;
  _Reserved : list Z     (* char *_Reserved[8] *)
}.

(** [void convert_musl_to_qnx_lconv(musl, qnx)]: the contents of [*qnx]
    afterwards.  Every member is assigned; the loop stores a null pointer
    into each of the eight reserved slots. *)
Definition convert_musl_to_qnx_lconv (musl : HostLocale.lconv)
    (qnx : qnx_lconv) : qnx_lconv :=
  {| currency_symbol := HostLocale.currency_symbol musl;
     int_curr_symbol := HostLocale.int_curr_symbol musl;
     mon_decimal_point := HostLocale.mon_decimal_point musl;
     mon_grouping := HostLocale.mon_grouping musl;
     mon_thousands_sep := HostLocale.mon_thousands_sep musl;
     negative_sign := HostLocale.negative_sign musl;
     positive_sign := HostLocale.positive_sign musl;
     frac_digits := to_char (HostLocale.frac_digits musl);
     int_frac_digits := to_char (HostLocale.int_frac_digits musl);
     n_cs_precedes := to_char (HostLocale.n_cs_precedes musl);
     n_sep_by_space := to_char (HostLocale.n_sep_by_space musl);
     n_sign_posn := to_char (HostLocale.n_sign_posn musl);
     p_cs_precedes := to_char (HostLocale.p_cs_precedes musl);
     p_sep_by_space := to_char (HostLocale.p_sep_by_space musl);
     p_sign_posn := to_char (HostLocale.p_sign_posn musl);
     int_n_cs_precedes := to_char (HostLocale.int_n_cs_precedes musl);
     int_n_sep_by_space := to_char (HostLocale.int_n_sep_by_space musl);
     int_n_sign_posn := to_char (HostLocale.int_n_sign_posn musl);
     int_p_cs_precedes := to_char (HostLocale.int_p_cs_precedes musl);
     int_p_sep_by_space := to_char (HostLocale.int_p_sep_by_space musl);
     int_p_sign_posn := to_char (HostLocale.int_p_sign_posn musl);
     decimal_point := HostLocale.decimal_point musl;
     grouping := HostLocale.grouping musl;
     thousands_sep := HostLocale.thousands_sep musl;
     _Frac_grouping := 0;
     _Frac_sep := 0;
     _False := 0;
     _True := 0;
     _No := 0;
     _Yes := 0;
     _Nostr := 0;
     _Yesstr := 0;
     _Reserved :=
       foldl (fun r i => <[i := 0]> r) (_Reserved qnx) (seq 0 8) |}.

(** The two [static] variables of [_qnx_localeconv]. *)
Record locale_state : Type := {
  qnx_lconv_static : qnx_lconv;
  initialized : Z
}.

(** [struct qnx_lconv *_qnx_localeconv(void)].  [answer] is what the
    host's [localeconv()] would return now.  Result: whether the host
    was asked, the record the returned pointer refers to, and the
    statics afterwards. *)
Definition _qnx_localeconv (answer : HostLocale.lconv) (st : locale_state)
  : bool * qnx_lconv * locale_state :=
  if negb (c_true (initialized st)) then
    let musl_lconv := answer in
    let q := convert_musl_to_qnx_lconv musl_lconv (qnx_lconv_static st) in
    (true, q, {| qnx_lconv_static := q; initialized := 1 |})
  else (false, qnx_lconv_static st, st).

(** Successive calls, the host's locale data being [answers] at the
    time of each call. *)
Fixpoint localeconv_calls (answers : list HostLocale.lconv)
    (st : locale_state) : list (bool * qnx_lconv) :=
  match answers with
  | [] => []
  | a :: answers =>
      let '(asked, q, st) := _qnx_localeconv a st in
      (asked, q) :: localeconv_calls answers st
  end.

(** The statics as the loader leaves them, and two states of the host's
    locale data (addresses of its strings). *)
Definition qnx_lconv_zero : qnx_lconv :=
  {| currency_symbol := 0; int_curr_symbol := 0; mon_decimal_point := 0;
     mon_grouping := 0; mon_thousands_sep := 0; negative_sign := 0;
     positive_sign := 0; frac_digits := 0; int_frac_digits := 0;
     n_cs_precedes := 0; n_sep_by_space := 0; n_sign_posn := 0;
     p_cs_precedes := 0; p_sep_by_space := 0; p_sign_posn := 0;
     int_n_cs_precedes := 0; int_n_sep_by_space := 0; int_n_sign_posn := 0;
     int_p_cs_precedes := 0; int_p_sep_by_space := 0; int_p_sign_posn := 0;
     decimal_point := 0; grouping := 0; thousands_sep := 0;
     _Frac_grouping := 0; _Frac_sep := 0; _False := 0; _True := 0;
     _No := 0; _Yes := 0; _Nostr := 0; _Yesstr := 0;
     _Reserved := replicate 8 0 |}.

Definition lconv_at (base : Z) : HostLocale.lconv :=
  {| HostLocale.decimal_point := base; HostLocale.thousands_sep := base + 2;
     HostLocale.grouping := base + 4; HostLocale.int_curr_symbol := base + 6;
     HostLocale.currency_symbol := base + 8;
     HostLocale.mon_decimal_point := base + 10;
     HostLocale.mon_thousands_sep := base + 12;
     HostLocale.mon_grouping := base + 14;
     HostLocale.positive_sign := base + 16;
     HostLocale.negative_sign := base + 18;
     HostLocale.int_frac_digits := 255; HostLocale.frac_digits := 255;
     HostLocale.p_cs_precedes := 255; HostLocale.p_sep_by_space := 255;
     HostLocale.n_cs_precedes := 255; HostLocale.n_sep_by_space := 255;
     HostLocale.p_sign_posn := 255; HostLocale.n_sign_posn := 255;
     HostLocale.int_p_cs_precedes := 255;
     HostLocale.int_p_sep_by_space := 255;
     HostLocale.int_n_cs_precedes := 255;
     HostLocale.int_n_sep_by_space := 255;
     HostLocale.int_p_sign_posn := 255; HostLocale.int_n_sign_posn := 255 |}.

(** * Properties *)

(** ** Open-mode flag translation *)

Section FlagTranslation.

Variable H : host_fcntl.

Lemma testbit_CONV_MODE q h f ret i :
  Z.testbit (CONV_MODE q h f ret) i
  = Z.testbit ret i || (selected f (q, h) && Z.testbit h i).
Proof.
  unfold CONV_MODE, selected; simpl.
  destruct (c_true (Z.land f q)); simpl.
  - apply Z.lor_spec.
  - now rewrite orb_false_r.
Qed.

Lemma testbit_lor_all l i :
  Z.testbit (lor_all l) i = existsb (fun h => Z.testbit h i) l.
Proof.
  induction l as [|h l IH]; simpl.
  - apply Z.testbit_0_l.
  - now rewrite Z.lor_spec, IH.
Qed.

(** A bit of the specified translation is a bit of some selected entry. *)
Lemma testbit_selected_entries f (tbl : list (Z * Z)) i :
  Z.testbit (lor_all (map snd (filter (fun e => selected f e = true) tbl))) i
  = existsb (fun e => selected f e && Z.testbit (snd e) i) tbl.
Proof.
  rewrite testbit_lor_all.
  induction tbl as [|e tbl IH]; [reflexivity|].
  rewrite filter_cons. simpl existsb at 2.
  destruct (decide (selected f e = true)) as [Hs|Hs].
  - simpl. now rewrite Hs, IH.
  - apply not_true_is_false in Hs. now rewrite Hs, IH.
Qed.

Lemma qnx_flag_to_linux_testbit f i :
  Z.testbit (qnx_flag_to_linux H f) i
  = existsb (fun e => selected f e && Z.testbit (snd e) i) (flag_table H).
Proof.
  unfold qnx_flag_to_linux.
  rewrite !testbit_CONV_MODE, Z.testbit_0_l.
  unfold flag_table. cbn [existsb snd].
  set (a := selected f (QNX_O_RDONLY, O_RDONLY H) && Z.testbit (O_RDONLY H) i).
  set (b := selected f (QNX_O_WRONLY, O_WRONLY H) && Z.testbit (O_WRONLY H) i).
  clearbody a b.
  destruct a, b; simpl; rewrite ?orb_false_r, <- ?orb_assoc; reflexivity.
Qed.

Lemma qnx_flag_to_linux_refines f :
  qnx_flag_to_linux H f = translate_by_table H f.
Proof.
  apply Z.bits_inj'; intros i _.
  unfold translate_by_table.
  now rewrite qnx_flag_to_linux_testbit, testbit_selected_entries.
Qed.

Lemma selected_known_bits f e :
  e ∈ flag_table H -> selected (Z.land f known_qnx_bits) e = selected f e.
Proof.
  intros He. unfold selected. rewrite <- Z.land_assoc.
  unfold flag_table in He. set_unfold in He.
  repeat (destruct He as [-> | He]; [reflexivity|]).
  contradiction.
Qed.

Lemma qnx_flag_to_linux_known_bits f :
  qnx_flag_to_linux H (Z.land f known_qnx_bits) = qnx_flag_to_linux H f.
Proof.
  apply Z.bits_inj'; intros i _.
  rewrite !qnx_flag_to_linux_testbit.
  assert (forall tbl, (forall e, e ∈ tbl -> e ∈ flag_table H) ->
    existsb (fun e => selected (Z.land f known_qnx_bits) e && Z.testbit (snd e) i) tbl
    = existsb (fun e => selected f e && Z.testbit (snd e) i) tbl) as Hall.
  { induction tbl as [|e tbl IH]; intros Hin; [reflexivity|].
    simpl. rewrite selected_known_bits by (apply Hin; left).
    f_equal. apply IH. intros e' He'. apply Hin. now right. }
  now apply Hall.
Qed.

(** C4. For every foreign open-mode bitmask [f] (so for every 32-bit
    one) [qnx_flag_to_linux] returns a value, never an error: it is the
    bitwise OR of the host values of exactly the table entries whose
    foreign bit is set in [f]; a bit is set in the result if and only if
    it belongs to the host value of such an entry; and foreign bits
    without a table entry do not influence the result. *)
Theorem qnx_flag_to_linux_exact (f : Z) :
  qnx_flag_to_linux H f = translate_by_table H f
  /\ (forall i, Z.testbit (qnx_flag_to_linux H f) i = true <->
        exists e, e ∈ flag_table H /\ selected f e = true
                  /\ Z.testbit (snd e) i = true)
  /\ (forall g, Z.land g known_qnx_bits = Z.land f known_qnx_bits ->
        qnx_flag_to_linux H g = qnx_flag_to_linux H f).
Proof.
  split; [apply qnx_flag_to_linux_refines|split].
  - intros i. rewrite qnx_flag_to_linux_testbit, existsb_exists.
    split.
    + intros (e & Hin & Hb). apply andb_true_iff in Hb as [Hs Ht].
      exists e. split; [now apply list_elem_of_In|now split].
    + intros (e & Hin & Hs & Ht). exists e.
      split; [now apply list_elem_of_In|now rewrite Hs, Ht].
  - intros g Hg.
    rewrite <- (qnx_flag_to_linux_known_bits g), Hg.
    apply qnx_flag_to_linux_known_bits.
Qed.

End FlagTranslation.

(** On the Linux header: write-only with create and truncate, and an
    unknown foreign bit (04) that is dropped. *)
Example qnx_flag_to_linux_creat :
  qnx_flag_to_linux linux_fcntl (1 + 256 + 512 + 4) = 1 + 64 + 512.
Proof. reflexivity. Qed.

(** ** The spawn state machine *)

Lemma c_true_spec x : c_true x = true <-> x <> 0.
Proof.
  unfold c_true. rewrite negb_true_iff, Z.eqb_neq. reflexivity.
Qed.

Lemma dispositions_after_app ok a b d :
  dispositions_after ok (a ++ b) d
  = dispositions_after ok b (dispositions_after ok a d).
Proof. unfold dispositions_after. apply foldl_app. Qed.

Lemma dispositions_after_quiet ok calls d :
  forallb keeps_dispositions calls = true ->
  dispositions_after ok calls d = d.
Proof.
  revert d. induction calls as [|c calls IH]; intros d Hall; [reflexivity|].
  simpl in Hall. apply andb_true_iff in Hall as [Hc Hall].
  simpl. rewrite <- (IH d Hall) at 2. unfold dispositions_after. simpl.
  destruct c; try reflexivity; discriminate.
Qed.

Lemma dispositions_after_execve ok path argv envp d N :
  dispositions_after ok [Execve path argv envp] d !! N
  = after_exec ok (d !! N).
Proof.
  unfold after_exec. simpl. destruct ok; [apply lookup_fmap|reflexivity].
Qed.

Lemma keep_fd_quiet fd_map :
  forallb keeps_dispositions (keep_fd fd_map) = true.
Proof.
  unfold keep_fd. generalize (imap pair fd_map). intros l.
  induction l as [|[i fd] l IH]; [reflexivity|].
  simpl. destruct (fd =? Z.of_nat i); simpl; exact IH.
Qed.

Lemma keep_fd_no_signal fd_map :
  forallb (fun c => negb (is_signal c)) (keep_fd fd_map) = true.
Proof.
  unfold keep_fd. generalize (imap pair fd_map). intros l.
  induction l as [|[i fd] l IH]; [reflexivity|].
  simpl. destruct (fd =? Z.of_nat i); simpl; exact IH.
Qed.

Lemma sigismember_range set sig :
  sigismember set sig <> 0 -> 1 <= sig <= 64.
Proof.
  unfold sigismember.
  destruct (sig - 1 <? 0) eqn:Hlo; [simpl; congruence|].
  destruct (64 <=? sig - 1) eqn:Hhi; [simpl; congruence|].
  intros _. apply Z.ltb_ge in Hlo. apply Z.leb_gt in Hhi. lia.
Qed.

Lemma signal_range_elem sig :
  1 <= sig <= 64 -> sig ∈ map Z.of_nat (seq 1 (Z.to_nat (NSIG - 1))).
Proof.
  intros Hr. apply list_elem_of_In, in_map_iff.
  exists (Z.to_nat sig). split; [lia|].
  apply in_seq. unfold NSIG, _SIGMAX. lia.
Qed.

(** One pass of the loop over a list of signal numbers: a member of the
    set that the loop visits, and that the host lets change, ends with
    the handler of the pass. *)
Lemma signal_loop_installs ok set h N (l : list Z) d :
  sigismember set N <> 0 ->
  host_refuses N = false ->
  N ∈ l \/ d !! N = Some h ->
  dispositions_after ok
    (flat_map (fun i => c_if (sigismember set i) [Signal i h]) l) d !! N
  = Some h.
Proof.
  intros Hm Href. revert d. induction l as [|i l IH]; intros d Hin.
  - destruct Hin as [Hin|Hd]; [|exact Hd]. now apply elem_of_nil in Hin.
  - simpl. rewrite dispositions_after_app. apply IH.
    destruct (decide (N = i)) as [->|Hne].
    + right. unfold c_if. apply c_true_spec in Hm. rewrite Hm.
      simpl. rewrite Href. apply lookup_insert_eq.
    + destruct Hin as [Hin|Hd].
      * left. apply elem_of_cons in Hin as [?|?]; [contradiction|assumption].
      * right. unfold c_if. destruct (c_true (sigismember set i)); simpl;
          [destruct (host_refuses i);
           [|rewrite lookup_insert_ne by congruence]|]; exact Hd.
Qed.

(** A signal outside the set, or one the host refuses, keeps its
    disposition through the pass. *)
Lemma signal_loop_frame ok set h N (l : list Z) d :
  sigismember set N = 0 \/ host_refuses N = true ->
  dispositions_after ok
    (flat_map (fun i => c_if (sigismember set i) [Signal i h]) l) d !! N
  = d !! N.
Proof.
  intros Hm. revert d. induction l as [|i l IH]; intros d; [reflexivity|].
  simpl. rewrite dispositions_after_app, IH.
  unfold c_if. destruct (c_true (sigismember set i)) eqn:Hi; [|reflexivity].
  simpl. destruct (host_refuses i) eqn:Hr; [reflexivity|].
  apply lookup_insert_ne. intros ->.
  apply c_true_spec in Hi. destruct Hm; congruence.
Qed.

Lemma signal_pass_installs ok set h N d :
  sigismember set N <> 0 ->
  host_refuses N = false ->
  dispositions_after ok (signal_pass set h) d !! N = Some h.
Proof.
  intros Hm Href. apply signal_loop_installs; [exact Hm|exact Href|].
  left. apply signal_range_elem. eapply sigismember_range, Hm.
Qed.

Lemma signal_pass_lookup ok set h N d :
  dispositions_after ok (signal_pass set h) d !! N
  = if c_true (sigismember set N) && negb (host_refuses N) then Some h
    else d !! N.
Proof.
  destruct (c_true (sigismember set N)) eqn:Hm;
    [destruct (host_refuses N) eqn:Hr|]; simpl.
  - apply signal_loop_frame. now right.
  - apply signal_pass_installs; [now apply c_true_spec|exact Hr].
  - apply signal_loop_frame. left. unfold c_true in Hm.
    apply negb_false_iff, Z.eqb_eq in Hm. exact Hm.
Qed.

Lemma dispositions_after_c_if ok c calls d :
  dispositions_after ok (c_if c calls) d
  = if c_true c then dispositions_after ok calls d else d.
Proof. unfold c_if. now destruct (c_true c). Qed.

(** The disposition of a signal after the statements between the
    duplication step and [execve]. *)
Lemma child_setup_dispositions ok fd_map inherit d N :
  dispositions_after ok (child_setup fd_map inherit) d !! N
  = if host_refuses N then d !! N
    else if c_true (Z.land (flags inherit) SPAWN_SETSIGIGN)
            && c_true (sigismember (sigignore inherit) N)
    then Some SIG_IGN
    else if c_true (Z.land (flags inherit) SPAWN_SETSIGDEF)
            && c_true (sigismember (sigdefault inherit) N)
    then Some SIG_DFL
    else d !! N.
Proof.
  unfold child_setup. rewrite !dispositions_after_app.
  rewrite (dispositions_after_quiet ok (keep_fd fd_map))
    by apply keep_fd_quiet.
  rewrite !dispositions_after_c_if.
  destruct (c_true (Z.land (flags inherit) SPAWN_SETSTACKMAX)),
    (c_true (Z.land (flags inherit) SPAWN_SETSID)),
    (c_true (Z.land (flags inherit) SPAWN_SETSIGMASK)),
    (c_true (Z.land (flags inherit) SPAWN_SETGROUP));
    cbn [dispositions_after foldl apply_call];
    destruct (c_true (Z.land (flags inherit) SPAWN_SETSIGIGN)),
      (c_true (Z.land (flags inherit) SPAWN_SETSIGDEF));
    rewrite ?signal_pass_lookup; simpl;
    destruct (c_true (sigismember (sigignore inherit) N)),
      (c_true (sigismember (sigdefault inherit) N)),
      (host_refuses N); reflexivity.
Qed.

Lemma signal_pass_elem set h N :
  sigismember set N <> 0 -> Signal N h ∈ signal_pass set h.
Proof.
  intros Hm. apply list_elem_of_In, in_flat_map.
  exists N. split.
  - apply list_elem_of_In, signal_range_elem. eapply sigismember_range, Hm.
  - unfold c_if. apply c_true_spec in Hm. rewrite Hm. now left.
Qed.

(** The trace of the child path. *)
Lemma spawn_child_trace h path fd_map inherit argv envp :
  c_true (Z.land (flags inherit) SPAWN_EXEC) = true \/ fork_ret h = 0 ->
  exists forked,
    forallb keeps_dispositions forked = true /\
    fst (spawn h path fd_map inherit argv envp)
    = forked ++ child_setup fd_map inherit ++ [Execve path argv envp].
Proof.
  intros Hchild. unfold spawn.
  destruct (c_true (Z.land (flags inherit) SPAWN_EXEC)) eqn:Hexec.
  - exists []. split; [reflexivity|]. simpl. now destruct (execve_ok h).
  - destruct Hchild as [?|Hfork]; [discriminate|].
    exists [Fork]. split; [reflexivity|]. rewrite Hfork. simpl.
    now destruct (execve_ok h).
Qed.

Lemma child_setup_signal_passes fd_map inherit :
  Z.land (flags inherit) SPAWN_SETSIGDEF <> 0 ->
  Z.land (flags inherit) SPAWN_SETSIGIGN <> 0 ->
  exists pre,
    child_setup fd_map inherit
    = pre ++ signal_pass (sigdefault inherit) SIG_DFL
          ++ signal_pass (sigignore inherit) SIG_IGN ++ keep_fd fd_map.
Proof.
  intros Hdef Hign. apply c_true_spec in Hdef, Hign.
  unfold child_setup.
  exists (c_if (Z.land (flags inherit) SPAWN_SETGROUP)
               [Setpgid 0 (pgroup inherit)]
          ++ c_if (Z.land (flags inherit) SPAWN_SETSIGMASK)
                  [Sigprocmask_SETMASK (sigmask inherit)]
          ++ c_if (Z.land (flags inherit) SPAWN_SETSID) [Setsid]
          ++ c_if (Z.land (flags inherit) SPAWN_SETSTACKMAX)
                  [Setrlimit_STACK (RLIM (stack_max inherit)) RLIM_INFINITY]).
  rewrite <- !app_assoc.
  unfold c_if at 5 6. now rewrite Hdef, Hign.
Qed.

(** The disposition of any signal [N] after all calls of the child path
    of [spawn]. *)
Lemma spawn_dispositions h path fd_map inherit argv envp d N :
  c_true (Z.land (flags inherit) SPAWN_EXEC) = true \/ fork_ret h = 0 ->
  dispositions_after (execve_ok h)
    (fst (spawn h path fd_map inherit argv envp)) d !! N
  = after_exec (execve_ok h)
      (dispositions_after (execve_ok h) (child_setup fd_map inherit) d !! N).
Proof.
  intros Hchild.
  destruct (spawn_child_trace h path fd_map inherit argv envp Hchild)
    as (forked & Hforked & ->).
  rewrite !dispositions_after_app.
  rewrite (dispositions_after_quiet _ forked) by exact Hforked.
  apply dispositions_after_execve.
Qed.

(** C1, for the signals whose disposition the host lets change.  When
    both the set-default and the set-ignored flags are set and signal [N]
    is a member of both sets, the process that runs the child path issues
    the default pass, then the ignore pass, then no further [signal]
    call; both passes contain a call for [N]; and, when [N] is not one of
    the signals the host refuses to change (SIGKILL, SIGSTOP, 32 to 34),
    the disposition of [N] after all calls of [spawn] is [SIG_IGN],
    whatever it was before and whether or not [execve] succeeds. *)
Theorem spawn_ignore_after_default h path fd_map inherit argv envp d N :
  Z.land (flags inherit) SPAWN_SETSIGDEF <> 0 ->
  Z.land (flags inherit) SPAWN_SETSIGIGN <> 0 ->
  sigismember (sigdefault inherit) N <> 0 ->
  sigismember (sigignore inherit) N <> 0 ->
  host_refuses N = false ->
  c_true (Z.land (flags inherit) SPAWN_EXEC) = true \/ fork_ret h = 0 ->
  (exists pre post,
     fst (spawn h path fd_map inherit argv envp)
     = pre ++ signal_pass (sigdefault inherit) SIG_DFL
           ++ signal_pass (sigignore inherit) SIG_IGN ++ post
     /\ Signal N SIG_DFL ∈ signal_pass (sigdefault inherit) SIG_DFL
     /\ Signal N SIG_IGN ∈ signal_pass (sigignore inherit) SIG_IGN
     /\ forallb (fun c => negb (is_signal c)) post = true)
  /\ dispositions_after (execve_ok h)
       (fst (spawn h path fd_map inherit argv envp)) d !! N
     = Some SIG_IGN.
Proof.
  intros Hdef Hign Hmd Hmi Href Hchild. split.
  - destruct (spawn_child_trace h path fd_map inherit argv envp Hchild)
      as (forked & Hforked & ->).
    destruct (child_setup_signal_passes fd_map inherit Hdef Hign)
      as (pre & ->).
    exists (forked ++ pre), (keep_fd fd_map ++ [Execve path argv envp]).
    split; [now rewrite <- !app_assoc|].
    split; [now apply signal_pass_elem|].
    split; [now apply signal_pass_elem|].
    rewrite forallb_app, keep_fd_no_signal. reflexivity.
  - rewrite spawn_dispositions by exact Hchild.
    rewrite child_setup_dispositions, Href.
    apply c_true_spec in Hign, Hmi. rewrite Hign, Hmi. simpl.
    unfold after_exec. now destruct (execve_ok h).
Qed.

(** Signal 2 is in both sets of [inherit_sigdef_sigign]. *)
Lemma spawn_ignore_after_default_witness :
  dispositions_after (execve_ok child_host)
    (fst (spawn child_host "/bin/true" [] inherit_sigdef_sigign [] None))
    (<[2 := SIG_FN 4096]> ∅) !! 2 = Some SIG_IGN.
Proof.
  apply (spawn_ignore_after_default child_host "/bin/true" []
           inherit_sigdef_sigign [] None (<[2 := SIG_FN 4096]> ∅) 2).
  - vm_compute. discriminate.
  - vm_compute. discriminate.
  - vm_compute. discriminate.
  - vm_compute. discriminate.
  - reflexivity.
  - right. reflexivity.
Defined.

(** C1 as the specification words it, for every signal in both sets,
    does not hold on the host: SIGKILL is in both sets of
    [inherit_sigkill] and both flags are set; the child path issues
    [signal(9, SIG_DFL)] and then [signal(9, SIG_IGN)], the host refuses
    both, and the disposition of SIGKILL after all calls is still the
    default action, not the ignore action. *)
Lemma spawn_sigkill_not_ignored :
  Z.land (flags inherit_sigkill) SPAWN_SETSIGDEF <> 0
  /\ Z.land (flags inherit_sigkill) SPAWN_SETSIGIGN <> 0
  /\ sigismember (sigdefault inherit_sigkill) SIGKILL <> 0
  /\ sigismember (sigignore inherit_sigkill) SIGKILL <> 0
  /\ fork_ret child_host = 0
  /\ fst (spawn child_host "/bin/true" [] inherit_sigkill [] None)
     = [Fork; Signal SIGKILL SIG_DFL; Signal SIGKILL SIG_IGN;
        Execve "/bin/true" [] None]
  /\ dispositions_after (execve_ok child_host)
       (fst (spawn child_host "/bin/true" [] inherit_sigkill [] None))
       (<[SIGKILL := SIG_DFL]> ∅) !! SIGKILL = Some SIG_DFL
  /\ dispositions_after (execve_ok child_host)
       (fst (spawn child_host "/bin/true" [] inherit_sigkill [] None))
       (<[SIGKILL := SIG_DFL]> ∅) !! SIGKILL <> Some SIG_IGN.
Proof.
  repeat split; try (vm_compute; discriminate); vm_compute; reflexivity.
Qed.

(** Whenever the child path is taken and [execve] fails, [spawn] ends by
    running off its closing brace: the only endings of the child path are
    the replaced image and the return to the caller. *)
Lemma spawn_child_endings h path fd_map inherit argv envp :
  c_true (Z.land (flags inherit) SPAWN_EXEC) = true \/ fork_ret h = 0 ->
  snd (spawn h path fd_map inherit argv envp)
  = if execve_ok h then ImageReplaced else FallsOffEnd.
Proof.
  intros Hchild. unfold spawn.
  destruct (c_true (Z.land (flags inherit) SPAWN_EXEC)) eqn:Hexec.
  - simpl. now destruct (execve_ok h).
  - destruct Hchild as [?|Hfork]; [discriminate|].
    rewrite Hfork. simpl. now destruct (execve_ok h).
Qed.

(** C2 (the code at the failing input). In the child, when [execve]
    fails, the last call [spawn] issues is that [execve]: no call that
    ends the process follows, and control goes back to the caller of
    [spawn]; through [spawnve] it goes back to that function's caller. *)
Theorem spawn_failed_exec_returns_to_caller :
  spawn child_host_exec_fails "/no/such/file" [] inherit_plain ["prog"%string] None
  = ([Fork; Execve "/no/such/file" ["prog"%string] None], FallsOffEnd)
  /\ spawnve child_host_exec_fails inherit_plain P_NOWAIT "/no/such/file"
       ["prog"%string] None
     = ([Fork; Execve "/no/such/file" ["prog"%string] None], FallsOffEnd).
Proof. split; reflexivity. Qed.

(** C3. Without the exec-in-place flag, when [fork] fails (returns -1)
    [spawn] returns -1 to its caller and the only host call it has
    issued is that [fork]: no inheritance step, no descriptor remapping
    and no image replacement. *)
Theorem spawn_fork_failure h path fd_map inherit argv envp :
  Z.land (flags inherit) SPAWN_EXEC = 0 ->
  fork_ret h = -1 ->
  spawn h path fd_map inherit argv envp = ([Fork], Return (-1))
  /\ filter (fun c => is_inheritance_step c = true)
            (fst (spawn h path fd_map inherit argv envp)) = [].
Proof.
  intros Hexec Hfork. unfold spawn, c_true.
  rewrite Hexec, Hfork. simpl. split; reflexivity.
Qed.

Lemma spawn_fork_failure_witness :
  spawn host_fork_fails "/bin/true" [3; 1] inherit_sigdef_sigign [] None
  = ([Fork], Return (-1)).
Proof.
  apply (spawn_fork_failure host_fork_fails "/bin/true" [3; 1]
           inherit_sigdef_sigign [] None); reflexivity.
Defined.

(** C5, for the value the code returns.  In wait-for-completion mode,
    when the process was created (the caller's [fork] returned its id)
    and the host's [waitpid] on that id stores status word [status],
    [spawnve] issues exactly one blocking [waitpid] (options 0) on the
    created process after creating it and returns [status] as stored,
    unchanged: the wait status word, not the exit status that
    [WEXITSTATUS] extracts from it.  [attr] is arbitrary. *)
Theorem spawnve_wait_returns_status h attr path argv envp child status :
  fork_ret h = child ->
  child <> 0 ->
  child <> -1 ->
  wait_status h child = Some status ->
  spawnve h attr P_WAIT path argv envp
  = ([Fork; Waitpid child 0], Return status).
Proof.
  intros Hfork Hnz Hne Hwait.
  apply c_true_spec in Hnz. apply Z.eqb_neq in Hne.
  unfold spawnve.
  change (mode_flags P_WAIT) with (Some 0).
  unfold spawn.
  change (c_true (Z.land (flags (set_flags 0 attr)) SPAWN_EXEC)) with false.
  cbv iota. rewrite Hfork, Hnz, Hne. simpl. now rewrite Hwait.
Qed.

Lemma spawnve_wait_returns_status_witness :
  spawnve parent_host inherit_sigdef_sigign P_WAIT "/bin/true" ["true"%string] None
  = ([Fork; Waitpid 4711 0], Return 768).
Proof.
  apply (spawnve_wait_returns_status parent_host inherit_sigdef_sigign
           "/bin/true" ["true"%string] None 4711 768);
    [reflexivity | lia | lia | reflexivity].
Defined.

(** C5 as the specification words it, the exit status as the result,
    does not hold: for the child 4711 of [parent_host], which exits with
    status 3, [waitpid] stores the word 0x0300 and [spawnve] returns 768,
    while the exit status of that word is 3. *)
Lemma spawnve_wait_not_exit_status :
  fork_ret parent_host = 4711
  /\ wait_status parent_host 4711 = Some (exit_status_word 3)
  /\ spawnve parent_host inherit_plain P_WAIT "/bin/true" [] None
     = ([Fork; Waitpid 4711 0], Return 768)
  /\ WEXITSTATUS 768 = 3
  /\ snd (spawnve parent_host inherit_plain P_WAIT "/bin/true" [] None)
     <> Return 3.
Proof.
  repeat split. vm_compute. discriminate.
Qed.

(** The other outcomes of the wait mode, for the record: a failed
    creation and a failed wait both give -1. *)
Example spawnve_wait_fork_failure :
  spawnve host_fork_fails inherit_plain P_WAIT "/bin/true" [] None
  = ([Fork], Return (-1)).
Proof. reflexivity. Qed.

Example spawnve_wait_failure :
  spawnve {| fork_ret := 12; execve_ok := true; wait_status := fun _ => None |}
          inherit_plain P_WAIT "/bin/true" [] None
  = ([Fork; Waitpid 12 0], Return (-1)).
Proof. reflexivity. Qed.

(** ** Time values *)

(** C6 (the code). [_qnx_gettimeofday] returns what the host call
    returned and leaves the caller's record as it was, whatever the host
    clock: at [clock_example] the caller still holds [when_example],
    which is not the host clock in the foreign layout. *)
Theorem qnx_gettimeofday_discards_clock :
  (forall clock when, _qnx_gettimeofday clock when = (0, when))
  /\ _qnx_gettimeofday clock_example when_example = (0, when_example)
  /\ snd (_qnx_gettimeofday clock_example when_example)
     <> timeval_in_foreign_layout clock_example.
Proof.
  split; [reflexivity|]. split; [reflexivity|].
  simpl. discriminate.
Qed.

(** ** File status *)

Lemma to_u64_small x : 0 <= x < 2 ^ 64 -> to_u64 x = x.
Proof. intros Hx. unfold to_u64. now apply Z.mod_small. Qed.

Lemma to_u32_small x : 0 <= x < 2 ^ 32 -> to_u32 x = x.
Proof. intros Hx. unfold to_u32. now apply Z.mod_small. Qed.

Lemma to_i32_small x : - 2 ^ 31 <= x < 2 ^ 31 -> to_i32 x = x.
Proof. intros Hx. unfold to_i32. rewrite Z.mod_small; lia. Qed.

(** Every member of the foreign record is assigned: the result does not
    depend on what the buffer held. *)
Lemma linux_stat_to_qnx_initializes l q q' :
  linux_stat_to_qnx l q = linux_stat_to_qnx l q'.
Proof. reflexivity. Qed.

(** C7 as stated fails.  On [stat_wide] the device number, the link
    count and the 32-bit modification time are not the host's values,
    and the foreign-only members [st_blocksize] and [st_nblocks] hold
    4096 and 8, not zero.  On the ordinary file [stat_example] the
    foreign-only members are not zero either. *)
Lemma linux_stat_to_qnx_not_exact :
  ~ preserved_and_zeroed stat_wide (linux_stat_to_qnx stat_wide qstat_junk)
  /\ st_dev (linux_stat_to_qnx stat_wide qstat_junk) = 2049
  /\ st_nlink (linux_stat_to_qnx stat_wide qstat_junk) = 1
  /\ __old_st_mtime (linux_stat_to_qnx stat_wide qstat_junk) = 4294967295
  /\ st_blocksize (linux_stat_to_qnx stat_wide qstat_junk) = 4096
  /\ st_nblocks (linux_stat_to_qnx stat_wide qstat_junk) = 8
  /\ ~ preserved_and_zeroed stat_example
        (linux_stat_to_qnx stat_example qstat_junk).
Proof.
  split.
  { unfold preserved_and_zeroed. intros (_ & H & _).
    vm_compute in H. discriminate. }
  repeat (split; [reflexivity|]).
  unfold preserved_and_zeroed.
  intros (_ & _ & _ & _ & _ & _ & _ & _ & _ & _ & _ & _ & H & _).
  vm_compute in H. discriminate.
Qed.

(** C7 (amended). For every host record whose members lie in their
    types: every member of the foreign record is assigned, so nothing
    depends on what the buffer held; inode, size, uid, gid and the three
    [timespec] timestamps are preserved exactly; device and link count
    are stored modulo 2^32 (exactly when below 2^32); the 32-bit time
    members hold the seconds modulo 2^32 (exactly when in that range);
    the foreign-only members [st_blocksize] and [st_nblocks] receive the
    host's [st_blksize] and [st_blocks] modulo 2^32, not zero. *)
Theorem linux_stat_to_qnx_fields (l : Host.stat) (q : qnx_stat) :
  host_stat_wf l ->
  let r := linux_stat_to_qnx l q in
  (forall q', linux_stat_to_qnx l q' = r)
  /\ st_ino r = Host.st_ino l
  /\ st_size r = Host.st_size l
  /\ st_uid r = Host.st_uid l /\ st_gid r = Host.st_gid l
  /\ st_mtim r = Host.st_mtim l /\ st_atim r = Host.st_atim l
  /\ st_ctim r = Host.st_ctim l
  /\ st_dev r = Host.st_dev l mod 2 ^ 32
  /\ (Host.st_dev l < 2 ^ 32 -> st_dev r = Host.st_dev l)
  /\ st_nlink r = Host.st_nlink l mod 2 ^ 32
  /\ (Host.st_nlink l < 2 ^ 32 -> st_nlink r = Host.st_nlink l)
  /\ __old_st_mtime r = Host.tv_sec (Host.st_mtim l) mod 2 ^ 32
  /\ __old_st_atime r = Host.tv_sec (Host.st_atim l) mod 2 ^ 32
  /\ __old_st_ctime r = Host.tv_sec (Host.st_ctim l) mod 2 ^ 32
  /\ (0 <= Host.tv_sec (Host.st_mtim l) < 2 ^ 32 ->
      __old_st_mtime r = Host.tv_sec (Host.st_mtim l))
  /\ st_blocksize r = Host.st_blksize l mod 2 ^ 32
  /\ st_nblocks r = Host.st_blocks l mod 2 ^ 32.
Proof.
  intros (Hdev & Hino & Hnlink & Hmode & Huid & Hgid & Hrdev & Hsize & _) r.
  subst r. simpl.
  repeat split; try reflexivity.
  - now apply to_u64_small.
  - apply to_u64_small. lia.
  - now apply to_u32_small.
  - now apply to_u32_small.
  - intros Hd. apply to_u32_small. lia.
  - intros Hn. apply to_u32_small. lia.
  - intros Ht. now apply to_u32_small.
Qed.

Lemma host_stat_wf_example : host_stat_wf stat_example.
Proof. unfold host_stat_wf. simpl. lia. Qed.

Lemma linux_stat_to_qnx_fields_witness :
  st_ino (linux_stat_to_qnx stat_example qstat_junk) = 1234
  /\ st_blocksize (linux_stat_to_qnx stat_example qstat_junk) = 4096.
Proof.
  pose proof (linux_stat_to_qnx_fields stat_example qstat_junk
                host_stat_wf_example) as H.
  split; [apply H|].
  destruct H
    as (_ & _ & _ & _ & _ & _ & _ & _ & _ & _ & _ & _ & _ & _ & _ & _ & H & _).
  exact H.
Defined.

Lemma guarded_body ret local buf :
  guarded (ret, local) buf
    (if ok_and_nonnull ret buf then (ret, linux_stat_to_qnx local <$> buf)
     else (ret, buf)).
Proof.
  unfold guarded, ok_and_nonnull, c_true. simpl.
  destruct (Z.eqb_spec ret 0) as [->|Hret]; simpl.
  - destruct buf as [q|]; simpl.
    + split; [reflexivity|]. split.
      * intros [?|?]; [contradiction|discriminate].
      * now intros q' _ [= ->].
    + split; [reflexivity|]. split; [reflexivity|]. discriminate.
  - split; [reflexivity|]. split; [reflexivity|]. contradiction.
Qed.

(** C10. Each of the four stat entry points returns what the host call
    returned; when that value is not zero, or the caller's pointer is
    null, the caller's record is exactly what it was; the transcoder's
    result is stored only when the host call returned zero and the
    pointer is not null. *)
Theorem stat_entry_points_guarded
    (host_stat host_lstat : string -> Z * Host.stat)
    (host_fstat : Z -> Z * Host.stat)
    (host_fstatat : Z -> string -> Z -> Z * Host.stat)
    (path : string) (fd fl : Z) (buf : option qnx_stat) :
  guarded (host_stat path) buf (_qnx_stat host_stat path buf)
  /\ guarded (host_lstat path) buf (_qnx_lstat host_lstat path buf)
  /\ guarded (host_fstat fd) buf (_qnx_fstat host_fstat fd buf)
  /\ guarded (host_fstatat fd path fl) buf
       (_qnx_fstatat host_fstatat fd path buf fl).
Proof.
  unfold _qnx_stat, _qnx_lstat, _qnx_fstat, _qnx_fstatat.
  destruct (host_stat path) as [r1 l1], (host_lstat path) as [r2 l2],
    (host_fstat fd) as [r3 l3], (host_fstatat fd path fl) as [r4 l4].
  repeat split; apply guarded_body.
Qed.

(** A failing host call leaves the caller's record alone; a successful
    one replaces it. *)
Lemma stat_entry_points_guarded_witness :
  snd (_qnx_stat failing_stat "/missing" (Some qstat_junk)) = Some qstat_junk
  /\ snd (_qnx_fstat failing_fstat 3 None) = None
  /\ snd (_qnx_stat working_stat "/etc/motd" (Some qstat_junk))
     = Some (linux_stat_to_qnx stat_example qstat_junk).
Proof.
  destruct (stat_entry_points_guarded failing_stat working_stat failing_fstat
              failing_fstatat "/missing" 3 0 (Some qstat_junk))
    as ((_ & Hfail & _) & _).
  destruct (stat_entry_points_guarded working_stat working_stat failing_fstat
              failing_fstatat "/etc/motd" 3 0 (Some qstat_junk))
    as ((_ & _ & Hok) & _).
  destruct (stat_entry_points_guarded failing_stat working_stat failing_fstat
              failing_fstatat "/missing" 3 0 None)
    as (_ & _ & (_ & Hnull & _) & _).
  split; [apply Hfail; left; simpl; lia|].
  split; [apply Hnull; now right|].
  apply Hok; reflexivity.
Defined.

(** ** Signal actions *)

Lemma split64 b0 b1 :
  0 <= b0 < 2 ^ 32 -> 0 <= b1 < 2 ^ 32 ->
  to_u64 (b0 + 2 ^ 32 * b1) = b0 + 2 ^ 32 * b1
  /\ to_u32 (b0 + 2 ^ 32 * b1) = b0
  /\ to_u32 ((b0 + 2 ^ 32 * b1) / 2 ^ 32) = b1.
Proof.
  intros H0 H1. split; [|split].
  - apply to_u64_small. lia.
  - unfold to_u32. rewrite (Z.mul_comm (2 ^ 32)), Z_mod_plus_full.
    now apply Z.mod_small.
  - rewrite (Z.mul_comm (2 ^ 32)), Z.div_add by lia.
    rewrite Z.div_small by lia. now apply to_u32_small.
Qed.

Lemma host_mask_load_store v m :
  (0 < length m)%nat -> host_mask_load64 (host_mask_store64 v m) = to_u64 v.
Proof.
  intros Hlen. unfold host_mask_load64, host_mask_store64.
  destruct m as [|w m]; [simpl in Hlen; lia|reflexivity].
Qed.

(** The 64-bit word is the two foreign words side by side, bit for bit. *)
Lemma qnx_mask_load64_bits m i :
  0 <= fst (__bits m) < 2 ^ 32 -> 0 <= snd (__bits m) < 2 ^ 32 ->
  0 <= i < 32 ->
  Z.testbit (qnx_mask_load64 m) i = Z.testbit (fst (__bits m)) i
  /\ Z.testbit (qnx_mask_load64 m) (i + 32) = Z.testbit (snd (__bits m)) i.
Proof.
  intros H0 H1 Hi. unfold qnx_mask_load64.
  destruct (split64 _ _ H0 H1) as (_ & Hlo & Hhi).
  unfold to_u32 in Hlo, Hhi. split.
  - rewrite <- Hlo at 2. now rewrite Z.mod_pow2_bits_low by lia.
  - rewrite <- Hhi at 2.
    rewrite Z.mod_pow2_bits_low by lia.
    rewrite Z.div_pow2_bits by lia. reflexivity.
Qed.

(** C8. For every foreign signal-action record (members in their C
    types) and whatever the two destination records held before:
    foreign-to-host stores the 64 bits of the foreign signal set,
    unchanged and in place, as the first 64-bit word of the host set and
    leaves the other words of the host set alone; host-to-foreign of the
    result gives back the original record: handler, flags and signal
    set. *)
Theorem sigaction_roundtrip (qnx_sa : qnx_sigaction)
    (linux_sa : Host.sigaction) (qnx_out : qnx_sigaction) :
  qnx_sigaction_wf qnx_sa ->
  (0 < length (Host.sa_mask linux_sa))%nat ->
  let l := qnx_sigaction_to_linux qnx_sa linux_sa in
  host_mask_load64 (Host.sa_mask l) = qnx_mask_load64 (sa_mask qnx_sa)
  /\ (forall i, 0 <= i < 32 ->
        Z.testbit (host_mask_load64 (Host.sa_mask l)) i
        = Z.testbit (fst (__bits (sa_mask qnx_sa))) i
        /\ Z.testbit (host_mask_load64 (Host.sa_mask l)) (i + 32)
           = Z.testbit (snd (__bits (sa_mask qnx_sa))) i)
  /\ drop 1 (Host.sa_mask l) = drop 1 (Host.sa_mask linux_sa)
  /\ Host.sa_handler l = sa_handler qnx_sa
  /\ Host.sa_flags l = sa_flags qnx_sa
  /\ linux_sigaction_to_qnx l qnx_out = qnx_sa.
Proof.
  intros (Hflags & H0 & H1) Hlen l.
  destruct (split64 _ _ H0 H1) as (H64 & Hlo & Hhi).
  assert (Hload : host_mask_load64 (Host.sa_mask l)
                  = qnx_mask_load64 (sa_mask qnx_sa)).
  { subst l. simpl. rewrite host_mask_load_store by exact Hlen. exact H64. }
  split; [exact Hload|]. split.
  { intros i Hi. rewrite Hload. now apply qnx_mask_load64_bits. }
  split.
  { subst l. simpl. unfold host_mask_store64.
    destruct (Host.sa_mask linux_sa); reflexivity. }
  split; [reflexivity|]. split.
  { subst l. simpl. now apply to_i32_small. }
  unfold linux_sigaction_to_qnx. rewrite Hload.
  subst l. simpl. rewrite !to_i32_small by (rewrite ?to_i32_small; lia).
  unfold qnx_mask_store64, qnx_mask_load64. rewrite Hlo, Hhi.
  destruct qnx_sa as [hd fl [[b0 b1]]]. reflexivity.
Qed.

Lemma sigaction_roundtrip_witness :
  linux_sigaction_to_qnx (qnx_sigaction_to_linux qnx_sa_example host_sa_junk)
    qnx_sa_junk = qnx_sa_example.
Proof.
  apply (sigaction_roundtrip qnx_sa_example host_sa_junk qnx_sa_junk).
  - unfold qnx_sigaction_wf. simpl. lia.
  - simpl. lia.
Defined.

(** ** Directory entries *)

(** *** Byte sequences *)

Lemma length_le_encode n v : length (le_encode n v) = n.
Proof. revert v. induction n as [|n IH]; intros v; simpl; auto. Qed.

Lemma pow_bytes_succ n :
  2 ^ (8 * Z.of_nat (S n)) = 256 * 2 ^ (8 * Z.of_nat n).
Proof.
  rewrite Nat2Z.inj_succ, Z.mul_succ_r, Z.pow_add_r by lia.
  change (2 ^ 8) with 256. lia.
Qed.

Lemma le_decode_encode n v :
  le_decode (le_encode n v) = v mod 2 ^ (8 * Z.of_nat n).
Proof.
  revert v. induction n as [|n IH]; intros v.
  - simpl. now rewrite Z.mod_1_r.
  - rewrite pow_bytes_succ. simpl le_encode. unfold le_decode in *. simpl.
    rewrite IH. symmetry. apply Z.rem_mul_r; [lia|].
    apply Z.pow_pos_nonneg; lia.
Qed.

Lemma le_decode_range bs :
  Forall (fun b => 0 <= b < 256) bs ->
  0 <= le_decode bs < 2 ^ (8 * Z.of_nat (length bs)).
Proof.
  induction 1 as [|b bs Hb _ IH].
  - simpl. lia.
  - rewrite length_cons, pow_bytes_succ. unfold le_decode in *. simpl. lia.
Qed.

Lemma drop_inserts {A} off (k m : list A) :
  (off + length k <= length m)%nat ->
  drop off (list_inserts off k m) = k ++ drop (off + length k) m.
Proof.
  intros Hlen. apply list_eq; intros i. rewrite lookup_drop.
  destruct (decide (i < length k)%nat) as [Hi|Hi].
  - rewrite list_lookup_inserts, lookup_app_l by lia. f_equal. lia.
  - rewrite list_lookup_inserts_ge, lookup_app_r, lookup_drop by lia.
    f_equal. lia.
Qed.

Lemma slice_inserts_same {A} off (k m : list A) :
  (off + length k <= length m)%nat ->
  take (length k) (drop off (list_inserts off k m)) = k.
Proof. intros Hlen. rewrite drop_inserts by exact Hlen. apply take_app_length. Qed.

Lemma slice_inserts_other {A} off (k m : list A) off' n :
  (off' + n <= off \/ off + length k <= off')%nat ->
  take n (drop off' (list_inserts off k m)) = take n (drop off' m).
Proof.
  intros Hdisj. apply list_eq; intros i. rewrite !lookup_take.
  case_decide; [|reflexivity]. rewrite !lookup_drop.
  destruct Hdisj; [apply list_lookup_inserts_lt|apply list_lookup_inserts_ge]; lia.
Qed.

(** *** Loads and stores *)

Lemma load_store_same n off v m :
  (off + n <= length m)%nat ->
  load_le n off (store_le n off v m) = v mod 2 ^ (8 * Z.of_nat n).
Proof.
  intros Hlen. unfold load_le, store_le.
  rewrite <- (length_le_encode n v) at 1.
  rewrite slice_inserts_same by (rewrite length_le_encode; exact Hlen).
  apply le_decode_encode.
Qed.

Lemma load_store_other n off v m n' off' :
  (off' + n' <= off \/ off + n <= off')%nat ->
  load_le n' off' (store_le n off v m) = load_le n' off' m.
Proof.
  intros Hdisj. unfold load_le, store_le.
  now rewrite slice_inserts_other by (rewrite length_le_encode; exact Hdisj).
Qed.

Lemma load_strcpy_before n off off' src m :
  (off + n <= off')%nat ->
  load_le n off (strcpy off' src m) = load_le n off m.
Proof.
  intros Hb. unfold load_le, strcpy.
  now rewrite slice_inserts_other by (left; exact Hb).
Qed.

Lemma load_take n off k m :
  (off + n <= k)%nat -> load_le n off (take k m) = load_le n off m.
Proof.
  intros Hk. unfold load_le.
  rewrite !take_drop_commute, take_take. do 3 f_equal. lia.
Qed.

Lemma load_range n off m :
  Forall (fun b => 0 <= b < 256) m ->
  0 <= load_le n off m < 2 ^ (8 * Z.of_nat n).
Proof.
  intros Hm. unfold load_le.
  assert (Hs : Forall (fun b => 0 <= b < 256) (take n (drop off m)))
    by now apply Forall_take, Forall_drop.
  pose proof (le_decode_range _ Hs) as Hr.
  assert (2 ^ (8 * Z.of_nat (length (take n (drop off m))))
          <= 2 ^ (8 * Z.of_nat n)).
  { apply Z.pow_le_mono_r; [lia|]. rewrite length_take. lia. }
  lia.
Qed.

Lemma length_store_le n off v m : length (store_le n off v m) = length m.
Proof. apply length_inserts. Qed.

Lemma length_strcpy off src m : length (strcpy off src m) = length m.
Proof. apply length_inserts. Qed.

(** *** C strings *)

Lemma c_string_nonzero bs : Forall (fun b => b <> 0) (c_string bs).
Proof.
  induction bs as [|b bs IH]; simpl; [constructor|].
  destruct (Z.eqb_spec b 0); constructor; assumption.
Qed.

Lemma c_string_terminated s rest :
  Forall (fun b => b <> 0) s -> c_string (s ++ 0 :: rest) = s.
Proof.
  induction 1 as [|b s Hb _ IH]; simpl; [reflexivity|].
  apply Z.eqb_neq in Hb. now rewrite Hb, IH.
Qed.

Lemma c_string_take k bs :
  (length (c_string bs) < k)%nat -> c_string (take k bs) = c_string bs.
Proof.
  revert k. induction bs as [|b bs IH]; intros k Hk.
  - now rewrite take_nil.
  - destruct k as [|k]; [lia|]. simpl in *.
    destruct (b =? 0); [reflexivity|].
    simpl in Hk. f_equal. apply IH. lia.
Qed.

Lemma c_string_strcpy off src m :
  (off + length (c_string src) + 1 <= length m)%nat ->
  c_string (drop off (strcpy off src m)) = c_string src.
Proof.
  intros Hlen. unfold strcpy.
  rewrite drop_inserts by (rewrite length_app; simpl; lia).
  rewrite <- app_assoc. simpl.
  apply c_string_terminated, c_string_nonzero.
Qed.

(** *** Conversions *)

Lemma to_u64_to_i64 x : to_u64 (to_i64 x) = to_u64 x.
Proof.
  unfold to_u64, to_i64.
  rewrite (Z.mod_eq (x + 2 ^ 63) (2 ^ 64)) by lia.
  replace (x + 2 ^ 63 - 2 ^ 64 * ((x + 2 ^ 63) / 2 ^ 64) - 2 ^ 63)
    with (x + (- ((x + 2 ^ 63) / 2 ^ 64)) * 2 ^ 64) by lia.
  apply Z_mod_plus_full.
Qed.

Lemma to_i64_range x : - 2 ^ 63 <= to_i64 x < 2 ^ 63.
Proof.
  unfold to_i64. pose proof (Z.mod_pos_bound (x + 2 ^ 63) (2 ^ 64)). lia.
Qed.

Lemma to_i16_small x : - 2 ^ 15 <= x < 2 ^ 15 -> to_i16 x = x.
Proof. intros Hx. unfold to_i16. rewrite Z.mod_small; lia. Qed.

Lemma to_i16_mod x : to_i16 x mod 2 ^ 16 = x mod 2 ^ 16.
Proof.
  unfold to_i16.
  rewrite (Z.mod_eq (x + 2 ^ 15) (2 ^ 16)) by lia.
  replace (x + 2 ^ 15 - 2 ^ 16 * ((x + 2 ^ 15) / 2 ^ 16) - 2 ^ 15)
    with (x + (- ((x + 2 ^ 15) / 2 ^ 16)) * 2 ^ 16) by lia.
  apply Z_mod_plus_full.
Qed.

(** The local copy holds the host record. *)
Lemma dirent_at_local m :
  dirent_wf m -> dirent_at (take sizeof_dirent m) = dirent_at m.
Proof.
  intros (Hlen & _ & Hname). unfold dirent_at.
  rewrite !load_take by (unfold sizeof_dirent, off_d_ino, off_d_off,
                           off_d_reclen, off_d_type; lia).
  f_equal.
  rewrite <- (c_string_take 261 (drop off_d_name m)) by lia.
  f_equal. rewrite take_drop_commute. reflexivity.
Qed.

Lemma c_string_local m :
  dirent_wf m ->
  c_string (drop off_d_name (take sizeof_dirent m))
  = c_string (drop off_d_name m).
Proof.
  intros Hwf. pose proof (dirent_at_local m Hwf) as Heq.
  apply (f_equal Host.d_name) in Heq. exact Heq.
Qed.

Ltac unfold_offsets :=
  unfold qnx_off_d_ino, qnx_off_d_offset, qnx_off_d_reclen,
    qnx_off_d_namelen, qnx_off_d_name, off_d_ino, off_d_off, off_d_reclen,
    off_d_type, off_d_name, sizeof_dirent in *.

(** Read a field back through the stores that followed its own. *)
Ltac read_back :=
  rewrite ?load_strcpy_before by lia;
  rewrite ?load_store_other by lia;
  rewrite load_store_same by (rewrite ?length_store_le; lia).

(** Within one record the local copy does its work.  For every host
    directory entry handed out by [readdir] (a full
    [struct dirent] of bytes whose name is terminated inside [d_name]),
    [_qnx_readdir] returns the same buffer, and the foreign record found
    there has the inode, offset, record length and name of the host
    record that occupied it and the length of that name as name length,
    although the foreign [d_namelen] and [d_name] lie over the host
    [d_type] and [d_name]: every value stored was taken from the copy
    made before the first store, so the buffer is the one obtained by
    decoding the host record first and writing the foreign layout
    afterwards.  Offset and record length keep their
    bit pattern; read as the foreign types (unsigned 64 bit, signed 16
    bit) they are the host values whenever those are representable. *)
Theorem qnx_readdir_fields (m : list Z) :
  dirent_wf m ->
  exists new,
    _qnx_readdir (Some m) = Some new
    /\ length new = length m
    /\ d_ino (qnx_dirent_at new) = Host.d_ino (dirent_at m)
    /\ d_offset (qnx_dirent_at new) = to_u64 (Host.d_off (dirent_at m))
    /\ (0 <= Host.d_off (dirent_at m) ->
        d_offset (qnx_dirent_at new) = Host.d_off (dirent_at m))
    /\ d_reclen (qnx_dirent_at new) = to_i16 (Host.d_reclen (dirent_at m))
    /\ (Host.d_reclen (dirent_at m) < 2 ^ 15 ->
        d_reclen (qnx_dirent_at new) = Host.d_reclen (dirent_at m))
    /\ d_namelen (qnx_dirent_at new)
       = Z.of_nat (length (Host.d_name (dirent_at m)))
    /\ d_name (qnx_dirent_at new) = Host.d_name (dirent_at m)
    /\ new = write_qnx_dirent (dirent_at m) m.
Proof.
  intros Hwf. pose proof Hwf as (Hlen & Hbytes & Hname).
  eexists. split; [reflexivity|].
  rewrite (dirent_at_local m Hwf). unfold strlen.
  rewrite (c_string_local m Hwf).
  set (name := c_string (drop off_d_name m)) in *.
  pose proof (load_range 8 0 m Hbytes) as Hino.
  pose proof (load_range 8 8 m Hbytes) as Hoff.
  pose proof (load_range 2 16 m Hbytes) as Hrec.
  change (2 ^ (8 * Z.of_nat 8)) with (2 ^ 64) in *.
  change (2 ^ (8 * Z.of_nat 2)) with (2 ^ 16) in *.
  assert (Hd_off : d_offset (qnx_dirent_at
            (strcpy qnx_off_d_name (drop off_d_name (take sizeof_dirent m))
               (store_le 2 qnx_off_d_namelen (to_i16 (Z.of_nat (length name)))
                  (store_le 2 qnx_off_d_reclen
                     (to_i16 (Host.d_reclen (dirent_at m)))
                     (store_le 8 qnx_off_d_offset
                        (to_u64 (Host.d_off (dirent_at m)))
                        (store_le 8 qnx_off_d_ino
                           (to_u64 (Host.d_ino (dirent_at m))) m))))))
          = to_u64 (Host.d_off (dirent_at m))).
  { unfold qnx_dirent_at, dirent_at. cbn [d_offset Host.d_off].
    unfold_offsets. read_back.
    change (2 ^ (8 * Z.of_nat 8)) with (2 ^ 64).
    unfold to_u64. apply Z.mod_mod. lia. }
  assert (Hd_rec : d_reclen (qnx_dirent_at
            (strcpy qnx_off_d_name (drop off_d_name (take sizeof_dirent m))
               (store_le 2 qnx_off_d_namelen (to_i16 (Z.of_nat (length name)))
                  (store_le 2 qnx_off_d_reclen
                     (to_i16 (Host.d_reclen (dirent_at m)))
                     (store_le 8 qnx_off_d_offset
                        (to_u64 (Host.d_off (dirent_at m)))
                        (store_le 8 qnx_off_d_ino
                           (to_u64 (Host.d_ino (dirent_at m))) m))))))
          = to_i16 (Host.d_reclen (dirent_at m))).
  { unfold qnx_dirent_at, dirent_at. cbn [d_reclen Host.d_reclen].
    unfold_offsets. read_back.
    change (2 ^ (8 * Z.of_nat 2)) with (2 ^ 16).
    rewrite to_i16_mod, Z.mod_small by lia. reflexivity. }
  split; [|split; [|split; [exact Hd_off|split; [|split; [exact Hd_rec|split;
    [|split; [|split]]]]]]].
  - rewrite length_strcpy, !length_store_le. reflexivity.
  - unfold qnx_dirent_at, dirent_at. cbn [d_ino Host.d_ino].
    unfold_offsets. read_back.
    change (2 ^ (8 * Z.of_nat 8)) with (2 ^ 64).
    unfold to_u64. rewrite Z.mod_mod by lia. now apply Z.mod_small.
  - intros Hnn. rewrite Hd_off. apply to_u64_small. split; [exact Hnn|].
    unfold dirent_at. cbn [Host.d_off].
    pose proof (to_i64_range (load_le 8 off_d_off m)). lia.
  - intros Hsmall. rewrite Hd_rec. apply to_i16_small.
    unfold dirent_at in *. cbn [Host.d_reclen] in *. unfold_offsets. lia.
  - unfold qnx_dirent_at, dirent_at. cbn [d_namelen Host.d_name].
    fold name. unfold_offsets. read_back.
    change (2 ^ (8 * Z.of_nat 2)) with (2 ^ 16).
    rewrite to_i16_mod, Z.mod_small by lia. apply to_i16_small. lia.
  - unfold qnx_dirent_at, dirent_at. cbn [d_name Host.d_name].
    rewrite c_string_strcpy; [exact (c_string_local m Hwf)|].
    rewrite !length_store_le, (c_string_local m Hwf). fold name.
    unfold_offsets. lia.
  - unfold write_qnx_dirent, strcpy. rewrite (c_string_local m Hwf).
    reflexivity.
Qed.

Lemma dirent_example_wf : dirent_wf dirent_example.
Proof.
  unfold dirent_wf. split; [vm_compute; lia|]. split.
  - apply (bool_decide_unpack _). vm_compute. exact I.
  - vm_compute. lia.
Qed.

Lemma qnx_readdir_fields_witness :
  exists new,
    _qnx_readdir (Some dirent_example) = Some new
    /\ d_ino (qnx_dirent_at new) = 1234
    /\ d_name (qnx_dirent_at new) = [97; 98].
Proof.
  destruct (qnx_readdir_fields dirent_example dirent_example_wf)
    as (new & Hnew & _ & Hino & _ & _ & _ & _ & _ & Hnm & _).
  exists new. split; [exact Hnew|]. split.
  - rewrite Hino. reflexivity.
  - rewrite Hnm. reflexivity.
Defined.

(** The copy matters: the foreign [d_namelen] is stored over the first
    byte of the host name, so reading the name from the shared buffer
    after that store finds the empty string. *)
Example readdir_without_copy_loses_name :
  d_name (qnx_dirent_at (readdir_without_copy dirent_example)) = []
  /\ (exists new, _qnx_readdir (Some dirent_example) = Some new
                  /\ d_name (qnx_dirent_at new) = [97; 98]).
Proof.
  split; [vm_compute; reflexivity|].
  eexists. split; [reflexivity|]. vm_compute. reflexivity.
Qed.

(** The foreign name starts one byte later than the host name (offset
    20 instead of 19), so its terminator is stored one byte later than
    the host's: at offset 20 + L for a name of L characters.  The kernel
    packs the records with [d_reclen] = 19 + L + 1 rounded up to a
    multiple of 8; when that sum is a multiple of 8 already the byte at
    20 + L is the first byte of the next record. *)
Lemma qnx_readdir_terminator m :
  dirent_wf m ->
  exists new,
    _qnx_readdir (Some m) = Some new
    /\ new !! (qnx_off_d_name + length (Host.d_name (dirent_at m)))%nat
       = Some 0.
Proof.
  intros Hwf. pose proof Hwf as (Hlen & Hbytes & Hname).
  eexists. split; [reflexivity|].
  unfold strcpy. rewrite (c_string_local m Hwf).
  unfold dirent_at at 1. cbn [Host.d_name].
  set (name := c_string (drop off_d_name m)) in *.
  rewrite list_lookup_inserts.
  - replace (qnx_off_d_name + length name - qnx_off_d_name)%nat
      with (length name) by lia.
    rewrite lookup_app_r by lia. now rewrite Nat.sub_diag.
  - rewrite length_app. cbn [length]. lia.
  - rewrite !length_store_le. revert Hlen. unfold_offsets. lia.
Qed.

Lemma dirents_packed_wf : dirent_wf dirents_packed.
Proof.
  unfold dirent_wf. split; [vm_compute; lia|]. split.
  - apply (bool_decide_unpack _). vm_compute. exact I.
  - vm_compute. lia.
Qed.

(** C9 fails across records.  In [dirents_packed] the host record "abcd"
    has record length 24 = 20 + 4, and the record "efgh" with inode
    6103062 starts at offset 24.  The call for the first record returns
    its fields and its name, and stores the terminator of the foreign
    name at offset 24: the lowest byte of the inode of the next host
    record, which has not been read yet.  The host's next [readdir]
    returns the pointer 24 bytes further on, where the host record now
    holds inode 6103040, and the call for it reports 6103040: a host
    field is read after a foreign field was stored over it, and the
    foreign inode is not the one the host put in the buffer. *)
Theorem qnx_readdir_damages_next_record :
  dirent_wf dirents_packed
  /\ Host.d_name (dirent_at dirents_packed) = [97; 98; 99; 100]
  /\ Host.d_reclen (dirent_at dirents_packed) = 24
  /\ dirent_wf (drop 24 dirents_packed)
  /\ Host.d_ino (dirent_at (drop 24 dirents_packed)) = 6103062
  /\ exists new,
       _qnx_readdir (Some dirents_packed) = Some new
       /\ d_ino (qnx_dirent_at new) = 1234
       /\ d_name (qnx_dirent_at new) = [97; 98; 99; 100]
       /\ dirents_packed !! 24%nat = Some 22
       /\ new !! 24%nat = Some 0
       /\ Host.d_ino (dirent_at (drop 24 new)) = 6103040
       /\ Host.d_name (dirent_at (drop 24 new)) = [101; 102; 103; 104]
       /\ exists new2,
            _qnx_readdir (Some (drop 24 new)) = Some new2
            /\ d_name (qnx_dirent_at new2) = [101; 102; 103; 104]
            /\ d_ino (qnx_dirent_at new2) = 6103040
            /\ d_ino (qnx_dirent_at new2)
               <> Host.d_ino (dirent_at (drop 24 dirents_packed)).
Proof.
  split; [exact dirents_packed_wf|].
  split; [vm_compute; reflexivity|].
  split; [vm_compute; reflexivity|].
  split.
  { unfold dirent_wf. split; [vm_compute; lia|]. split.
    - apply (bool_decide_unpack _). vm_compute. exact I.
    - vm_compute. lia. }
  split; [vm_compute; reflexivity|].
  eexists. split; [reflexivity|].
  do 6 (split; [vm_compute; reflexivity|]).
  eexists. split; [reflexivity|].
  split; [vm_compute; reflexivity|].
  split; [vm_compute; reflexivity|].
  vm_compute. discriminate.
Qed.

(** * Further properties *)

(** ** spawn: order of the steps *)

Lemma banded_nil lo hi : banded lo hi [].
Proof. split; constructor. Qed.

Lemma banded_const r l :
  Forall (fun c => step_rank c = r) l -> banded r r l.
Proof.
  intros Hall. split.
  - induction Hall as [|c l Hc Hl IH]; constructor; [exact IH|].
    eapply Forall_impl; [exact Hl|]. simpl. intros c' Hc'. lia.
  - eapply Forall_impl; [exact Hall|]. simpl. intros c' Hc'. lia.
Qed.

Lemma banded_weaken lo hi lo' hi' l :
  (lo' <= lo)%nat -> (hi <= hi')%nat -> banded lo hi l -> banded lo' hi' l.
Proof.
  intros Hlo Hhi [Hs Hb]. split; [exact Hs|].
  eapply Forall_impl; [exact Hb|]. simpl. intros c Hc. lia.
Qed.

Lemma banded_app lo mid hi l1 l2 :
  (lo <= mid <= hi)%nat ->
  banded lo mid l1 -> banded mid hi l2 -> banded lo hi (l1 ++ l2).
Proof.
  intros Hmid [Hs1 Hb1] [Hs2 Hb2]. split.
  - apply StronglySorted_app_2; [|exact Hs1|exact Hs2].
    intros x1 x2 H1 H2.
    rewrite Forall_forall in Hb1, Hb2.
    specialize (Hb1 x1 H1). specialize (Hb2 x2 H2). simpl in *. lia.
  - apply Forall_app. split.
    + eapply Forall_impl; [exact Hb1|]. simpl. intros c Hc. lia.
    + eapply Forall_impl; [exact Hb2|]. simpl. intros c Hc. lia.
Qed.

Lemma banded_c_if lo hi c calls :
  banded lo hi calls -> banded lo hi (c_if c calls).
Proof. intros Hb. unfold c_if. destruct (c_true c); auto using banded_nil. Qed.

Lemma banded_one c : banded (step_rank c) (step_rank c) [c].
Proof. apply banded_const. constructor; [reflexivity|constructor]. Qed.

Lemma signal_pass_rank set h :
  Forall (fun c => step_rank c = step_rank (Signal 0 h)) (signal_pass set h).
Proof.
  unfold signal_pass. apply Forall_forall. intros c Hc.
  apply list_elem_of_In, in_flat_map in Hc as (i & _ & Hc).
  unfold c_if in Hc. destruct (c_true (sigismember set i)); [|contradiction].
  destruct Hc as [<-|[]]. reflexivity.
Qed.

Lemma keep_fd_rank fd_map :
  Forall (fun c => step_rank c = 7%nat) (keep_fd fd_map).
Proof.
  unfold keep_fd. apply Forall_forall. intros c Hc.
  apply list_elem_of_In, in_flat_map in Hc as ([i fd] & _ & Hc).
  destruct (fd =? Z.of_nat i); [contradiction|].
  destruct Hc as [<-|[<-|[]]]; reflexivity.
Qed.

Lemma child_setup_banded fd_map inherit :
  banded 1 7 (child_setup fd_map inherit).
Proof.
  unfold child_setup.
  apply (banded_app 1 1 7); [lia|apply banded_c_if, (banded_one (Setpgid 0 _))|].
  apply (banded_app 1 2 7); [lia| |].
  { apply banded_c_if, (banded_weaken 2 2); [lia|lia|].
    apply (banded_one (Sigprocmask_SETMASK _)). }
  apply (banded_app 2 3 7); [lia| |].
  { apply banded_c_if, (banded_weaken 3 3); [lia|lia|].
    apply (banded_one Setsid). }
  apply (banded_app 3 4 7); [lia| |].
  { apply banded_c_if, (banded_weaken 4 4); [lia|lia|].
    apply (banded_one (Setrlimit_STACK _ _)). }
  apply (banded_app 4 5 7); [lia| |].
  { apply banded_c_if, (banded_weaken 5 5); [lia|lia|].
    apply banded_const, (signal_pass_rank _ SIG_DFL). }
  apply (banded_app 5 6 7); [lia| |].
  { apply banded_c_if, (banded_weaken 6 6); [lia|lia|].
    apply banded_const, (signal_pass_rank _ SIG_IGN). }
  apply (banded_weaken 7 7); [lia|lia|].
  apply banded_const, keep_fd_rank.
Qed.

Lemma spawn_banded h path fd_map inherit argv envp :
  banded 0 8 (fst (spawn h path fd_map inherit argv envp)).
Proof.
  assert (Hfork : forall forked, forked = [] \/ forked = [Fork] ->
            banded 0 0 forked).
  { intros ? [->| ->]; [apply banded_nil|apply (banded_one Fork)]. }
  assert (Hchild : forall forked, forked = [] \/ forked = [Fork] ->
            banded 0 8 (forked ++ child_setup fd_map inherit
                               ++ [Execve path argv envp])).
  { intros forked Hf. apply (banded_app 0 0 8); [lia|auto|].
    apply (banded_app 0 7 8); [lia| |].
    - eapply banded_weaken; [| |apply child_setup_banded]; lia.
    - apply (banded_weaken 8 8); [lia|lia|]. apply (banded_one (Execve _ _ _)). }
  unfold spawn.
  destruct (c_true (Z.land (flags inherit) SPAWN_EXEC)).
  - simpl. destruct (execve_ok h); simpl; apply (Hchild []); auto.
  - destruct (c_true (fork_ret h)); simpl.
    + apply (banded_weaken 0 0); [lia|lia|]. apply Hfork. auto.
    + destruct (execve_ok h); simpl; apply (Hchild [Fork]); auto.
Qed.

(** X1. The host calls of [spawn] and of [spawnve] are issued in the order
    of the steps: fork; process group; signal mask; session; stack
    limit; default dispositions; ignored dispositions; descriptor
    remapping; image replacement; wait.  No call of a later step comes
    before a call of an earlier one, for any input and any host. *)
Theorem spawn_steps_in_order h attr mode path fd_map inherit argv envp :
  in_step_order (fst (spawn h path fd_map inherit argv envp))
  /\ in_step_order (fst (spawnve h attr mode path argv envp)).
Proof.
  split; [apply spawn_banded|].
  unfold spawnve. destruct (mode_flags mode) as [fl|]; [|constructor].
  pose proof (spawn_banded h path [] (set_flags fl attr) argv envp) as Hb.
  destruct (spawn h path [] (set_flags fl attr) argv envp) as [calls e].
  simpl in Hb.
  assert (Hw : forall pid, in_step_order (calls ++ [Waitpid pid 0])).
  { intros pid. apply (banded_app 0 8 9 calls [Waitpid pid 0]); [lia|exact Hb|].
    apply (banded_weaken 9 9); [lia|lia|]. apply (banded_one (Waitpid _ _)). }
  destruct e as [pid| |]; simpl; try apply Hb.
  destruct (negb (pid =? -1) && (mode =? P_WAIT)); [|apply Hb].
  destruct (wait_status h pid); simpl; apply Hw.
Qed.

(** With both the process-group and the session flag set, [setpgid] is
    issued before [setsid] on the child path. *)
Example spawn_group_then_session :
  fst (spawn child_host "/bin/true" [] inherit_all_steps [] None)
  = [Fork; Setpgid 0 77; Sigprocmask_SETMASK [5]; Setsid;
     Setrlimit_STACK (RLIM 65536) RLIM_INFINITY;
     Signal 2 SIG_DFL; Signal 15 SIG_IGN; Execve "/bin/true" [] None].
Proof. reflexivity. Qed.

(** ** spawn: what is read from the inheritance record *)

Lemma tested_bit f1 f2 b :
  Z.land spawn_tested_flags b = b ->
  Z.land f1 spawn_tested_flags = Z.land f2 spawn_tested_flags ->
  Z.land f1 b = Z.land f2 b.
Proof.
  intros Hb Hf. rewrite <- Hb, !Z.land_assoc, Hf. reflexivity.
Qed.

Lemma c_if_congr c calls calls' :
  (c <> 0 -> calls = calls') -> c_if c calls = c_if c calls'.
Proof.
  intros Heq. unfold c_if. destruct (c_true c) eqn:Hc; [|reflexivity].
  apply Heq. now apply c_true_spec.
Qed.

Lemma spawn_governed h path fd_map i1 i2 argv envp :
  Z.land (flags i1) spawn_tested_flags = Z.land (flags i2) spawn_tested_flags ->
  (Z.land (flags i1) SPAWN_SETGROUP <> 0 -> pgroup i1 = pgroup i2) ->
  (Z.land (flags i1) SPAWN_SETSIGMASK <> 0 -> sigmask i1 = sigmask i2) ->
  (Z.land (flags i1) SPAWN_SETSTACKMAX <> 0 -> stack_max i1 = stack_max i2) ->
  (Z.land (flags i1) SPAWN_SETSIGDEF <> 0 -> sigdefault i1 = sigdefault i2) ->
  (Z.land (flags i1) SPAWN_SETSIGIGN <> 0 -> sigignore i1 = sigignore i2) ->
  spawn h path fd_map i1 argv envp = spawn h path fd_map i2 argv envp.
Proof.
  intros Hf Hpg Hsm Hst Hsd Hsi.
  assert (Hsetup : child_setup fd_map i1 = child_setup fd_map i2).
  { unfold child_setup.
    rewrite <- (tested_bit (flags i1) (flags i2) SPAWN_SETGROUP eq_refl Hf).
    rewrite <- (tested_bit (flags i1) (flags i2) SPAWN_SETSIGMASK eq_refl Hf).
    rewrite <- (tested_bit (flags i1) (flags i2) SPAWN_SETSID eq_refl Hf).
    rewrite <- (tested_bit (flags i1) (flags i2) SPAWN_SETSTACKMAX eq_refl Hf).
    rewrite <- (tested_bit (flags i1) (flags i2) SPAWN_SETSIGDEF eq_refl Hf).
    rewrite <- (tested_bit (flags i1) (flags i2) SPAWN_SETSIGIGN eq_refl Hf).
    rewrite (c_if_congr _ [Setpgid 0 (pgroup i1)] [Setpgid 0 (pgroup i2)])
      by (intros Hc; now rewrite Hpg).
    rewrite (c_if_congr _ [Sigprocmask_SETMASK (sigmask i1)]
               [Sigprocmask_SETMASK (sigmask i2)])
      by (intros Hc; now rewrite Hsm).
    rewrite (c_if_congr _ [Setrlimit_STACK (RLIM (stack_max i1)) RLIM_INFINITY]
               [Setrlimit_STACK (RLIM (stack_max i2)) RLIM_INFINITY])
      by (intros Hc; now rewrite Hst).
    rewrite (c_if_congr _ (signal_pass (sigdefault i1) SIG_DFL)
               (signal_pass (sigdefault i2) SIG_DFL))
      by (intros Hc; now rewrite Hsd).
    rewrite (c_if_congr _ (signal_pass (sigignore i1) SIG_IGN)
               (signal_pass (sigignore i2) SIG_IGN))
      by (intros Hc; now rewrite Hsi).
    reflexivity. }
  unfold spawn.
  rewrite <- (tested_bit (flags i1) (flags i2) SPAWN_EXEC eq_refl Hf), Hsetup.
  reflexivity.
Qed.

(** X2. [spawn] looks at seven flag bits and reads a payload member only
    when its governing bit is set: two inheritance records that agree on
    those bits and on the governed members give the same calls and the
    same ending, whatever their other bits (no-zombie, scheduling,
    partition, alignment, debug, ...) and other members hold. *)
Theorem spawn_ignores_ungoverned h path fd_map i1 i2 argv envp :
  Z.land (flags i1) spawn_tested_flags = Z.land (flags i2) spawn_tested_flags ->
  (Z.land (flags i1) SPAWN_SETGROUP <> 0 -> pgroup i1 = pgroup i2) ->
  (Z.land (flags i1) SPAWN_SETSIGMASK <> 0 -> sigmask i1 = sigmask i2) ->
  (Z.land (flags i1) SPAWN_SETSTACKMAX <> 0 -> stack_max i1 = stack_max i2) ->
  (Z.land (flags i1) SPAWN_SETSIGDEF <> 0 -> sigdefault i1 = sigdefault i2) ->
  (Z.land (flags i1) SPAWN_SETSIGIGN <> 0 -> sigignore i1 = sigignore i2) ->
  spawn h path fd_map i1 argv envp = spawn h path fd_map i2 argv envp.
Proof. apply spawn_governed. Qed.

Lemma spawn_ignores_ungoverned_witness :
  spawn child_host "/bin/true" [5; 6] inherit_all_steps [] None
  = spawn child_host "/bin/true" [5; 6] inherit_same_steps [] None.
Proof.
  apply (spawn_ignores_ungoverned child_host "/bin/true" [5; 6]
           inherit_all_steps inherit_same_steps [] None);
    try reflexivity; intros _; reflexivity.
Defined.

(** ** spawnve: the modes *)

Lemma mode_flags_cases mode fl :
  mode_flags mode = Some fl -> fl = 0 \/ fl = SPAWN_EXEC \/ fl = SPAWN_NOZOMBIE.
Proof.
  unfold mode_flags.
  destruct ((mode =? P_WAIT) || (mode =? P_NOWAIT)); [intros [= <-]; auto|].
  destruct (mode =? P_OVERLAY); [intros [= <-]; auto|].
  destruct (mode =? P_NOWAITO); [intros [= <-]; auto|discriminate].
Qed.

Lemma spawn_mode_flags h path fd_map fl attr attr' argv envp :
  fl = 0 \/ fl = SPAWN_EXEC \/ fl = SPAWN_NOZOMBIE ->
  spawn h path fd_map (set_flags fl attr) argv envp
  = spawn h path fd_map (set_flags fl attr') argv envp.
Proof.
  intros Hfl. apply spawn_governed; [reflexivity|..]; simpl;
    destruct Hfl as [->|[->| ->]]; intros Hc; now contradiction Hc.
Qed.

(** X5. A mode other than P_WAIT, P_NOWAIT, P_OVERLAY and P_NOWAITO is
    refused with -1 before any host call: nothing is forked, executed or
    waited for.  [spawnv] does the same. *)
Theorem spawnve_invalid_mode h attr mode path argv envp :
  mode < 0 \/ 3 < mode ->
  spawnve h attr mode path argv envp = ([], Return (-1))
  /\ spawnv h attr mode path argv = ([], Return (-1)).
Proof.
  intros Hmode. unfold spawnv, spawnve, mode_flags, P_WAIT, P_NOWAIT,
    P_OVERLAY, P_NOWAITO.
  assert ((mode =? 0) = false) as -> by lia.
  assert ((mode =? 1) = false) as -> by lia.
  assert ((mode =? 2) = false) as -> by lia.
  assert ((mode =? 3) = false) as -> by lia.
  split; reflexivity.
Qed.

Lemma spawnve_invalid_mode_witness :
  spawnve parent_host inherit_all_steps 4 "/bin/true" [] None
  = ([], Return (-1)).
Proof.
  apply (spawnve_invalid_mode parent_host inherit_all_steps 4 "/bin/true"
           [] None).
  right. lia.
Defined.

(** X6. [spawnve] assigns only the flags of its automatic [attr], and with
    the flags of the four modes [spawn] reads no other member: the
    result does not depend on what the stack held. *)
Theorem spawnve_attr_irrelevant h attr attr' mode path argv envp :
  spawnve h attr mode path argv envp = spawnve h attr' mode path argv envp.
Proof.
  unfold spawnve. destruct (mode_flags mode) as [fl|] eqn:Hfl; [|reflexivity].
  rewrite (spawn_mode_flags h path [] fl attr attr')
    by (eapply mode_flags_cases, Hfl).
  reflexivity.
Qed.

(** X7. The no-zombie flag of P_NOWAITO is never acted upon: the mode gives
    the same calls and the same result as P_NOWAIT. *)
Theorem spawnve_nowaito_is_nowait h attr path argv envp :
  spawnve h attr P_NOWAITO path argv envp
  = spawnve h attr P_NOWAIT path argv envp.
Proof.
  unfold spawnve. change (mode_flags P_NOWAITO) with (Some SPAWN_NOZOMBIE).
  change (mode_flags P_NOWAIT) with (Some 0). cbv iota beta.
  rewrite (spawn_governed h path [] (set_flags SPAWN_NOZOMBIE attr)
             (set_flags 0 attr) argv envp);
    [|reflexivity|simpl; intros Hc; now contradiction Hc..].
  destruct (spawn h path [] (set_flags 0 attr) argv envp) as [calls [pid| |]];
    reflexivity.
Qed.

(** X8. P_OVERLAY replaces the calling process: no [fork] and no [waitpid],
    the only call is the [execve], and no value is returned through a
    [return] statement, whatever [fork] or [waitpid] would answer. *)
Theorem spawnve_overlay h attr path argv envp :
  spawnve h attr P_OVERLAY path argv envp
  = ([Execve path argv envp],
     if execve_ok h then ImageReplaced else FallsOffEnd).
Proof.
  unfold spawnve. change (mode_flags P_OVERLAY) with (Some SPAWN_EXEC).
  cbv iota beta. unfold spawn. simpl.
  destruct (execve_ok h); reflexivity.
Qed.

(** ** spawn: signal dispositions, case by case *)

(** X3. The disposition of any signal [N] after all calls of the child
    path of [spawn], on a host that refuses to change some signals and
    resets caught signals when [execve] succeeds.  Before [execve]: a
    signal the host refuses keeps its disposition; otherwise [N] is
    ignored when the ignore flag is set and [N] is in the ignored set,
    else default when the default flag is set and [N] is in the default
    set, else what it was before the call.  A successful [execve] then
    turns a caught signal into the default action.  In particular a
    signal in neither set, or in a set whose flag is clear, is never
    installed by [spawn]. *)
Theorem spawn_final_disposition h path fd_map inherit argv envp d N :
  c_true (Z.land (flags inherit) SPAWN_EXEC) = true \/ fork_ret h = 0 ->
  dispositions_after (execve_ok h)
    (fst (spawn h path fd_map inherit argv envp)) d !! N
  = after_exec (execve_ok h)
      (if host_refuses N then d !! N
       else if c_true (Z.land (flags inherit) SPAWN_SETSIGIGN)
               && c_true (sigismember (sigignore inherit) N)
       then Some SIG_IGN
       else if c_true (Z.land (flags inherit) SPAWN_SETSIGDEF)
               && c_true (sigismember (sigdefault inherit) N)
       then Some SIG_DFL
       else d !! N).
Proof.
  intros Hchild. rewrite spawn_dispositions by exact Hchild.
  now rewrite child_setup_dispositions.
Qed.

(** Signal 15 is in the ignored set only, signal 2 in the default set
    only, signal 3 in neither: its handler is left in place by the
    passes and reset to the default action by the successful [execve]. *)
Lemma spawn_final_disposition_witness :
  dispositions_after (execve_ok child_host)
    (fst (spawn child_host "/bin/true" [] inherit_all_steps [] None))
    (<[3 := SIG_FN 4096]> ∅) !! 3 = Some SIG_DFL.
Proof.
  rewrite (spawn_final_disposition child_host "/bin/true" []
             inherit_all_steps [] None (<[3 := SIG_FN 4096]> ∅) 3)
    by (right; reflexivity).
  reflexivity.
Defined.

(** When [execve] fails the handler of signal 3 is still installed in
    the process that goes on running the caller's code. *)
Example spawn_keeps_handler_when_exec_fails :
  dispositions_after (execve_ok child_host_exec_fails)
    (fst (spawn child_host_exec_fails "/bin/true" [] inherit_all_steps []
            None))
    (<[3 := SIG_FN 4096]> ∅) !! 3 = Some (SIG_FN 4096).
Proof. vm_compute. reflexivity. Qed.

(** ** spawn: descriptor remapping *)

Lemma fds_after_app a b t :
  fds_after (a ++ b) t = fds_after b (fds_after a t).
Proof. unfold fds_after. apply foldl_app. Qed.

Lemma fds_after_no_fd_call calls t :
  forallb (fun c => negb (is_fd_call c)) calls = true ->
  fds_after calls t = t.
Proof.
  revert t. induction calls as [|c calls IH]; intros t Hall; [reflexivity|].
  simpl in Hall. apply andb_true_iff in Hall as [Hc Hall].
  change (fds_after (c :: calls) t) with (fds_after calls (fd_apply c t)).
  rewrite IH by exact Hall. destruct c; try reflexivity; discriminate.
Qed.

Lemma signal_pass_no_fd_call set h :
  forallb (fun c => negb (is_fd_call c)) (signal_pass set h) = true.
Proof.
  apply forallb_forall. intros c Hc.
  apply in_flat_map in Hc as (i & _ & Hc).
  unfold c_if in Hc. destruct (c_true (sigismember set i)); [|contradiction].
  destruct Hc as [<-|[]]. reflexivity.
Qed.

Lemma c_if_no_fd_call c calls :
  forallb (fun c => negb (is_fd_call c)) calls = true ->
  forallb (fun c => negb (is_fd_call c)) (c_if c calls) = true.
Proof. intros Hc. unfold c_if. now destruct (c_true c). Qed.

Lemma child_setup_fds fd_map inherit t :
  fds_after (child_setup fd_map inherit) t = fds_after (keep_fd fd_map) t.
Proof.
  unfold child_setup. rewrite !fds_after_app.
  rewrite !(fds_after_no_fd_call (c_if _ _));
    auto using c_if_no_fd_call, signal_pass_no_fd_call.
Qed.

Lemma keep_fd_from_0 fd_map : keep_fd fd_map = keep_fd_from 0 fd_map.
Proof. reflexivity. Qed.

Lemma keep_fd_from_cons s x l :
  keep_fd_from s (x :: l)
  = (if x =? Z.of_nat s then [] else [Dup2 x (Z.of_nat s); Close x])
    ++ keep_fd_from (S s) l.
Proof.
  unfold keep_fd_from. rewrite imap_cons. simpl flat_map.
  rewrite Nat.add_0_r. f_equal. f_equal.
  apply imap_ext. intros j y _. simpl. f_equal. lia.
Qed.

Lemma keep_fd_from_table l : forall s t,
  NoDup l ->
  (forall (j : nat) fd, l !! j = Some fd ->
     fd = Z.of_nat (s + j) \/ Z.of_nat (s + length l) <= fd) ->
  (forall (j : nat) fd, l !! j = Some fd -> fd <> Z.of_nat (s + j) ->
     is_Some (t !! fd)) ->
  (forall (j : nat) fd, l !! j = Some fd ->
     fds_after (keep_fd_from s l) t !! Z.of_nat (s + j) = t !! fd)
  /\ (forall (j : nat) fd, l !! j = Some fd -> fd <> Z.of_nat (s + j) ->
        fds_after (keep_fd_from s l) t !! fd = None)
  /\ (forall k, k < Z.of_nat s \/ Z.of_nat (s + length l) <= k -> k ∉ l ->
        fds_after (keep_fd_from s l) t !! k = t !! k).
Proof.
  induction l as [|x l IH]; intros s t Hnd Hrange Hopen.
  { split; [|split]; try (intros j fd Hj; now rewrite lookup_nil in Hj).
    reflexivity. }
  apply NoDup_cons in Hnd as [Hx Hnd].
  assert (Hrange' : forall (j : nat) fd, l !! j = Some fd ->
            fd = Z.of_nat (S s + j) \/ Z.of_nat (S s + length l) <= fd).
  { intros j fd Hj. destruct (Hrange (S j) fd Hj) as [->|Hge]; [left|right].
    - f_equal. lia.
    - simpl in Hge. lia. }
  assert (Hs : Z.of_nat s ∉ l).
  { intros Hin. apply list_elem_of_lookup in Hin as [j Hj].
    destruct (Hrange' j _ Hj); lia. }
  pose proof (Hrange 0%nat x eq_refl) as Hx0. simpl in Hx0.
  rewrite Nat.add_0_r in Hx0.
  rewrite keep_fd_from_cons.
  destruct (Z.eqb_spec x (Z.of_nat s)) as [Hxs|Hxs].
  - (* the entry keeps its descriptor: no call *)
    simpl app.
    destruct (IH (S s) t Hnd Hrange') as (IH1 & IH2 & IH3).
    { intros j fd Hj Hne. apply (Hopen (S j) fd Hj).
      intros ->. apply Hne. f_equal. lia. }
    split; [|split].
    + intros [|j] fd Hj; simpl in Hj.
      * injection Hj as <-. rewrite Nat.add_0_r, Hxs.
        apply IH3; [left; lia|exact Hs].
      * replace (s + S j)%nat with (S s + j)%nat by lia. now apply IH1.
    + intros [|j] fd Hj Hne; simpl in Hj.
      * injection Hj as <-. rewrite Nat.add_0_r in Hne. contradiction.
      * apply (IH2 j fd Hj). intros ->. apply Hne. f_equal. lia.
    + intros k Hk Hnin. apply not_elem_of_cons in Hnin as [Hkx Hkl].
      apply IH3; [|exact Hkl]. simpl in Hk. lia.
  - (* the entry takes descriptor [x]: dup2 then close *)
    destruct Hx0 as [?|Hxge]; [contradiction|]. simpl in Hxge.
    destruct (Hopen 0%nat x eq_refl) as [file Hfile].
    { rewrite Nat.add_0_r. exact Hxs. }
    rewrite fds_after_app.
    assert (Hstep : fds_after [Dup2 x (Z.of_nat s); Close x] t
                    = delete x (<[Z.of_nat s := file]> t)).
    { unfold fds_after. simpl. now rewrite Hfile. }
    rewrite Hstep. set (t1 := delete x (<[Z.of_nat s := file]> t)).
    assert (Ht1 : forall k, k <> x -> k <> Z.of_nat s -> t1 !! k = t !! k).
    { intros k Hk1 Hk2. unfold t1.
      rewrite lookup_delete_ne, lookup_insert_ne by congruence. reflexivity. }
    assert (Hl : forall (j : nat) fd, l !! j = Some fd ->
              fd <> x /\ fd <> Z.of_nat s).
    { intros j fd Hj. split.
      - intros ->. apply Hx. eapply list_elem_of_lookup_2, Hj.
      - intros ->. apply Hs. eapply list_elem_of_lookup_2, Hj. }
    destruct (IH (S s) t1 Hnd Hrange') as (IH1 & IH2 & IH3).
    { intros j fd Hj Hne. destruct (Hl j fd Hj) as [H1 H2].
      rewrite Ht1 by assumption. apply (Hopen (S j) fd Hj).
      intros ->. apply Hne. f_equal. lia. }
    split; [|split].
    + intros [|j] fd Hj; simpl in Hj.
      * injection Hj as <-. rewrite Nat.add_0_r.
        rewrite IH3 by (auto; left; lia).
        unfold t1. rewrite lookup_delete_ne, lookup_insert_eq by congruence.
        now rewrite Hfile.
      * replace (s + S j)%nat with (S s + j)%nat by lia.
        destruct (Hl j fd Hj) as [H1 H2].
        rewrite (IH1 j fd Hj). now apply Ht1.
    + intros [|j] fd Hj Hne; simpl in Hj.
      * injection Hj as <-.
        rewrite IH3 by (auto; right; simpl; lia).
        unfold t1. apply lookup_delete_eq.
      * apply (IH2 j fd Hj). intros ->. apply Hne. f_equal. lia.
    + intros k Hk Hnin. apply not_elem_of_cons in Hnin as [Hkx Hkl].
      rewrite IH3 by (auto; simpl in Hk; lia).
      apply Ht1; [exact Hkx|]. simpl in Hk. lia.
Qed.

Lemma spawn_child_fds h path fd_map inherit argv envp t :
  c_true (Z.land (flags inherit) SPAWN_EXEC) = true \/ fork_ret h = 0 ->
  fds_after (fst (spawn h path fd_map inherit argv envp)) t
  = fds_after (keep_fd fd_map) t.
Proof.
  intros Hchild. unfold spawn.
  assert (Hall : forall forked, forked = [] \/ forked = [Fork] ->
            fds_after (forked ++ child_setup fd_map inherit
                              ++ [Execve path argv envp]) t
            = fds_after (keep_fd fd_map) t).
  { intros forked Hf. rewrite !fds_after_app, child_setup_fds.
    destruct Hf as [-> | ->]; reflexivity. }
  destruct (c_true (Z.land (flags inherit) SPAWN_EXEC)) eqn:Hexec.
  - simpl. destruct (execve_ok h); simpl; apply (Hall []); auto.
  - destruct Hchild as [?|Hfork]; [discriminate|]. rewrite Hfork. simpl.
    destruct (execve_ok h); simpl; apply (Hall [Fork]); auto.
Qed.

(** X4. Descriptor remapping on the child path.  When every entry of the
    map either keeps its descriptor or names an open descriptor above
    the table, and no descriptor is named twice, then after [spawn]'s
    calls descriptor [i] refers to the file that [fd_map[i]] referred
    to, every descriptor that was moved is closed, and every other
    descriptor is as it was. *)
Theorem spawn_remaps_descriptors h path fd_map inherit argv envp t :
  c_true (Z.land (flags inherit) SPAWN_EXEC) = true \/ fork_ret h = 0 ->
  fd_map_wf fd_map t ->
  (forall (i : nat) fd, fd_map !! i = Some fd ->
     fds_after (fst (spawn h path fd_map inherit argv envp)) t !! Z.of_nat i
     = t !! fd)
  /\ (forall (i : nat) fd, fd_map !! i = Some fd -> fd <> Z.of_nat i ->
        fds_after (fst (spawn h path fd_map inherit argv envp)) t !! fd = None)
  /\ (forall k, k < 0 \/ Z.of_nat (length fd_map) <= k -> k ∉ fd_map ->
        fds_after (fst (spawn h path fd_map inherit argv envp)) t !! k
        = t !! k).
Proof.
  intros Hchild (Hnd & Hrange & Hopen).
  rewrite (spawn_child_fds h path fd_map inherit argv envp t Hchild).
  rewrite keep_fd_from_0.
  apply (keep_fd_from_table fd_map 0 t Hnd Hrange Hopen).
Qed.

Lemma fd_map_wf_example : fd_map_wf [5; 6] fds_example.
Proof.
  split; [|split].
  - apply (bool_decide_unpack _). vm_compute. exact I.
  - intros [|[|i]] fd Hi; simpl in Hi; try discriminate;
      injection Hi as <-; right; simpl; lia.
  - intros [|[|i]] fd Hi _; simpl in Hi; try discriminate;
      injection Hi as <-; vm_compute; eauto.
Qed.

(** The map [5; 6] with all flags clear: descriptor 0 gets the file of
    5, descriptor 1 the file of 6, and 5 and 6 are closed. *)
Lemma spawn_remaps_descriptors_witness :
  let t' := fds_after
              (fst (spawn child_host "/bin/true" [5; 6] inherit_plain [] None))
              fds_example in
  t' !! 0 = Some 50 /\ t' !! 1 = Some 60 /\ t' !! 5 = None /\ t' !! 6 = None.
Proof.
  destruct (spawn_remaps_descriptors child_host "/bin/true" [5; 6]
              inherit_plain [] None fds_example
              (or_intror eq_refl) fd_map_wf_example) as (Hto & Hfrom & _).
  simpl. split; [|split; [|split]].
  - exact (Hto 0%nat 5 eq_refl).
  - exact (Hto 1%nat 6 eq_refl).
  - apply (Hfrom 0%nat 5 eq_refl). lia.
  - apply (Hfrom 1%nat 6 eq_refl). lia.
Defined.

(** The conditions matter: a map that exchanges descriptors 0 and 1 does
    not exchange them, because each source is closed right after it was
    duplicated: 0 ends closed and 1 refers to the file it had. *)
Example spawn_swap_is_not_a_swap :
  let t' := fds_after
              (fst (spawn child_host "/bin/true" [1; 0] inherit_plain [] None))
              fds_example in
  t' !! 0 = None /\ t' !! 1 = Some 11.
Proof. vm_compute. split; reflexivity. Qed.

(** ** The list-style adapters *)

Lemma va_count_list args tail :
  va_count (va_list_of args tail) = Some (length args).
Proof.
  unfold va_list_of. induction args as [|s args IH]; simpl; [reflexivity|].
  now rewrite IH.
Qed.

Lemma va_copy_list args tail :
  va_copy (va_list_of args tail) = Some (map Some args ++ [None], tail).
Proof.
  unfold va_list_of. induction args as [|s args IH]; simpl; [reflexivity|].
  now rewrite IH.
Qed.

Lemma vector_strings_list args rest :
  vector_strings (map Some args ++ None :: rest) = args.
Proof. induction args as [|s args IH]; simpl; [reflexivity|]. now rewrite IH. Qed.

(** X9. For [spawnl(mode, path, arg0, a1, ..., an, NULL)] and
    [spawnle(mode, path, arg0, a1, ..., an, NULL, envp)] with a non-null
    [arg0]: the vector has exactly the [num] slots that were counted for
    the allocation ([arg0], the [n] arguments and the null pointer), its
    strings are [arg0, a1, ..., an] in order, and the call is
    [spawnve(mode, path, argv, NULL)], respectively
    [spawnve(mode, path, argv, envp)]; arguments after the null pointer
    are not read by [spawnl]. *)
Theorem spawnl_is_spawnve h attr mode path arg0 args tail envp :
  (exists rest,
     CVT_L2V (Some arg0) (va_list_of args tail)
     = Some (length (Some arg0 :: map Some args ++ [None]),
             Some arg0 :: map Some args ++ [None], rest))
  /\ spawnl h attr mode path (Some arg0) (va_list_of args tail)
     = Some (spawnve h attr mode path (arg0 :: args) None)
  /\ spawnle h attr mode path (Some arg0) (va_list_of args (va_envp envp :: tail))
     = Some (spawnve h attr mode path (arg0 :: args) envp).
Proof.
  assert (Hcvt : forall tl,
    CVT_L2V (Some arg0) (va_list_of args tl)
    = Some (length (Some arg0 :: map Some args ++ [None]),
            Some arg0 :: map Some args ++ [None], tl)).
  { intros tl. unfold CVT_L2V. rewrite va_count_list, va_copy_list.
    do 3 f_equal. simpl. rewrite length_app, length_map. simpl. lia. }
  split; [eexists; apply Hcvt|].
  unfold spawnl, spawnle. rewrite !Hcvt.
  simpl vector_strings. rewrite vector_strings_list. split; reflexivity.
Qed.

(** With a null [arg0] the vector is the single null pointer and no
    variable argument is read for it: [spawnl] runs the program without
    arguments, and [spawnle] takes its environment from the first
    variable argument. *)
Lemma spawnl_null_arg0 h attr mode path ap envp :
  spawnl h attr mode path None ap = Some (spawnve h attr mode path [] None)
  /\ spawnle h attr mode path None (va_envp envp :: ap)
     = Some (spawnve h attr mode path [] envp).
Proof. split; reflexivity. Qed.

(** Without a terminating null pointer among the variable arguments the
    adapters read past them: the model gives no result. *)
Lemma spawnl_unterminated h attr mode path arg0 args :
  spawnl h attr mode path (Some arg0) (map (fun s => va_str (Some s)) args)
  = None.
Proof.
  unfold spawnl, CVT_L2V.
  assert (Hc : va_count (map (fun s => va_str (Some s)) args) = None).
  { induction args as [|s args IH]; simpl; [reflexivity|]. now rewrite IH. }
  now rewrite Hc.
Qed.

(** ** Open-mode flags: further properties *)

Lemma c_true_land_lor f g q :
  c_true (Z.land (Z.lor f g) q) = c_true (Z.land f q) || c_true (Z.land g q).
Proof.
  rewrite Z.land_lor_distr_l. unfold c_true.
  destruct (Z.eqb_spec (Z.land f q) 0) as [Hf|Hf],
           (Z.eqb_spec (Z.land g q) 0) as [Hg|Hg]; simpl.
  - rewrite Hf, Hg. reflexivity.
  - apply negb_true_iff, Z.eqb_neq. rewrite Z.lor_eq_0_iff. tauto.
  - apply negb_true_iff, Z.eqb_neq. rewrite Z.lor_eq_0_iff. tauto.
  - apply negb_true_iff, Z.eqb_neq. rewrite Z.lor_eq_0_iff. tauto.
Qed.

(** X10. Flags can be translated one by one: the translation of a union of
    foreign masks is the union of their translations, for any host
    header. *)
Theorem qnx_flag_to_linux_lor (H : host_fcntl) (f g : Z) :
  qnx_flag_to_linux H (Z.lor f g)
  = Z.lor (qnx_flag_to_linux H f) (qnx_flag_to_linux H g).
Proof.
  apply Z.bits_inj'; intros i _.
  rewrite Z.lor_spec, !qnx_flag_to_linux_testbit.
  induction (flag_table H) as [|e tbl IH]; [reflexivity|].
  simpl. rewrite IH. unfold selected at 1. rewrite c_true_land_lor.
  fold (selected f e). fold (selected g e).
  destruct (selected f e), (selected g e), (Z.testbit (snd e) i); simpl;
    rewrite ?orb_true_r; reflexivity.
Qed.

(** *** On the Linux header *)

Lemma land_pow2 f k :
  0 <= k -> c_true (Z.land f (2 ^ k)) = Z.testbit f k.
Proof.
  intros Hk.
  assert (Hl : Z.land f (2 ^ k) = if Z.testbit f k then 2 ^ k else 0).
  { apply Z.bits_inj'; intros i Hi.
    rewrite Z.land_spec, Z.pow2_bits_eqb by exact Hk.
    destruct (Z.eqb_spec k i) as [->|Hne].
    - destruct (Z.testbit f i); simpl.
      + rewrite Z.pow2_bits_eqb, Z.eqb_refl by exact Hi. reflexivity.
      + now rewrite Z.testbit_0_l.
    - rewrite andb_false_r. destruct (Z.testbit f k).
      + rewrite Z.pow2_bits_eqb by exact Hk.
        symmetry. now apply Z.eqb_neq.
      + now rewrite Z.testbit_0_l. }
  rewrite Hl. unfold c_true.
  destruct (Z.testbit f k); [|reflexivity].
  apply negb_true_iff, Z.eqb_neq.
  pose proof (Z.pow_pos_nonneg 2 k). lia.
Qed.

Lemma lor_below a b n :
  0 <= n -> 0 <= a < 2 ^ n -> 0 <= b < 2 ^ n -> 0 <= Z.lor a b < 2 ^ n.
Proof.
  intros Hn Ha Hb. split; [apply Z.lor_nonneg; lia|].
  destruct (Z.eq_dec (Z.lor a b) 0) as [->|Hnz];
    [apply Z.pow_pos_nonneg; lia|].
  assert (0 <= Z.lor a b) by (apply Z.lor_nonneg; lia).
  apply Z.log2_lt_pow2; [lia|].
  rewrite Z.log2_lor by lia.
  destruct (Z.eq_dec a 0) as [->|Ha0], (Z.eq_dec b 0) as [->|Hb0];
    simpl in *; try contradiction.
  - rewrite Z.max_r by apply Z.log2_nonneg. apply Z.log2_lt_pow2; lia.
  - rewrite Z.max_l by apply Z.log2_nonneg. apply Z.log2_lt_pow2; lia.
  - apply Z.max_lub_lt; apply Z.log2_lt_pow2; lia.
Qed.

Lemma CONV_MODE_below q h f ret n :
  0 <= n -> 0 <= h < 2 ^ n -> 0 <= ret < 2 ^ n ->
  0 <= CONV_MODE q h f ret < 2 ^ n.
Proof.
  intros Hn Hh Hret. unfold CONV_MODE.
  destruct (c_true (Z.land f q)); [now apply lor_below|exact Hret].
Qed.

Lemma CONV_MODE_within mask q h f ret :
  Z.land h (Z.lnot mask) = 0 -> Z.land ret (Z.lnot mask) = 0 ->
  Z.land (CONV_MODE q h f ret) (Z.lnot mask) = 0.
Proof.
  intros Hh Hret. unfold CONV_MODE.
  destruct (c_true (Z.land f q)); [|exact Hret].
  now rewrite Z.land_lor_distr_l, Hh, Hret.
Qed.

Lemma qnx_flag_to_linux_range f :
  0 <= qnx_flag_to_linux linux_fcntl f < 2 ^ 21.
Proof.
  unfold qnx_flag_to_linux.
  repeat (apply CONV_MODE_below; [lia|simpl; lia|]). lia.
Qed.

Lemma selected_pow2 f k h :
  0 <= k -> selected f (2 ^ k, h) = Z.testbit f k.
Proof. intros Hk. unfold selected. simpl. now apply land_pow2. Qed.

Lemma linux_testbit f i :
  Z.testbit (qnx_flag_to_linux linux_fcntl f) i
  = (Z.testbit f 0 && Z.testbit 1 i) || (Z.testbit f 1 && Z.testbit 2 i)
    || (Z.testbit f 7 && Z.testbit 2048 i)
    || (Z.testbit f 3 && Z.testbit 1024 i)
    || (Z.testbit f 4 && Z.testbit 4096 i)
    || (Z.testbit f 6 && Z.testbit 1052672 i)
    || (Z.testbit f 5 && Z.testbit 1052672 i)
    || (Z.testbit f 8 && Z.testbit 64 i) || (Z.testbit f 9 && Z.testbit 512 i)
    || (Z.testbit f 10 && Z.testbit 128 i)
    || (Z.testbit f 11 && Z.testbit 256 i).
Proof.
  rewrite qnx_flag_to_linux_testbit. unfold flag_table. cbn [existsb snd].
  change QNX_O_RDONLY with 0. unfold selected at 1. cbn [fst].
  rewrite Z.land_0_r. change (c_true 0) with false.
  change QNX_O_WRONLY with (2 ^ 0). change QNX_O_RDWR with (2 ^ 1).
  change QNX_O_NONBLOCK with (2 ^ 7). change QNX_O_APPEND with (2 ^ 3).
  change QNX_O_DSYNC with (2 ^ 4). change QNX_O_RSYNC with (2 ^ 6).
  change QNX_O_SYNC with (2 ^ 5). change QNX_O_CREAT with (2 ^ 8).
  change QNX_O_TRUNC with (2 ^ 9). change QNX_O_EXCL with (2 ^ 10).
  change QNX_O_NOCTTY with (2 ^ 11).
  rewrite !selected_pow2 by lia. cbn [linux_fcntl O_WRONLY O_RDWR O_NONBLOCK
    O_APPEND O_DSYNC O_RSYNC O_SYNC O_CREAT O_TRUNC O_EXCL O_NOCTTY andb orb].
  rewrite orb_false_r, <- !orb_assoc. reflexivity.
Qed.

(** X11. The translation on Linux, bit by bit, for every foreign mask [f]:
    the access mode (the two low bits) passes unchanged; create,
    exclusive, no-controlling-terminal, truncate, append and
    non-blocking are each set exactly when the foreign flag is; the
    host's data-sync bit is set when any of the three foreign sync flags
    is, and its file-sync bit when the foreign file-sync or read-sync
    flag is; no other bit is ever set, so the result is a non-negative
    [int]. *)
Theorem qnx_flag_to_linux_on_linux (f : Z) :
  let r := qnx_flag_to_linux linux_fcntl f in
  Z.testbit r 0 = Z.testbit f 0 /\ Z.testbit r 1 = Z.testbit f 1
  /\ Z.testbit r 6 = Z.testbit f 8        (* O_CREAT *)
  /\ Z.testbit r 7 = Z.testbit f 10       (* O_EXCL *)
  /\ Z.testbit r 8 = Z.testbit f 11       (* O_NOCTTY *)
  /\ Z.testbit r 9 = Z.testbit f 9        (* O_TRUNC *)
  /\ Z.testbit r 10 = Z.testbit f 3       (* O_APPEND *)
  /\ Z.testbit r 11 = Z.testbit f 7       (* O_NONBLOCK *)
  /\ Z.testbit r 12 = Z.testbit f 4 || Z.testbit f 6 || Z.testbit f 5
  /\ Z.testbit r 20 = Z.testbit f 6 || Z.testbit f 5
  /\ 0 <= r < 2 ^ 21
  /\ Z.land r (Z.lnot 0x101FC3) = 0.
Proof.
  intros r. subst r.
  repeat (split; [rewrite linux_testbit; cbn [Z.testbit Pos.testbit andb];
                  rewrite ?andb_false_r, ?andb_true_r, ?orb_false_r;
                  reflexivity|]).
  split; [apply qnx_flag_to_linux_range|].
  unfold qnx_flag_to_linux.
  repeat (apply CONV_MODE_within; [reflexivity|]). reflexivity.
Qed.

Lemma to_u32_known_bits flags :
  Z.land (to_u32 flags) known_qnx_bits = Z.land flags known_qnx_bits.
Proof.
  unfold to_u32. rewrite <- Z.land_ones by lia.
  rewrite <- Z.land_assoc. reflexivity.
Qed.

(** X12. [_qnx_open] and [_qnx_openat] on Linux hand the host call the
    translation of [flags] and the mode unchanged, for every [int]
    value of [flags], negative ones included: the conversions to
    [mode_t] and back to [int] change nothing. *)
Theorem qnx_open_passes_translation
    (host_open : string -> Z -> Z -> Z)
    (host_openat : Z -> string -> Z -> Z -> Z)
    (dirfd : Z) (filename : string) (flags mode : Z) :
  _qnx_open linux_fcntl host_open filename flags mode
  = host_open filename (qnx_flag_to_linux linux_fcntl flags) mode
  /\ _qnx_openat linux_fcntl host_openat dirfd filename flags mode
     = host_openat dirfd filename (qnx_flag_to_linux linux_fcntl flags) mode.
Proof.
  assert (Heq : to_i32 (qnx_flag_to_linux linux_fcntl (to_u32 flags))
                = qnx_flag_to_linux linux_fcntl flags).
  { rewrite to_i32_small
      by (pose proof (qnx_flag_to_linux_range (to_u32 flags)); lia).
    rewrite <- (qnx_flag_to_linux_known_bits linux_fcntl (to_u32 flags)).
    rewrite to_u32_known_bits. apply qnx_flag_to_linux_known_bits. }
  unfold _qnx_open, _qnx_openat. rewrite Heq. split; reflexivity.
Qed.

(** ** Signal actions: the entry point *)

Lemma sigaction_there_and_back qnx_sa linux_sa qnx_out :
  qnx_sigaction_wf qnx_sa ->
  (0 < length (Host.sa_mask linux_sa))%nat ->
  linux_sigaction_to_qnx (qnx_sigaction_to_linux qnx_sa linux_sa) qnx_out
  = qnx_sa.
Proof.
  intros (Hflags & H0 & H1) Hlen.
  destruct (split64 _ _ H0 H1) as (H64 & Hlo & Hhi).
  unfold linux_sigaction_to_qnx, qnx_sigaction_to_linux. simpl.
  rewrite host_mask_load_store by exact Hlen.
  rewrite !to_i32_small by (rewrite ?to_i32_small; lia).
  unfold qnx_mask_store64, qnx_mask_load64. rewrite H64, Hlo, Hhi.
  destruct qnx_sa as [hd fl [[b0 b1]]]. reflexivity.
Qed.

(** X13. The old-action record is written whenever the pointer is not null,
    without a look at the host's return value (unlike the stat entry
    points): when the host call fails and stores nothing, the caller's
    record is replaced by the transcoding of the uninitialised local,
    so its former handler, flags and mask are lost. *)
Theorem qnx_sigaction_oldact_unguarded
    (tbl : gmap Z Host.sigaction) (linux_act linux_oldact : Host.sigaction)
    (signum : Z) (act oldact : qnx_sigaction) :
  tbl !! signum = None ->
  _qnx_sigaction table_sigaction tbl linux_act linux_oldact signum
    (Some act) (Some oldact)
  = Some (-1, Some (linux_sigaction_to_qnx linux_oldact oldact), tbl)
  /\ sa_handler (linux_sigaction_to_qnx linux_oldact oldact)
     = Host.sa_handler linux_oldact
  /\ sa_flags (linux_sigaction_to_qnx linux_oldact oldact)
     = to_i32 (Host.sa_flags linux_oldact)
  /\ (forall previous, linux_sigaction_to_qnx linux_oldact previous
                       = linux_sigaction_to_qnx linux_oldact oldact).
Proof.
  intros Hnone. unfold _qnx_sigaction, table_sigaction. rewrite Hnone.
  repeat split.
Qed.

Lemma qnx_sigaction_oldact_unguarded_witness :
  _qnx_sigaction table_sigaction sigtable_example host_sa_junk host_sa_junk
    99 (Some qnx_sa_example) (Some qnx_sa_example)
  = Some (-1, Some (linux_sigaction_to_qnx host_sa_junk qnx_sa_example),
          sigtable_example).
Proof.
  apply (qnx_sigaction_oldact_unguarded sigtable_example host_sa_junk
           host_sa_junk 99 qnx_sa_example qnx_sa_example).
  reflexivity.
Defined.

Lemma to_i32_range x : - 2 ^ 31 <= to_i32 x < 2 ^ 31.
Proof.
  unfold to_i32. pose proof (Z.mod_pos_bound (x + 2 ^ 31) (2 ^ 32)). lia.
Qed.

Lemma to_i32_testbit x n :
  0 <= n < 32 -> Z.testbit (to_i32 x) n = Z.testbit x n.
Proof.
  intros Hn.
  rewrite <- (Z.mod_pow2_bits_low (to_i32 x) 32 n) by lia.
  rewrite <- (Z.mod_pow2_bits_low x 32 n) by lia.
  f_equal. unfold to_i32. rewrite Zminus_mod_idemp_l. f_equal. lia.
Qed.

Lemma ldiff_upper a b : 0 <= a -> Z.ldiff a b <= a.
Proof.
  intros Ha. rewrite Z.ldiff_land, <- Z.sub_land_same_l.
  assert (0 <= Z.land a b) by (apply Z.land_nonneg; now left). lia.
Qed.

Lemma qnx_mask_load_store v m :
  0 <= v < 2 ^ 64 -> qnx_mask_load64 (qnx_mask_store64 v m) = v.
Proof.
  intros Hv. unfold qnx_mask_load64, qnx_mask_store64. simpl.
  rewrite (to_u32_small (v / 2 ^ 32)).
  - unfold to_u32. rewrite Z.add_comm. symmetry. apply Z.div_mod. lia.
  - split; [apply Z.div_pos; lia|]. apply Z.div_lt_upper_bound; lia.
Qed.

(** X14. Set, then get, does not give the action back.  On a host that
    keeps a table of actions, installing a foreign action for a signal
    and then calling again with an old-action pointer reports the
    handler that was installed, but not its flags: the host's
    SA_RESTORER bit (0x04000000), which the C library adds to every
    action, is set in the reported [sa_flags], and the bits the kernel
    does not know are cleared; the reported signal set is the installed
    one without SIGKILL and SIGSTOP.  So an action whose flags lack that
    bit never comes back as it was installed.  This holds whatever the
    locals and the caller's record held and whatever the second call
    installs. *)
Theorem qnx_sigaction_set_get
    (tbl : gmap Z Host.sigaction) (l1 l2 l3 l4 : Host.sigaction)
    (signum : Z) (act next out : qnx_sigaction) :
  is_Some (tbl !! signum) ->
  qnx_sigaction_wf act ->
  (0 < length (Host.sa_mask l1))%nat ->
  (0 < length (Host.sa_mask l4))%nat ->
  exists tbl1 tbl2 got,
    _qnx_sigaction table_sigaction tbl l1 l2 signum (Some act) None
    = Some (0, None, tbl1)
    /\ _qnx_sigaction table_sigaction tbl1 l3 l4 signum (Some next) (Some out)
       = Some (0, Some got, tbl2)
    /\ sa_handler got = sa_handler act
    /\ sa_flags got
       = to_i32 (Z.land (Z.lor (sa_flags act) SA_RESTORER) UAPI_SA_FLAGS)
    /\ Z.testbit (sa_flags got) 26 = true
    /\ qnx_mask_load64 (sa_mask got)
       = Z.ldiff (qnx_mask_load64 (sa_mask act)) unblockable
    /\ (Z.testbit (sa_flags act) 26 = false -> got <> act).
Proof.
  intros [cur Hcur] (Hflags & H0 & H1) Hlen1 Hlen4.
  destruct (split64 _ _ H0 H1) as (H64 & _ & _).
  assert (Hfl : sa_flags
            (linux_sigaction_to_qnx
               (report_action
                  (installed_action (qnx_sigaction_to_linux act l1)) l4) out)
          = to_i32 (Z.land (Z.lor (sa_flags act) SA_RESTORER) UAPI_SA_FLAGS)).
  { cbn [linux_sigaction_to_qnx report_action installed_action
         qnx_sigaction_to_linux sa_flags Host.sa_flags].
    rewrite (to_i32_small (sa_flags act)) by exact Hflags.
    apply to_i32_small, to_i32_range. }
  assert (Hbit : Z.testbit
            (to_i32 (Z.land (Z.lor (sa_flags act) SA_RESTORER) UAPI_SA_FLAGS))
            26 = true).
  { rewrite to_i32_testbit by lia. rewrite Z.land_spec, Z.lor_spec.
    change (Z.testbit SA_RESTORER 26) with true.
    change (Z.testbit UAPI_SA_FLAGS 26) with true.
    now rewrite orb_true_r. }
  exists (<[signum := installed_action (qnx_sigaction_to_linux act l1)]> tbl).
  exists (<[signum := installed_action (qnx_sigaction_to_linux next l3)]>
            (<[signum := installed_action (qnx_sigaction_to_linux act l1)]>
               tbl)).
  exists (linux_sigaction_to_qnx
            (report_action
               (installed_action (qnx_sigaction_to_linux act l1)) l4) out).
  unfold _qnx_sigaction, table_sigaction. rewrite Hcur.
  split; [reflexivity|].
  rewrite lookup_insert_eq. split; [reflexivity|].
  split; [reflexivity|].
  split; [exact Hfl|].
  split; [rewrite Hfl; exact Hbit|].
  split.
  - cbn [linux_sigaction_to_qnx report_action installed_action
         qnx_sigaction_to_linux sa_mask Host.sa_mask].
    rewrite !host_mask_load_store by assumption.
    change (host_mask_load64
              [Z.ldiff (to_u64 (qnx_mask_load64 (sa_mask act))) unblockable])
      with (Z.ldiff (to_u64 (qnx_mask_load64 (sa_mask act))) unblockable).
    unfold qnx_mask_load64 at 2 3. rewrite H64.
    assert (Hr : 0 <= Z.ldiff (fst (__bits (sa_mask act))
                               + 2 ^ 32 * snd (__bits (sa_mask act)))
                        unblockable < 2 ^ 64).
    { split.
      - apply Z.ldiff_nonneg. left. lia.
      - eapply Z.le_lt_trans; [apply ldiff_upper|]; lia. }
    rewrite (to_u64_small _ Hr). now apply qnx_mask_load_store.
  - intros Hclear Heq. rewrite <- Heq, Hfl, Hbit in Hclear. discriminate.
Qed.

(** Flags 4 of [qnx_sa_example] come back as 0x04000004. *)
Lemma qnx_sigaction_set_get_witness :
  exists tbl1 tbl2 got,
    _qnx_sigaction table_sigaction sigtable_example host_sa_junk host_sa_junk
      2 (Some qnx_sa_example) None
    = Some (0, None, tbl1)
    /\ _qnx_sigaction table_sigaction tbl1 host_sa_junk host_sa_junk 2
         (Some qnx_sa_junk) (Some qnx_sa_junk)
       = Some (0, Some got, tbl2)
    /\ sa_handler got = 4198400
    /\ sa_flags qnx_sa_example = 0x00000004
    /\ sa_flags got = 0x04000004
    /\ qnx_mask_load64 (sa_mask got) = 0x0001000180000002.
Proof.
  destruct (qnx_sigaction_set_get sigtable_example host_sa_junk host_sa_junk
              host_sa_junk host_sa_junk 2 qnx_sa_example qnx_sa_junk
              qnx_sa_junk)
    as (tbl1 & tbl2 & got & H1 & H2 & Hh & Hf & _ & Hm & _).
  - vm_compute. eauto.
  - unfold qnx_sigaction_wf. simpl. lia.
  - simpl. lia.
  - simpl. lia.
  - exists tbl1, tbl2, got. split; [exact H1|]. split; [exact H2|].
    split; [rewrite Hh; reflexivity|]. split; [reflexivity|].
    split; [rewrite Hf; vm_compute; reflexivity|].
    rewrite Hm. vm_compute. reflexivity.
Defined.

(** ** Directory entries: which bytes change *)

Lemma le_encode_congr n v v' :
  v mod 2 ^ (8 * Z.of_nat n) = v' mod 2 ^ (8 * Z.of_nat n) ->
  le_encode n v = le_encode n v'.
Proof.
  revert v v'. induction n as [|n IH]; intros v v' Heq; [reflexivity|].
  rewrite pow_bytes_succ in Heq.
  assert (Hp : 0 < 2 ^ (8 * Z.of_nat n)) by (apply Z.pow_pos_nonneg; lia).
  rewrite !Z.rem_mul_r in Heq by lia.
  pose proof (Z.mod_pos_bound v 256). pose proof (Z.mod_pos_bound v' 256).
  simpl. f_equal; [lia|]. apply IH. lia.
Qed.

Lemma le_encode_decode bs :
  Forall (fun b => 0 <= b < 256) bs ->
  le_encode (length bs) (le_decode bs) = bs.
Proof.
  induction 1 as [|b bs Hb _ IH]; [reflexivity|].
  unfold le_decode in *. simpl.
  rewrite (Z.mul_comm 256), Z_mod_plus_full, Z.div_add by lia.
  rewrite Z.mod_small, Z.div_small by lia. rewrite Z.add_0_l.
  f_equal. exact IH.
Qed.

Lemma list_inserts_slice {A} off n (m : list A) :
  list_inserts off (take n (drop off m)) m = m.
Proof.
  apply list_eq; intros i.
  destruct (decide (off <= i < off + length (take n (drop off m)))%nat)
    as [Hin|Hout].
  - destruct (decide (i < length m)%nat) as [Hi|Hi].
    + rewrite list_lookup_inserts by (auto; lia).
      rewrite lookup_take_lt, lookup_drop.
      * f_equal. lia.
      * rewrite length_take in Hin. lia.
    + rewrite !(proj2 (lookup_ge_None _ _)); rewrite ?length_inserts; auto; lia.
  - destruct (decide (i < off)%nat).
    + now apply list_lookup_inserts_lt.
    + apply list_lookup_inserts_ge. lia.
Qed.

Lemma store_loaded n off v m :
  Forall (fun b => 0 <= b < 256) m ->
  (off + n <= length m)%nat ->
  v mod 2 ^ (8 * Z.of_nat n) = load_le n off m ->
  store_le n off v m = m.
Proof.
  intros Hm Hlen Hv. unfold store_le, load_le in *.
  assert (Hs : Forall (fun b => 0 <= b < 256) (take n (drop off m)))
    by now apply Forall_take, Forall_drop.
  assert (Hl : length (take n (drop off m)) = n)
    by (rewrite length_take, length_drop; lia).
  rewrite (le_encode_congr n v (le_decode (take n (drop off m)))).
  - rewrite <- Hl at 1. rewrite le_encode_decode by exact Hs.
    apply list_inserts_slice.
  - rewrite Hv. symmetry. apply Z.mod_small.
    pose proof (le_decode_range _ Hs) as Hr. now rewrite Hl in Hr.
Qed.

Lemma qnx_readdir_two_step m :
  dirent_wf m ->
  _qnx_readdir (Some m) = Some (write_qnx_dirent (dirent_at m) m).
Proof.
  intros Hwf. unfold _qnx_readdir, write_qnx_dirent, strlen, strcpy.
  rewrite (dirent_at_local m Hwf), (c_string_local m Hwf). reflexivity.
Qed.

(** X15. The only bytes of the shared buffer that [_qnx_readdir] changes are
    those from offset 18 to offset 20 + L, where L is the length of the
    name: they become L as a 16-bit number (over the host's [d_type]
    and first name byte), the name moved up by one byte, and a
    terminator.  The first 18 bytes (inode, offset, record length) are
    rewritten with the values they had.  The terminator lands on the
    byte after the host record's own terminator, whatever that byte
    held; everything beyond is untouched. *)
Theorem qnx_readdir_footprint (m : list Z) :
  dirent_wf m ->
  let name := Host.d_name (dirent_at m) in
  let new := list_inserts 18 (Z.of_nat (length name) :: 0 :: name ++ [0]) m in
  _qnx_readdir (Some m) = Some new
  /\ new !! (20 + length name)%nat = Some 0
  /\ (forall i, (i < 18 \/ 21 + length name <= i)%nat -> new !! i = m !! i).
Proof.
  intros Hwf name new. pose proof Hwf as (Hlen & Hbytes & Hname).
  unfold_offsets.
  assert (Hnm : (length name < 256)%nat) by exact Hname.
  split; [|split].
  - rewrite (qnx_readdir_two_step m Hwf). f_equal.
    unfold write_qnx_dirent. fold name. unfold_offsets.
    unfold dirent_at at 1 2 3. cbn [Host.d_ino Host.d_off Host.d_reclen].
    unfold_offsets.
    pose proof (load_range 8 0 m Hbytes) as Hino.
    pose proof (load_range 8 8 m Hbytes) as Hoff.
    pose proof (load_range 2 16 m Hbytes) as Hrec.
    rewrite (store_loaded 8 0) by
      (auto; try lia; unfold to_u64;
       change (2 ^ (8 * Z.of_nat 8)) with (2 ^ 64) in *;
       rewrite Z.mod_mod by lia; apply Z.mod_small; lia).
    rewrite (store_loaded 8 8) by
      (auto; try lia; rewrite to_u64_to_i64; unfold to_u64;
       change (2 ^ (8 * Z.of_nat 8)) with (2 ^ 64) in *;
       rewrite Z.mod_mod by lia; apply Z.mod_small; lia).
    rewrite (store_loaded 2 16) by
      (auto; try lia; change (2 ^ (8 * Z.of_nat 2)) with (2 ^ 16) in *;
       rewrite to_i16_mod; apply Z.mod_small; lia).
    unfold new, store_le.
    change (Z.of_nat (length name) :: 0 :: name ++ [0])
      with ([Z.of_nat (length name); 0] ++ (name ++ [0])).
    rewrite (list_inserts_app_l [Z.of_nat (length name); 0] (name ++ [0]) m 18).
    simpl length. simpl Nat.add.
    do 2 f_equal. rewrite to_i16_small by lia. simpl.
    rewrite Z.mod_small, Z.div_small by lia. reflexivity.
  - unfold new. rewrite list_lookup_inserts.
    + replace (20 + length name - 18)%nat with (S (S (length name))) by lia.
      simpl. rewrite lookup_app_r by lia.
      now rewrite Nat.sub_diag.
    + simpl. rewrite length_app. simpl. lia.
    + lia.
  - intros i [Hi|Hi]; unfold new.
    + now apply list_lookup_inserts_lt.
    + apply list_lookup_inserts_ge. simpl. rewrite length_app. simpl. lia.
Qed.

Lemma qnx_readdir_footprint_witness :
  _qnx_readdir (Some dirent_example)
  = Some (list_inserts 18 [2; 0; 97; 98; 0] dirent_example).
Proof.
  apply (qnx_readdir_footprint dirent_example dirent_example_wf).
Defined.

(** ** Number to string *)

Lemma utoa_loop_spec b :
  2 <= b <= 10 ->
  forall fuel n,
    0 <= n < b ^ Z.of_nat (S fuel) ->
    exists ds,
      utoa_loop (S fuel) n b = Some ds
      /\ (1 <= length ds <= S fuel)%nat
      /\ Forall (fun c => 48 <= c <= 57) ds
      /\ digits_value b ds = n
      /\ n < b ^ Z.of_nat (length ds)
      /\ b ^ (Z.of_nat (length ds) - 1) <= Z.max n 1.
Proof.
  intros Hb. induction fuel as [|fuel IH]; intros n Hn.
  - exists [n + 48]. change (b ^ Z.of_nat 1) with (b ^ 1) in Hn.
    rewrite Z.pow_1_r in Hn.
    simpl utoa_loop. rewrite Z.mod_small, Z.div_small by lia. simpl.
    unfold to_char, to_u32.
    rewrite (Z.mod_small (n + 48)) by lia. rewrite Z.mod_small by lia.
    split; [reflexivity|]. split; [simpl; lia|].
    split; [constructor; [lia|constructor]|].
    split; [unfold digits_value; simpl; lia|].
    split; simpl; lia.
  - rewrite Nat2Z.inj_succ, Z.pow_succ_r in Hn by lia.
    assert (Hq : 0 <= n / b < b ^ Z.of_nat (S fuel)).
    { split; [apply Z.div_pos; lia|]. apply Z.div_lt_upper_bound; lia. }
    pose proof (Z.mod_pos_bound n b ltac:(lia)) as Hr.
    pose proof (Z.div_mod n b ltac:(lia)) as Hdm.
    assert (Hc : to_char (to_u32 (n mod b + 48)) = n mod b + 48).
    { unfold to_char, to_u32.
      rewrite (Z.mod_small (n mod b + 48)) by lia. apply Z.mod_small. lia. }
    change (utoa_loop (S (S fuel)) n b)
      with (let c := to_char (to_u32 (n mod b + 48)) in
            if 0 <? n / b then cons c <$> utoa_loop (S fuel) (n / b) b
            else Some [c]).
    cbv zeta. rewrite Hc.
    destruct (Z.ltb_spec 0 (n / b)) as [Hpos|Hzero].
    + destruct (IH (n / b) Hq) as (ds & Hds & Hlen & Hdig & Hval & Hup & Hlo).
      exists (n mod b + 48 :: ds). rewrite Hds.
      split; [reflexivity|]. split; [simpl; lia|].
      split; [constructor; [lia|exact Hdig]|].
      split; [unfold digits_value in *; simpl; rewrite Hval; lia|].
      rewrite length_cons, Nat2Z.inj_succ.
      split.
      * rewrite Z.pow_succ_r by lia. nia.
      * replace (Z.succ (Z.of_nat (length ds)) - 1)
          with (Z.succ (Z.of_nat (length ds) - 1)) by lia.
        rewrite Z.pow_succ_r by lia.
        rewrite Z.max_l in Hlo by lia. nia.
    + assert (n / b = 0) by lia.
      exists [n mod b + 48].
      split; [reflexivity|]. split; [simpl; lia|].
      split; [constructor; [lia|constructor]|].
      split; [unfold digits_value; simpl; lia|].
      split; simpl; lia.
Qed.

Lemma pow2_32_below b : 2 <= b -> 2 ^ 32 <= b ^ Z.of_nat 32.
Proof.
  intros Hb. change (Z.of_nat 32) with 32.
  apply Z.pow_le_mono_l. lia.
Qed.

(** X16. [utoa] terminates for every [unsigned] value and every base from 2
    to 10, after at most 32 digits.  The string consists of decimal
    digit characters and holds the digits least significant first, the
    reverse of the usual notation: read with its first character as the
    units digit it gives back [n]. *)
Theorem utoa_digits (n base : Z) :
  0 <= n < 2 ^ 32 ->
  2 <= base <= 10 ->
  exists ds,
    utoa 32 n base = Some (ds ++ [0])
    /\ (1 <= length ds <= 32)%nat
    /\ Forall (fun c => 48 <= c <= 57) ds
    /\ digits_value base ds = n.
Proof.
  intros Hn Hb.
  destruct (utoa_loop_spec base Hb 31 n) as (ds & Hds & Hlen & Hdig & Hval & _).
  { pose proof (pow2_32_below base). lia. }
  exists ds. unfold utoa. unfold to_u32. rewrite Z.mod_small by lia.
  destruct (Z.eqb_spec base 0); [lia|]. rewrite Hds.
  repeat split; auto; lia.
Qed.

Lemma utoa_digits_witness :
  exists ds, utoa 32 1234 10 = Some (ds ++ [0]) /\ digits_value 10 ds = 1234.
Proof.
  destruct (utoa_digits 1234 10) as (ds & Hds & _ & _ & Hval); [lia|lia|].
  exists ds. split; assumption.
Defined.

(** 1234 is written as "4321". *)
Example utoa_1234 : utoa 32 1234 10 = Some (bytes_of "4321" ++ [0]).
Proof. reflexivity. Qed.

(** X17. With base 1 and a non-zero number the loop never ends: the number
    is divided by one for ever while characters are stored. *)
Theorem utoa_base_1_diverges (fuel : nat) (n : Z) :
  1 <= n -> utoa fuel n 1 = None.
Proof.
  intros Hn. unfold utoa. change (to_u32 1 =? 0) with false. cbv iota.
  change (to_u32 1) with 1.
  induction fuel as [|fuel IH]; [reflexivity|].
  simpl utoa_loop. rewrite Z.div_1_r.
  destruct (Z.ltb_spec 0 n) as [_|?]; [|lia].
  simpl in IH |- *.
  destruct (utoa_loop fuel n 1); [discriminate|reflexivity].
Qed.

Lemma utoa_base_1_diverges_witness : utoa 1000 7 1 = None.
Proof. apply (utoa_base_1_diverges 1000 7). lia. Defined.

Lemma itoa_loop_nonneg b fuel :
  2 <= b <= 10 ->
  forall n, 0 <= n -> itoa_loop fuel n b = utoa_loop fuel n b.
Proof.
  intros Hb. induction fuel as [|fuel IH]; intros n Hn; [reflexivity|].
  simpl. rewrite Z.rem_mod_nonneg, Z.quot_div_nonneg by lia.
  pose proof (Z.mod_pos_bound n b ltac:(lia)) as Hr.
  rewrite IH by (apply Z.div_pos; lia).
  unfold to_i32, to_u32.
  rewrite (Z.mod_small (n mod b + 48 + 2 ^ 31)) by lia.
  rewrite (Z.mod_small (n mod b + 48)) by lia.
  replace (n mod b + 48 + 2 ^ 31 - 2 ^ 31) with (n mod b + 48) by lia.
  reflexivity.
Qed.

(** X18. [itoa] for every [int] but the smallest and every base from 2 to
    10: the digits of the absolute value, least significant first, then
    a minus sign for a negative number, then the terminator. *)
Theorem itoa_digits (n base : Z) :
  - 2 ^ 31 < n < 2 ^ 31 ->
  2 <= base <= 10 ->
  exists ds,
    itoa 32 n base = Some (ds ++ (if n <? 0 then [45] else []) ++ [0])
    /\ Forall (fun c => 48 <= c <= 57) ds
    /\ digits_value base ds = Z.abs n.
Proof.
  intros Hn Hb.
  destruct (utoa_loop_spec base Hb 31 (Z.abs n)) as (ds & Hds & _ & Hdig & Hval & _).
  { pose proof (pow2_32_below base). lia. }
  exists ds. unfold itoa.
  destruct (Z.eqb_spec n (- 2 ^ 31)); [lia|].
  destruct (Z.eqb_spec base 0); [lia|].
  assert (Habs : (if n <? 0 then - n else n) = Z.abs n).
  { destruct (Z.ltb_spec n 0); lia. }
  rewrite Habs, itoa_loop_nonneg, Hds by lia.
  auto.
Qed.

Lemma itoa_digits_witness :
  exists ds, itoa 32 (-120) 10 = Some (ds ++ [45] ++ [0])
             /\ digits_value 10 ds = 120.
Proof.
  destruct (itoa_digits (-120) 10) as (ds & Hds & _ & Hval); [lia|lia|].
  exists ds. split; assumption.
Defined.

(** -120 is written as "021-". *)
Example itoa_minus_120 : itoa 32 (-120) 10 = Some (bytes_of "021-" ++ [0]).
Proof. reflexivity. Qed.

(** ** Assertion messages *)

Lemma utoa_decimal_length n :
  0 <= n < 2 ^ 32 ->
  exists ds,
    utoa 32 n 10 = Some (ds ++ [0])
    /\ Forall (fun c => 48 <= c <= 57) ds
    /\ digits_value 10 ds = n
    /\ (n < 10 ^ 9 -> (length ds <= 9)%nat)
    /\ (10 ^ 9 <= n -> length ds = 10%nat).
Proof.
  intros Hn.
  destruct (utoa_loop_spec 10 ltac:(lia) 31 n)
    as (ds & Hds & Hlen & Hdig & Hval & Hup & Hlo).
  { pose proof (pow2_32_below 10). lia. }
  exists ds. split.
  { unfold utoa. change (to_u32 10) with 10. change (10 =? 0) with false.
    cbv iota. now rewrite Hds. }
  split; [exact Hdig|]. split; [exact Hval|].
  split.
  - intros Hsmall.
    destruct (le_lt_dec (length ds) 9) as [|Hbig]; [assumption|exfalso].
    assert (10 ^ 9 <= 10 ^ (Z.of_nat (length ds) - 1))
      by (apply Z.pow_le_mono_r; lia).
    lia.
  - intros Hbig.
    assert (Hlt9 : (9 < length ds)%nat).
    { destruct (le_lt_dec (length ds) 9) as [Hle|]; [exfalso|assumption].
      assert (10 ^ Z.of_nat (length ds) <= 10 ^ 9)
        by (apply Z.pow_le_mono_r; lia).
      lia. }
    destruct (le_lt_dec (length ds) 10) as [|Hgt]; [lia|exfalso].
    assert (10 ^ 10 <= 10 ^ (Z.of_nat (length ds) - 1))
      by (apply Z.pow_le_mono_r; lia).
    lia.
Qed.

(** X19. What [__assert] writes before it aborts, for a line number below
    10^9: an optional "In function f -- ", the file, a colon, the line
    number with its digits in reverse order (units first), a space, the
    expression and " -- assertion failed" with a newline.  From line
    10^9 on, the ten digits and the terminator overrun the 10-byte
    line buffer. *)
Theorem assert_message (expr file : list Z) (line : Z)
    (func : option (list Z)) :
  0 <= line < 2 ^ 32 ->
  (line < 10 ^ 9 ->
   exists ds,
     Forall (fun c => 48 <= c <= 57) ds
     /\ digits_value 10 ds = line
     /\ __assert 32 expr file line func
        = Some ((match func with
                 | Some f => [bytes_of "In function "; f; bytes_of " -- "]
                 | None => []
                 end)
                ++ [file; bytes_of ":"; ds; bytes_of " "; expr;
                    bytes_of " -- assertion failed" ++ [10]]))
  /\ (10 ^ 9 <= line -> __assert 32 expr file line func = None).
Proof.
  intros Hline.
  destruct (utoa_decimal_length line Hline)
    as (ds & Hds & Hdig & Hval & Hshort & Hlong).
  split.
  - intros Hsmall. specialize (Hshort Hsmall).
    exists ds. split; [exact Hdig|]. split; [exact Hval|].
    unfold __assert. rewrite Hds.
    destruct (Nat.ltb_spec 10 (length (ds ++ [0]))) as [Hlen|_].
    { rewrite length_app in Hlen. simpl in Hlen. lia. }
    rewrite c_string_terminated; [reflexivity|].
    eapply Forall_impl; [exact Hdig|]. simpl. lia.
  - intros Hbig. specialize (Hlong Hbig).
    unfold __assert. rewrite Hds.
    destruct (Nat.ltb_spec 10 (length (ds ++ [0]))) as [_|Hlen];
      [reflexivity|].
    rewrite length_app in Hlen. simpl in Hlen. lia.
Qed.

Lemma assert_message_witness :
  __assert 32 (bytes_of "p != 0") (bytes_of "main.c") 1000000000 None = None.
Proof.
  apply (assert_message (bytes_of "p != 0") (bytes_of "main.c") 1000000000
           None); lia.
Defined.

(** Line 42 of main.c. *)
Example assert_line_42 :
  (fun writes => concat writes)
    <$> __assert 32 (bytes_of "p != 0") (bytes_of "main.c") 42
                 (Some (bytes_of "f"))
  = Some (bytes_of "In function f -- main.c:24 p != 0 -- assertion failed"
          ++ [10]).
Proof. reflexivity. Qed.

(** ** Checked formatting *)

Lemma c_string_stored s m :
  Forall (fun b => b <> 0) s ->
  (length s + 1 <= length m)%nat ->
  c_string (list_inserts 0 (s ++ [0]) m) = s.
Proof.
  intros Hs Hlen.
  change (list_inserts 0 (s ++ [0]) m)
    with (drop 0 (list_inserts 0 (s ++ [0]) m)).
  rewrite drop_inserts by (rewrite length_app; simpl; lia).
  rewrite <- app_assoc. simpl. now apply c_string_terminated.
Qed.

Lemma store_terminator_again s m (i : nat) :
  i = length s ->
  (length s + 1 <= length m)%nat ->
  <[i := 0]> (list_inserts 0 (s ++ [0]) m) = list_inserts 0 (s ++ [0]) m.
Proof.
  intros -> Hlen. apply list_insert_id.
  rewrite list_lookup_inserts by (rewrite ?length_app; simpl; lia).
  rewrite Nat.sub_0_r, lookup_app_r, Nat.sub_diag by lia. reflexivity.
Qed.

(** X20. [__snprintf_chk] on a buffer that really has [size] bytes, for a
    text [out] without zero bytes.  It never stores outside the buffer.
    When the text fits it returns its length and the buffer holds the
    text.  When it does not fit the call aborts, unless the terminate
    flag is set: then it returns the length of the whole text and the
    buffer holds its first [size - 1] characters, terminated.  The
    object size [os] plays no part. *)
Theorem snprintf_chk_result (str out : list Z) (size flag os : Z) :
  0 < size <= Z.of_nat (length str) ->
  Z.of_nat (length out) < 2 ^ 31 ->
  Forall (fun b => b <> 0) out ->
  exists str',
    c_string str' = take (Z.to_nat (size - 1)) out
    /\ (Z.of_nat (length out) < size -> c_string str' = out)
    /\ length str' = length str
    /\ __snprintf_chk (c_vsnprintf (Some out)) str size flag os
       = if Z.of_nat (length out) <? size
         then Some (Returned (Z.of_nat (length out)) str')
         else if c_true (Z.land flag FLAG_TERMINATE)
         then Some (Returned (Z.of_nat (length out)) str')
         else Some (Aborted str').
Proof.
  intros Hsize Hout Hnz.
  set (s := take (Z.to_nat (size - 1)) out).
  assert (Hs : Forall (fun b => b <> 0) s) by now apply Forall_take.
  assert (Hls : (length s <= Z.to_nat (size - 1))%nat)
    by (unfold s; rewrite length_take; lia).
  exists (list_inserts 0 (s ++ [0]) str).
  split; [apply c_string_stored; [exact Hs|lia]|].
  split.
  { intros Hfit. rewrite c_string_stored by (auto; lia).
    unfold s. apply take_ge. lia. }
  split; [apply length_inserts|].
  unfold __snprintf_chk, c_vsnprintf.
  destruct (Z.eqb_spec size 0); [lia|]. fold s.
  destruct (Nat.leb_spec (length (s ++ [0])) (length str)) as [_|Hbad];
    [|rewrite length_app in Hbad; simpl in Hbad; lia].
  destruct (Z.ltb_spec (Z.of_nat (length out)) 0); [lia|].
  rewrite to_u64_small by lia.
  destruct (Z.leb_spec size (Z.of_nat (length out))) as [Hover|Hfit].
  - destruct (Z.ltb_spec (Z.of_nat (length out)) size); [lia|].
    destruct (c_true (Z.land flag FLAG_TERMINATE)); [|reflexivity].
    unfold store_byte. rewrite to_u64_small by lia.
    rewrite length_inserts.
    destruct (Z.leb_spec 0 (size - 1)); [|lia].
    destruct (Z.ltb_spec (size - 1) (Z.of_nat (length str))); [|lia].
    simpl. rewrite store_terminator_again; [reflexivity| |lia].
    unfold s. rewrite length_take. lia.
  - destruct (Z.ltb_spec (Z.of_nat (length out)) size); [reflexivity|lia].
Qed.

Lemma snprintf_chk_result_witness :
  exists str',
    c_string str' = bytes_of "hello, "
    /\ __snprintf_chk (c_vsnprintf (Some hello_world)) buffer8 8
         FLAG_TERMINATE 8
       = Some (Returned 12 str').
Proof.
  destruct (snprintf_chk_result buffer8 hello_world 8 FLAG_TERMINATE 8)
    as (str' & Hstr & _ & _ & Hres).
  - simpl. lia.
  - simpl. lia.
  - apply (bool_decide_unpack _). vm_compute. exact I.
  - exists str'. split; [exact Hstr|exact Hres].
Defined.

(** X21. [__vsprintf_chk] (and [__sprintf_chk]) when [os] is the real size of
    the buffer and fits an [int], for a text without zero bytes: it
    never stores outside the buffer; a text that fits is stored and its
    length returned; a longer text aborts the process when the abort
    flag is set, and is otherwise cut to [os - 1] characters,
    terminated, with the length of the whole text returned. *)
Theorem vsprintf_chk_result (str out : list Z) (flag os : Z) :
  0 < os <= Z.of_nat (length str) ->
  os < 2 ^ 31 ->
  Z.of_nat (length out) < 2 ^ 31 ->
  Forall (fun b => b <> 0) out ->
  exists str',
    c_string str' = take (Z.to_nat (os - 1)) out
    /\ (Z.of_nat (length out) < os -> c_string str' = out)
    /\ length str' = length str
    /\ __sprintf_chk (c_vsnprintf (Some out)) str flag os
       = __vsprintf_chk (c_vsnprintf (Some out)) str flag os
    /\ __vsprintf_chk (c_vsnprintf (Some out)) str flag os
       = if Z.of_nat (length out) <? os
         then Some (Returned (Z.of_nat (length out)) str')
         else if c_true (Z.land flag FLAG_ABORT_ON_OVERFLOW)
         then Some (Aborted str')
         else Some (Returned (Z.of_nat (length out)) str').
Proof.
  intros Hos Hint Hout Hnz.
  set (s := take (Z.to_nat (os - 1)) out).
  assert (Hs : Forall (fun b => b <> 0) s) by now apply Forall_take.
  assert (Hls : (length s <= Z.to_nat (os - 1))%nat)
    by (unfold s; rewrite length_take; lia).
  exists (list_inserts 0 (s ++ [0]) str).
  split; [apply c_string_stored; [exact Hs|lia]|].
  split.
  { intros Hfit. rewrite c_string_stored by (auto; lia).
    unfold s. apply take_ge. lia. }
  split; [apply length_inserts|]. split; [reflexivity|].
  unfold __vsprintf_chk, c_vsnprintf.
  destruct (Z.eqb_spec os 0); [lia|]. fold s.
  destruct (Nat.leb_spec (length (s ++ [0])) (length str)) as [_|Hbad];
    [|rewrite length_app in Hbad; simpl in Hbad; lia].
  rewrite to_i32_small by lia.
  destruct (Z.leb_spec os (Z.of_nat (length out))) as [Hover|Hfit].
  - destruct (Z.ltb_spec (Z.of_nat (length out)) os); [lia|].
    destruct (c_true (Z.land flag FLAG_ABORT_ON_OVERFLOW)); [reflexivity|].
    unfold store_byte. rewrite to_u64_small by lia.
    rewrite length_inserts.
    destruct (Z.leb_spec 0 (os - 1)); [|lia].
    destruct (Z.ltb_spec (os - 1) (Z.of_nat (length str))); [|lia].
    simpl. rewrite store_terminator_again; [reflexivity| |lia].
    unfold s. rewrite length_take. lia.
  - destruct (Z.ltb_spec (Z.of_nat (length out)) os); [reflexivity|lia].
Qed.

Lemma vsprintf_chk_result_witness :
  exists str',
    __vsprintf_chk (c_vsnprintf (Some hello_world)) buffer8
      FLAG_ABORT_ON_OVERFLOW 8
    = Some (Aborted str').
Proof.
  destruct (vsprintf_chk_result buffer8 hello_world FLAG_ABORT_ON_OVERFLOW 8)
    as (str' & _ & _ & _ & _ & Hres).
  - simpl. lia.
  - lia.
  - simpl. lia.
  - apply (bool_decide_unpack _). vm_compute. exact I.
  - exists str'. exact Hres.
Defined.

(** X22. When the object size is the "unknown" value, the largest
    [size_t], its conversion to [int] is -1 and every return value of
    the host counts as an overflow, even for a text that fits.  Whatever
    the host's [vsnprintf] stored and returned, the call then either
    aborts (abort flag set) or executes the store [str[SIZE_MAX - 1] = 0]
    before its [return ret]: a store at index 2^64 - 2, outside the
    buffer.  The model gives no result ([None]) to a call that stores
    outside the buffer; on a machine such a call may well go on and
    return [ret]. *)
Theorem vsprintf_chk_unknown_size
    (vsnprintf : list Z -> Z -> option (Z * list Z))
    (str str' : list Z) (flag ret : Z) :
  vsnprintf str (2 ^ 64 - 1) = Some (ret, str') ->
  - 1 <= ret ->
  Z.of_nat (length str') < 2 ^ 64 - 2 ->
  (to_i32 (2 ^ 64 - 1) <=? ret) = true
  /\ (c_true (Z.land flag FLAG_ABORT_ON_OVERFLOW) = true ->
      __vsprintf_chk vsnprintf str flag (2 ^ 64 - 1) = Some (Aborted str'))
  /\ (c_true (Z.land flag FLAG_ABORT_ON_OVERFLOW) = false ->
      __vsprintf_chk vsnprintf str flag (2 ^ 64 - 1)
      = Returned ret <$> store_byte (2 ^ 64 - 2) 0 str'
      /\ store_byte (2 ^ 64 - 2) 0 str' = None).
Proof.
  intros Hhost Hret Hlen.
  assert (Hcmp : (to_i32 (2 ^ 64 - 1) <=? ret) = true).
  { change (to_i32 (2 ^ 64 - 1)) with (-1). apply Z.leb_le. exact Hret. }
  split; [exact Hcmp|].
  unfold __vsprintf_chk. rewrite Hhost, Hcmp.
  split; intros ->; [reflexivity|].
  split; [reflexivity|].
  unfold store_byte.
  destruct (Z.ltb_spec (2 ^ 64 - 2) (Z.of_nat (length str'))); [lia|].
  now rewrite andb_false_r.
Qed.

Lemma vsprintf_chk_unknown_size_witness :
  __vsprintf_chk (fun str _ => Some (2, list_inserts 0 [104; 105; 0] str))
    buffer8 FLAG_ABORT_ON_OVERFLOW (2 ^ 64 - 1)
  = Some (Aborted (list_inserts 0 [104; 105; 0] buffer8)).
Proof.
  apply (vsprintf_chk_unknown_size
           (fun str _ => Some (2, list_inserts 0 [104; 105; 0] str))
           buffer8 (list_inserts 0 [104; 105; 0] buffer8)
           FLAG_ABORT_ON_OVERFLOW 2).
  - reflexivity.
  - lia.
  - simpl. lia.
  - reflexivity.
Defined.

(** Without the abort flag the two characters of "hi" fit the buffer of
    8 bytes, and the function still stores outside it. *)
Example vsprintf_chk_unknown_size_stores_outside :
  __vsprintf_chk (fun str _ => Some (2, list_inserts 0 [104; 105; 0] str))
    buffer8 0 (2 ^ 64 - 1)
  = Returned 2 <$> store_byte (2 ^ 64 - 2) 0
                     (list_inserts 0 [104; 105; 0] buffer8)
  /\ store_byte (2 ^ 64 - 2) 0 (list_inserts 0 [104; 105; 0] buffer8) = None.
Proof. split; reflexivity. Qed.

(** ** Locale conventions *)

Lemma localeconv_calls_initialized answers q :
  localeconv_calls answers {| qnx_lconv_static := q; initialized := 1 |}
  = map (fun _ => (false, q)) answers.
Proof.
  induction answers as [|a answers IH]; [reflexivity|].
  simpl. now rewrite IH.
Qed.

(** X23. The locale record is computed once.  Starting with the statics as
    the loader leaves them, the first call asks the host and every later
    call returns the record of the first call without asking again,
    whatever the host's locale data have become.  In that record the
    members without a host counterpart and the eight reserved slots are
    null, and the pointers are the host's own. *)
Theorem qnx_localeconv_memoized (first : HostLocale.lconv)
    (later : list HostLocale.lconv) (q0 : qnx_lconv) :
  length (_Reserved q0) = 8%nat ->
  let q := convert_musl_to_qnx_lconv first q0 in
  localeconv_calls (first :: later)
    {| qnx_lconv_static := q0; initialized := 0 |}
  = (true, q) :: map (fun _ => (false, q)) later
  /\ _Reserved q = replicate 8 0
  /\ [_Frac_grouping q; _Frac_sep q; _False q; _True q; _No q; _Yes q;
      _Nostr q; _Yesstr q] = replicate 8 0
  /\ decimal_point q = HostLocale.decimal_point first
  /\ thousands_sep q = HostLocale.thousands_sep first
  /\ grouping q = HostLocale.grouping first
  /\ currency_symbol q = HostLocale.currency_symbol first.
Proof.
  intros Hlen q. split.
  - simpl. now rewrite localeconv_calls_initialized.
  - split; [|repeat split].
    subst q. simpl.
    destruct (_Reserved q0) as [|r0 [|r1 [|r2 [|r3 [|r4 [|r5 [|r6 [|r7 [|]]]]]]]]];
      try discriminate.
    reflexivity.
Qed.

Lemma qnx_localeconv_memoized_witness :
  localeconv_calls [lconv_at 4096; lconv_at 8192; lconv_at 12288]
    {| qnx_lconv_static := qnx_lconv_zero; initialized := 0 |}
  = [(true, convert_musl_to_qnx_lconv (lconv_at 4096) qnx_lconv_zero);
     (false, convert_musl_to_qnx_lconv (lconv_at 4096) qnx_lconv_zero);
     (false, convert_musl_to_qnx_lconv (lconv_at 4096) qnx_lconv_zero)].
Proof.
  apply (qnx_localeconv_memoized (lconv_at 4096)
           [lconv_at 8192; lconv_at 12288] qnx_lconv_zero).
  reflexivity.
Defined.
